(** * Console-to-Pino logging refactor scripts: model and properties

    Shallow embedding of the two scripts of the repository,

      - [refactor-logger.py]  (module [Logger]), and
      - [refactor_logs.py]    (module [Logs]),

    together with the small part of Python's [re] and [str] that they use.

    Text is a list of characters.  A character is an [ascii], read as one
    of the first 256 Unicode code points; [\s], [\w] and [str.strip] are
    given their Python 3 (Unicode) meaning on that range. *)

From Stdlib Require Import Ascii String List Arith ZArith Lia Bool.
Import ListNotations.

Local Open Scope list_scope.

(* ------------------------------------------------------------------ *)
(** ** Text *)

Definition text := list ascii.

(** String literals of the scripts are written as Rocq strings. *)
Definition txt (s : string) : text := list_ascii_of_string s.

Definition LF : ascii := "010"%char.

Fixpoint text_eqb (a b : text) : bool :=
  match a, b with
  | [], [] => true
  | x :: a', y :: b' => Ascii.eqb x y && text_eqb a' b'
  | _, _ => false
  end.

(** [s.startswith(w)] *)
Fixpoint starts_with (w s : text) : bool :=
  match w with
  | [] => true
  | x :: w' =>
      match s with
      | [] => false
      | y :: s' => Ascii.eqb x y && starts_with w' s'
      end
  end.

(** [w in s] *)
Fixpoint contains (w s : text) : bool :=
  starts_with w s ||
  match s with
  | [] => false
  | _ :: s' => contains w s'
  end.

(** Python's [str.isspace] / [\s] on code points below 256:
    TAB..CR, FS..US, SPACE, NEL (0x85) and NBSP (0xA0). *)
Definition is_space (c : ascii) : bool :=
  let n := nat_of_ascii c in
  ((9 <=? n) && (n <=? 13)) || ((28 <=? n) && (n <=? 32))
  || (n =? 133) || (n =? 160).

(** Python's [\w] on code points below 256: alphanumerics (in the sense
    of [str.isalnum]) and the underscore. *)
Definition is_word (c : ascii) : bool :=
  let n := nat_of_ascii c in
  ((48 <=? n) && (n <=? 57)) || ((65 <=? n) && (n <=? 90))
  || (n =? 95) || ((97 <=? n) && (n <=? 122))
  || (n =? 170) || (n =? 178) || (n =? 179) || (n =? 181)
  || (n =? 185) || (n =? 186) || ((188 <=? n) && (n <=? 190))
  || ((192 <=? n) && (n <=? 214)) || ((216 <=? n) && (n <=? 246))
  || ((248 <=? n) && (n <=? 255)).

Fixpoint lstrip (s : text) : text :=
  match s with
  | [] => []
  | c :: s' => if is_space c then lstrip s' else s
  end.

Definition rstrip (s : text) : text := rev (lstrip (rev s)).

(** [s.strip()] *)
Definition strip (s : text) : text := rstrip (lstrip s).

(** [s.replace(c, '')] for a one-character [c]. *)
Definition remove_char (c : ascii) (s : text) : text :=
  filter (fun x => negb (Ascii.eqb x c)) s.

(** [s.split('\n')]: always at least one piece. *)
Fixpoint split_lines (s : text) : list text :=
  match s with
  | [] => [[]]
  | c :: s' =>
      if Ascii.eqb c LF then [] :: split_lines s'
      else match split_lines s' with
           | [] => [[c]]
           | l :: ls => (c :: l) :: ls
           end
  end.

(** ['\n'.join(lines)] *)
Fixpoint join_lines (ls : list text) : text :=
  match ls with
  | [] => []
  | [l] => l
  | l :: ls' => l ++ LF :: join_lines ls'
  end.

(** [lines.insert(i, x)] for [0 <= i]; past the end it appends. *)
Fixpoint list_insert {A : Type} (i : nat) (x : A) (l : list A) : list A :=
  match i, l with
  | O, _ => x :: l
  | S j, [] => [x]
  | S j, y :: l' => y :: list_insert j x l'
  end.

(* ------------------------------------------------------------------ *)
(** ** The fragment of [re] used by the scripts

    Repetition is applied to character classes only (that is all the
    patterns of the scripts need), which keeps the backtracking matcher
    structurally recursive.  Alternatives are tried in the order of
    Python's engine: greedy operators longest first, lazy ones shortest
    first, [a|b] left first. *)

Inductive regex : Type :=
| Lit (w : string)                   (* a literal run of characters *)
| Cls (p : ascii -> bool)            (* one character of a class *)
| Star (p : ascii -> bool)           (* [p*], greedy *)
| Plus (p : ascii -> bool)           (* [p+], greedy *)
| LazyStar (p : ascii -> bool)       (* [p*?] *)
| Opt (r : regex)                    (* [(?:r)?], greedy *)
| Grp (i : nat) (r : regex)          (* capture group number [i] *)
| Alt (r1 r2 : regex)                (* [r1|r2] *)
| Seq (r1 r2 : regex)
| Bol                                (* [^] *)
| Eol.                               (* [$] *)

(** Capture groups, most recent binding first. *)
Definition caps := list (nat * text).

Fixpoint group (cs : caps) (i : nat) : option text :=
  match cs with
  | [] => None
  | (j, t) :: cs' => if Nat.eqb i j then Some t else group cs' i
  end.

(** [match.group(i)] for a group that always takes part in a match, and
    [match.group(i) or EMPTY] with the empty text for [EMPTY]. *)
Definition group_or_empty (cs : caps) (i : nat) : text :=
  match group cs i with Some t => t | None => [] end.

Section Matcher.

(** What a match yields: the captures and the unconsumed text. *)
Definition outcome : Type := (caps * text)%type.

(** A continuation receives: whether we still are at offset 0 of the
    subject, the text left, and the captures so far. *)
Definition kont : Type := bool -> text -> caps -> option outcome.

Fixpoint lit_go (w s : text) : option text :=
  match w with
  | [] => Some s
  | x :: w' =>
      match s with
      | [] => None
      | y :: s' => if Ascii.eqb x y then lit_go w' s' else None
      end
  end.

Fixpoint star_go (p : ascii -> bool) (bol : bool) (s : text)
         (k : bool -> text -> option outcome) : option outcome :=
  match s with
  | c :: s' =>
      if p c then
        match star_go p false s' k with
        | Some o => Some o
        | None => k bol s
        end
      else k bol s
  | [] => k bol s
  end.

Fixpoint lazy_go (p : ascii -> bool) (bol : bool) (s : text)
         (k : bool -> text -> option outcome) : option outcome :=
  match k bol s with
  | Some o => Some o
  | None =>
      match s with
      | c :: s' => if p c then lazy_go p false s' k else None
      | [] => None
      end
  end.

(** [$] without MULTILINE: at the end, or just before a final newline. *)
Definition at_eol (s : text) : bool :=
  match s with
  | [] => true
  | [c] => Ascii.eqb c LF
  | _ => false
  end.

Fixpoint rmatch (r : regex) (bol : bool) (s : text) (cs : caps)
         (k : kont) {struct r} : option outcome :=
  match r with
  | Lit w =>
      match lit_go (txt w) s with
      | Some s' => k (bol && Nat.eqb (String.length w) 0) s' cs
      | None => None
      end
  | Cls p =>
      match s with
      | c :: s' => if p c then k false s' cs else None
      | [] => None
      end
  | Star p => star_go p bol s (fun b s' => k b s' cs)
  | Plus p =>
      match s with
      | c :: s' =>
          if p c then star_go p false s' (fun b s'' => k b s'' cs)
          else None
      | [] => None
      end
  | LazyStar p => lazy_go p bol s (fun b s' => k b s' cs)
  | Opt r1 =>
      match rmatch r1 bol s cs k with
      | Some o => Some o
      | None => k bol s cs
      end
  | Grp i r1 =>
      rmatch r1 bol s cs
        (fun b s' cs' =>
           k b s' ((i, firstn (length s - length s') s) :: cs'))
  | Alt r1 r2 =>
      match rmatch r1 bol s cs k with
      | Some o => Some o
      | None => rmatch r2 bol s cs k
      end
  | Seq r1 r2 =>
      rmatch r1 bol s cs (fun b s' cs' => rmatch r2 b s' cs' k)
  | Bol => if bol then k bol s cs else None
  | Eol => if at_eol s then k bol s cs else None
  end.

(** An attempt at one position: [bol] tells whether it is offset 0. *)
Definition match_here (r : regex) (bol : bool) (s : text)
  : option outcome :=
  rmatch r bol s [] (fun _ s' cs => Some (cs, s')).

(** [re.match(r, s)] *)
Definition re_match (r : regex) (s : text) : option outcome :=
  match_here r true s.

(** [re.search(r, s)]: leftmost match; yields the text before the
    match, the captures and the text after it. *)
Fixpoint search_go (r : regex) (bol : bool) (pre_rev s : text)
  : option (text * caps * text) :=
  match match_here r bol s with
  | Some (cs, rest) => Some (rev pre_rev, cs, rest)
  | None =>
      match s with
      | [] => None
      | c :: s' => search_go r false (c :: pre_rev) s'
      end
  end.

Definition re_search (r : regex) (s : text) : option (text * caps * text) :=
  search_go r true [] s.

(** A second attempt at the position of an empty match: it must
    consume something. *)
Definition match_advancing (r : regex) (bol : bool) (s : text)
  : option outcome :=
  rmatch r bol s []
    (fun _ s' cs =>
       if length s' <? length s then Some (cs, s') else None).

(** The scan shared by [re.sub] and [re.findall]: left to right,
    non-overlapping; a character that starts no match is kept.  After a
    match of [n >= 1] characters the next [n - 1] characters are
    skipped.  After an empty match the engine retries at the same
    position for a match that advances, and keeps the character if
    there is none. *)
Inductive piece : Type :=
| Keep (c : ascii)
| Hit (cs : caps).

Fixpoint scan_go (r : regex) (bol : bool) (s : text) (skip : nat)
  : list piece :=
  match skip with
  | S n =>
      match s with
      | [] => []
      | _ :: s' => scan_go r false s' n
      end
  | O =>
      match match_here r bol s with
      | Some (cs, rest) =>
          match s with
          | [] => [Hit cs]
          | c :: s' =>
              match length s - length rest with
              | S n => Hit cs :: scan_go r false s' n
              | O =>
                  match match_advancing r bol s with
                  | Some (cs2, rest2) =>
                      Hit cs :: Hit cs2
                        :: scan_go r false s' (length s' - length rest2)
                  | None => Hit cs :: Keep c :: scan_go r false s' 0
                  end
              end
          end
      | None =>
          match s with
          | [] => []
          | c :: s' => Keep c :: scan_go r false s' 0
          end
      end
  end.

Definition re_scan (r : regex) (s : text) : list piece :=
  scan_go r true s 0.

Fixpoint render (f : caps -> text) (ps : list piece) : text :=
  match ps with
  | [] => []
  | Keep c :: ps' => c :: render f ps'
  | Hit cs :: ps' => f cs ++ render f ps'
  end.

Fixpoint hits (ps : list piece) : nat :=
  match ps with
  | [] => 0
  | Keep _ :: ps' => hits ps'
  | Hit _ :: ps' => S (hits ps')
  end.

(** [re.sub(r, f, s)] with a replacement function [f]. *)
Definition re_sub (r : regex) (f : caps -> text) (s : text) : text :=
  render f (re_scan r s).

(** [len(re.findall(r, s))], also the number of calls [re.sub] makes
    to its replacement function. *)
Definition re_count (r : regex) (s : text) : nat :=
  hits (re_scan r s).

End Matcher.

(** Character classes of the patterns. *)
Definition any_of (w : string) (c : ascii) : bool :=
  existsb (Ascii.eqb c) (txt w).
Definition none_of (w : string) (c : ascii) : bool := negb (any_of w c).
Definition in_range (lo hi : ascii) (c : ascii) : bool :=
  (nat_of_ascii lo <=? nat_of_ascii c) && (nat_of_ascii c <=? nat_of_ascii hi).
(** [.] without DOTALL *)
Definition dot (c : ascii) : bool := negb (Ascii.eqb c LF).

Declare Scope regex_scope.
Delimit Scope regex_scope with re.
Infix ";;" := Seq (at level 61, right associativity) : regex_scope.

Definition DQ : ascii := "034"%char.
Definition SQ : ascii := "039"%char.
Definition BQ : ascii := "096"%char.

(** The classes of the three quote characters (single, double, backtick)
    and of everything else; patterns quoted in comments below write [Q]
    and [^Q] for them. *)
Definition is_quote (c : ascii) : bool :=
  Ascii.eqb c SQ || Ascii.eqb c DQ || Ascii.eqb c BQ.
Definition not_quote (c : ascii) : bool := negb (is_quote c).

(* ------------------------------------------------------------------ *)
(** ** Files, the console and the interpreter *)

Definition path := string.

(** A file: the text reading it yields, whether it can be opened and
    decoded as UTF-8 text, whether it can be opened for writing, and
    how many characters a write can store in it ([None]: any number). *)
Record file : Type := mkFile {
  data : text;
  readable : bool;
  writable : bool;
  room : option nat
}.

(** What a path leads to: nothing (with whether a file can be created
    there), something that cannot be examined, for which [exists] and
    [open] raise, or a file. *)
Inductive entry : Type :=
| Absent (creatable : bool)
| Unreachable
| Present (f : file).

(** Two paths are taken to lead to two files. *)
Definition filesystem := path -> entry.

Definition update (fs : filesystem) (p : path) (e : entry) : filesystem :=
  fun q => if String.eqb q p then e else fs q.

(** [Path(file_arg).name] on a POSIX system: the last component of the
    path, the components being separated by [/] and the empty ones and
    [.] left out; the empty string when there is none. *)
Fixpoint split_on (sep : ascii) (s : text) : list text :=
  match s with
  | [] => [[]]
  | c :: s' =>
      if Ascii.eqb c sep then [] :: split_on sep s'
      else match split_on sep s' with
           | [] => [[c]]
           | l :: ls => (c :: l) :: ls
           end
  end.

Definition path_parts (p : path) : list text :=
  filter (fun c => negb (text_eqb c [] || text_eqb c (txt ".")))
         (split_on "/" (txt p)).

Definition path_name (p : path) : string :=
  string_of_list_ascii (last (path_parts p) []).

(** What the scripts print, one value for each call of [print], with
    the stream it goes to.  A formatted message is kept as the values
    it is formatted from: the [Path] object and the file path of
    refactor_logs.py as the argument they were built from,
    [file_path.name] as the name; the text of the exception in
    [Error refactoring] is left out. *)
Inductive event : Type :=
| Usage
| FileNotFound (file_path : path)            (* stderr, refactor-logger *)
| ErrorRefactoring (file_path : path)        (* stderr *)
| Converted (name : string) (count : Z)      (* stdout *)
| Failed (name : string)                     (* stderr *)
| SummaryHeader                              (* an empty line, [Summary:] *)
| SummaryLine (name : string) (count : Z)
| TotalFiles (n : nat)
| TotalStatements (total : Z)
| ErrorFileNotFound (filepath : path)        (* stdout, refactor_logs *)
| NoConsoleStatements (filepath : path)
| Refactored (count : nat) (filepath : path).

(** What the scripts ask of the file system: a file read, with the
    text obtained if any, and a file opened for writing, with the text
    to be written. *)
Inductive op : Type :=
| Read (p : path) (got : option text)
| Write (p : path) (t : text).

(** The world a script runs in: the files; whether a call of [print]
    succeeds, given what has been printed so far; whether the streams
    can be flushed when the interpreter ends, given what has been
    printed; what has been printed, that is, handed to the streams by
    calls of [print] that succeeded; and what has been asked of the
    file system. *)
Record world : Type := mkWorld {
  disk : filesystem;
  console : list event -> event -> bool;
  closing : list event -> bool;
  printed : list event;
  trace : list op
}.

(** How a piece of Python ends: with a value, with an exception of
    class [Exception], or with [SystemExit] from [sys.exit]. *)
Inductive result (A : Type) : Type :=
| Ok (a : A)
| Raise
| Exit (status : Z).

Arguments Ok {A} a.
Arguments Raise {A}.
Arguments Exit {A} status.

Definition io (A : Type) : Type := world -> result A * world.

Definition ret {A : Type} (a : A) : io A := fun w => (Ok a, w).

Definition bind {A B : Type} (m : io A) (k : A -> io B) : io B :=
  fun w =>
    match m w with
    | (Ok a, w') => k a w'
    | (Raise, w') => (Raise, w')
    | (Exit z, w') => (Exit z, w')
    end.

Declare Scope io_scope.
Delimit Scope io_scope with io.
Bind Scope io_scope with io.
Notation "x <- m ;; k" := (bind m (fun x => k))
  (at level 61, m at next level, right associativity) : io_scope.
Notation "m ;; k" := (bind m (fun _ => k))
  (at level 61, right associativity) : io_scope.

(** [try: body except Exception: handler]; [SystemExit] is not of class
    [Exception]. *)
Definition try_except {A : Type} (body handler : io A) : io A :=
  fun w =>
    match body w with
    | (Raise, w') => handler w'
    | r => r
    end.

(** [sys.exit(status)] *)
Definition sys_exit {A : Type} (status : Z) : io A :=
  fun w => (Exit status, w).

(** [print(...)]: the line is printed, or the call raises (a closed
    stream, a character the stream cannot encode) and nothing of it is
    recorded. *)
Definition print (e : event) : io unit :=
  fun w =>
    if console w (printed w) e
    then (Ok tt, mkWorld (disk w) (console w) (closing w) (printed w ++ [e]) (trace w))
    else (Raise, w).

(** [Path(p).exists()] *)
Definition path_exists (p : path) : io bool :=
  fun w =>
    match disk w p with
    | Absent _ => (Ok false, w)
    | Unreachable => (Raise, w)
    | Present _ => (Ok true, w)
    end.

Definition asked (o : op) (w : world) : world :=
  mkWorld (disk w) (console w) (closing w) (printed w) (trace w ++ [o]).

(** [file_path.read_text(encoding='utf-8')], and [open(p, 'r')] with
    [f.read()]. *)
Definition read_text (p : path) : io text :=
  fun w =>
    match disk w p with
    | Present f =>
        if readable f then (Ok (data f), asked (Read p (Some (data f))) w)
        else (Raise, asked (Read p None) w)
    | _ => (Raise, asked (Read p None) w)
    end.

(** The file after [t] is written to it, once it is open for writing
    and so emptied, and whether all of [t] went in. *)
Definition store (f : file) (t : text) : file * bool :=
  match room f with
  | None => (mkFile t (readable f) (writable f) (room f), true)
  | Some k =>
      if length t <=? k
      then (mkFile t (readable f) (writable f) (room f), true)
      else (mkFile (firstn k t) (readable f) (writable f) (room f), false)
  end.

(** [file_path.write_text(t, encoding='utf-8')], and [open(p, 'w')]
    with [f.write(t)]: a file that cannot be opened is left as it is; a
    file that can is emptied and takes what it has room for; a missing
    file is created where that is possible. *)
Definition write_text (p : path) (t : text) : io unit :=
  fun w =>
    let w := asked (Write p t) w in
    let put e := mkWorld (update (disk w) p e) (console w) (closing w) (printed w)
                         (trace w) in
    match disk w p with
    | Present f =>
        if writable f then
          let (f', whole) := store f t in
          (if whole then Ok tt else Raise, put (Present f'))
        else (Raise, w)
    | Absent true => (Ok tt, put (Present (mkFile t true true None)))
    | Absent false => (Raise, w)
    | Unreachable => (Raise, w)
    end.

(** A run of a script: how [main] ended and the world it left. *)
Definition run : Type := (result unit * world)%type.

Definition ending (r : run) : result unit := fst r.
Definition final (r : run) : world := snd r.

(** The exit status of the interpreter: 0 after a normal end, the
    argument of [sys.exit], and 1 after an exception, whose traceback
    the interpreter writes to stderr (it is not part of [printed]);
    but 120 whenever the streams cannot be flushed at the end. *)
Definition exit_status (r : run) : Z :=
  if closing (final r) (printed (final r)) then
    match ending r with
    | Ok _ => 0
    | Raise => 1
    | Exit status => status
    end
  else 120.

(* ------------------------------------------------------------------ *)
(** ** refactor-logger.py *)

Module Logger.

Local Open Scope regex_scope.

Definition IMPORT_LINE : text :=
  txt "import { log, logError } from '@/lib/services/logger';".

Definition has_logger_import (content : text) : bool :=
  contains (txt "from '@/lib/services/logger'") content
  || contains (txt "from " ++ DQ :: txt "@/lib/services/logger" ++ [DQ])
       content.

(** [^import\s+.*?;?\s*$] *)
Definition import_pattern : regex :=
  Bol ;; Lit "import" ;; Plus is_space ;; LazyStar dot ;; Opt (Lit ";")
      ;; Star is_space ;; Eol.

Definition is_import_line (line : text) : bool :=
  match re_match import_pattern (strip line) with
  | Some _ => true
  | None => false
  end.

(** The loop over [enumerate(lines)]: index of the last import line,
    starting from [acc] ([None] stands for -1). *)
Fixpoint last_import_from (i : nat) (lines : list text) (acc : option nat)
  : option nat :=
  match lines with
  | [] => acc
  | l :: ls =>
      last_import_from (S i) ls (if is_import_line l then Some i else acc)
  end.

Definition last_import_idx (lines : list text) : option nat :=
  last_import_from 0 lines None.

Definition add_logger_import (content : text) : text :=
  if has_logger_import content then content
  else
    let lines := split_lines content in
    match last_import_idx lines with
    | Some i => join_lines (list_insert (i + 1) IMPORT_LINE lines)
    | None => IMPORT_LINE ++ LF :: LF :: content
    end.

(** [msg.replace('[', '').replace(']', '').strip()] *)
Definition clean_msg (msg : text) : text :=
  strip (remove_char "]" (remove_char "[" msg)).

(** [\$\{[^}]+\}] *)
Definition interp_pattern : regex :=
  Lit "${" ;; Plus (none_of "}") ;; Lit "}".

(** [re.sub(r'\$\{[^}]+\}', '', msg).strip()] *)
Definition strip_interp (msg : text) : text :=
  strip (re_sub interp_pattern (fun _ => []) msg).

(** [console\.<level>\(\s*Q([^Q]+)Q\s*,\s*(\w+)\s*\)] *)
Definition with_var_pattern (level : string) : regex :=
  Lit "console." ;; Lit level ;; Lit "(" ;; Star is_space
    ;; Cls is_quote ;; Grp 1 (Plus not_quote) ;; Cls is_quote
    ;; Star is_space ;; Lit "," ;; Star is_space
    ;; Grp 2 (Plus is_word) ;; Star is_space ;; Lit ")".

(** [console\.<level>\(\s*`([^`]+)`\s*\)] *)
Definition template_pattern (level : string) : regex :=
  Lit "console." ;; Lit level ;; Lit "(" ;; Star is_space
    ;; Lit "`" ;; Grp 1 (Plus (none_of "`")) ;; Lit "`"
    ;; Star is_space ;; Lit ")".

(** [console\.<level>\(\s*Q([^Q]+)Q\s*\)] *)
Definition simple_pattern (level : string) : regex :=
  Lit "console." ;; Lit level ;; Lit "(" ;; Star is_space
    ;; Cls is_quote ;; Grp 1 (Plus not_quote) ;; Cls is_quote
    ;; Star is_space ;; Lit ")".

(** [f'logError({error_var}, "{msg}", {{ component: "refactored" }})'] *)
Definition replace_with_var (cs : caps) : text :=
  let msg := clean_msg (group_or_empty cs 1) in
  let error_var := group_or_empty cs 2 in
  txt "logError(" ++ error_var ++ txt ", " ++ DQ :: msg
    ++ DQ :: txt ", { component: " ++ DQ :: txt "refactored"
    ++ DQ :: txt " })".

(** [f'log.<target>({{ msg: "{msg}" }})'] *)
Definition emit_msg (target : string) (msg : text) : text :=
  txt "log." ++ txt target ++ txt "({ msg: " ++ DQ :: msg
    ++ DQ :: txt " })".

Definition replace_template (target : string) (cs : caps) : text :=
  let msg := group_or_empty cs 1 in
  if contains (txt "${") msg then emit_msg target (strip_interp msg)
  else emit_msg target msg.

(** The template [r'log.<target>({ msg: "\1" })'] *)
Definition replace_simple (target : string) (cs : caps) : text :=
  emit_msg target (group_or_empty cs 1).

Definition refactor_console_error (content : text) : text :=
  let content := re_sub (with_var_pattern "error") replace_with_var content in
  let content :=
    re_sub (template_pattern "error") (replace_template "error") content in
  re_sub (simple_pattern "error") (replace_simple "error") content.

Definition refactor_console_warn (content : text) : text :=
  let content :=
    re_sub (template_pattern "warn") (replace_template "warn") content in
  let content := re_sub (with_var_pattern "warn") replace_with_var content in
  re_sub (simple_pattern "warn") (replace_simple "warn") content.

Definition refactor_console_log (content : text) : text :=
  let content :=
    re_sub (template_pattern "log") (replace_template "info") content in
  re_sub (simple_pattern "log") (replace_simple "info") content.

(** [console\.(log|warn|error)] *)
Definition console_pattern : regex :=
  Lit "console." ;; Grp 1 (Alt (Lit "log") (Alt (Lit "warn") (Lit "error"))).

Definition count_console (content : text) : nat :=
  re_count console_pattern content.

(** The body of [refactor_file] between reading and writing: the new
    content and [statements_converted]. *)
Definition refactor_text (original_content : text) : text * Z :=
  let content := original_content in
  let count_before := count_console content in
  if count_before =? 0 then (original_content, 0%Z)
  else
    let content := add_logger_import content in
    let content := refactor_console_error content in
    let content := refactor_console_warn content in
    let content := refactor_console_log content in
    let count_after := count_console content in
    (content, (Z.of_nat count_before - Z.of_nat count_after)%Z).

(** [refactor_file]: the pair [(success, count)]. *)
Definition refactor_file (file_path : path) : io (bool * Z) :=
  try_except
    (original_content <- read_text file_path ;;
     let (content, statements_converted) := refactor_text original_content in
     if negb (text_eqb content original_content) then
       write_text file_path content ;;
       ret (true, statements_converted)
     else ret (true, 0%Z))%io
    (print (ErrorRefactoring file_path) ;;
     ret (false, 0%Z))%io.

(** The loop of [main] over [sys.argv[1:]]; it returns [results]. *)
Fixpoint process (args : list path) (results : list (string * Z))
  : io (list (string * Z)) :=
  match args with
  | [] => ret results
  | file_arg :: rest =>
      let file_path := file_arg in
      (found <- path_exists file_path ;;
       if negb found then
         print (FileNotFound file_path) ;;
         process rest results
       else
         r <- refactor_file file_path ;;
         let (success, count) := r in
         if success then
           let results := results ++ [(path_name file_path, count)] in
           print (Converted (path_name file_path) count) ;;
           process rest results
         else
           print (Failed (path_name file_path)) ;;
           process rest results)%io
  end.

(** The loop over [results] in the summary. *)
Fixpoint print_results (results : list (string * Z)) : io unit :=
  match results with
  | [] => ret tt
  | (name, count) :: rest =>
      (print (SummaryLine name count) ;; print_results rest)%io
  end.

(** [sum(c for _, c in results)] *)
Definition total (results : list (string * Z)) : Z :=
  fold_left Z.add (map snd results) 0%Z.

(** [main], given [sys.argv[1:]]. *)
Definition main (args : list path) : io unit :=
  match args with
  | [] => (print Usage ;; sys_exit 1%Z)%io
  | _ =>
      (results <- process args [] ;;
       print SummaryHeader ;;
       print_results results ;;
       print (TotalFiles (length results)) ;;
       print (TotalStatements (total results)))%io
  end.

End Logger.

(* ------------------------------------------------------------------ *)
(** ** refactor_logs.py *)

Module Logs.

Local Open Scope regex_scope.

Definition IMPORT_LINE : text :=
  txt "import { log, logError } from '@/lib/services/logger';".

(** [[A-Z_]] *)
Definition upper_us (c : ascii) : bool :=
  in_range "A" "Z" c || Ascii.eqb c "_".

(** The patterns with an [ICONS] prefix, where [G1] is the group
    [[^`]*] and [G2] the group [[^)]*]:
    [console\.<level>\(\`\$\{ICONS\.[A-Z_]+\}\s*G1\`(?:,\s*G2)?\);] *)
Definition icons_pattern (level : string) : regex :=
  Lit "console." ;; Lit level ;; Lit "(`${ICONS." ;; Plus upper_us
    ;; Lit "}" ;; Star is_space ;; Grp 1 (Star (none_of "`")) ;; Lit "`"
    ;; Opt (Lit "," ;; Star is_space ;; Grp 2 (Star (none_of ")")))
    ;; Lit ");".

(** The patterns without it, where [G1] is the group [[^']*] and [G2]
    the group [[^)]*]:  [console\.<level>\('G1',\s*G2\);] *)
Definition plain_pattern (level : string) : regex :=
  Lit "console." ;; Lit level ;; Lit "('" ;; Grp 1 (Star (none_of "'"))
    ;; Lit "'," ;; Star is_space ;; Grp 2 (Star (none_of ")"))
    ;; Lit ");".

Definition pattern1 := icons_pattern "log".
Definition pattern2 := icons_pattern "warn".
Definition pattern3 := icons_pattern "error".
Definition pattern4 := plain_pattern "log".
Definition pattern5 := plain_pattern "error".

(** [f"log.<target>({{ msg: '{msg}', component: 'todo'{', ' + data if data else ''} }});"] *)
Definition replace_icons (target : string) (cs : caps) : text :=
  let msg := strip (group_or_empty cs 1) in
  let data := group_or_empty cs 2 in
  txt "log." ++ txt target ++ txt "({ msg: '" ++ msg
    ++ txt "', component: 'todo'"
    ++ (match data with [] => [] | _ => txt ", " ++ data end)
    ++ txt " });".

Definition replace1 := replace_icons "info".
Definition replace2 := replace_icons "warn".

(** [f"logError({data or 'new Error(DQ' + msg + 'DQ)'}, '{msg}', {{ component: 'todo' }});"]
    where [DQ] is an escaped double quote. *)
Definition replace3 (cs : caps) : text :=
  let msg := strip (group_or_empty cs 1) in
  let data := group_or_empty cs 2 in
  txt "logError("
    ++ (match data with
        | [] => txt "new Error(" ++ DQ :: msg ++ DQ :: txt ")"
        | _ => data
        end)
    ++ txt ", '" ++ msg ++ txt "', { component: 'todo' });".

(** [f"log.info({{ msg: '{msg}', {data} }});"] *)
Definition replace4 (cs : caps) : text :=
  let msg := group_or_empty cs 1 in
  let data := group_or_empty cs 2 in
  txt "log.info({ msg: '" ++ msg ++ txt "', " ++ data ++ txt " });".

(** [f"logError({data}, '{msg}', {{ component: 'todo' }});"] *)
Definition replace5 (cs : caps) : text :=
  let msg := group_or_empty cs 1 in
  let data := group_or_empty cs 2 in
  txt "logError(" ++ data ++ txt ", '" ++ msg
    ++ txt "', { component: 'todo' });".

(** One pass: [re.sub] with a replacement function that also bumps the
    [nonlocal count]. *)
Definition pass (r : regex) (f : caps -> text) (st : text * nat)
  : text * nat :=
  let (content, count) := st in
  (re_sub r f content, count + re_count r content).

Definition passes (content : text) : text * nat :=
  pass pattern5 replace5
    (pass pattern4 replace4
       (pass pattern3 replace3
          (pass pattern2 replace2
             (pass pattern1 replace1 (content, 0))))).

(** [(import [^;]+;)] *)
Definition import_stmt_pattern : regex :=
  Grp 1 (Lit "import " ;; Plus (none_of ";") ;; Lit ";").

(** The import step at the end of [refactor_file]. *)
Definition add_import (count : nat) (content : text) : text :=
  if (0 <? count) && negb (contains (txt "log, logError") content) then
    if negb (contains IMPORT_LINE content) then
      match re_search import_stmt_pattern content with
      | Some (_, _, rest) =>
          let insert_pos := length content - length rest in
          firstn insert_pos content ++ LF :: IMPORT_LINE
            ++ skipn insert_pos content
      | None => content
      end
    else content
  else content.

(** [refactor_file] on the text read from the file. *)
Definition refactor_text (original_content : text) : nat * text :=
  let (content, count) := passes original_content in
  let content := add_import count content in
  (count, if 0 <? count then content else original_content).

(** [refactor_file]: the pair [(count, content)]; no exception is
    caught. *)
Definition refactor_file (filepath : path) : io (nat * text) :=
  (content <- read_text filepath ;;
   ret (refactor_text content))%io.

(** [main], given [sys.argv[1:]]. *)
Definition main (args : list path) : io unit :=
  match args with
  | [] => (print Usage ;; sys_exit 1%Z)%io
  | filepath :: _ =>
      (found <- path_exists filepath ;;
       if negb found then
         print (ErrorFileNotFound filepath) ;;
         sys_exit 1%Z
       else
         r <- refactor_file filepath ;;
         let (count, refactored_content) := r in
         if count =? 0 then print (NoConsoleStatements filepath)
         else
           write_text filepath refactored_content ;;
           print (Refactored count filepath))%io
  end.

End Logs.

(* ------------------------------------------------------------------ *)
(** ** Notions used to state the properties *)

Definition nonempty (t : text) : bool :=
  match t with [] => false | _ => true end.

(** The text left does not start with a character of the class. *)
Definition stops (p : ascii -> bool) (rest : text) : Prop :=
  match rest with
  | [] => True
  | c :: _ => p c = false
  end.

(** No white space at either end. *)
Definition trimmed (t : text) : Prop :=
  stops is_space t /\ stops is_space (rev t).

Definition no_lf (l : text) : Prop := ~ In LF l.

(** [out] is [c] with [ins] put in at one place. *)
Definition spliced (ins c out : text) : Prop :=
  exists pre post, c = pre ++ post /\ out = pre ++ ins ++ post.

(** Patterns without [^]; for them the offset-0 flag is irrelevant. *)
Fixpoint bol_free (r : regex) : bool :=
  match r with
  | Bol => false
  | Opt r1 | Grp _ r1 => bol_free r1
  | Alt r1 r2 | Seq r1 r2 => bol_free r1 && bol_free r2
  | _ => true
  end.

Definition flag_blind (k : kont) : Prop :=
  forall b1 b2 s cs, k b1 s cs = k b2 s cs.

(** [b] departs from [a]: up to some position they agree, and there [a]
    has the [c] of [console] and [b] the [l] of a replacement. *)
Definition departs (a b : text) : Prop :=
  exists pre ta tb, a = pre ++ "c"%char :: ta /\ b = pre ++ "l"%char :: tb.

(** The import line written with double quotes. *)
Definition IMPORT_LINE_DQ : text :=
  txt "import { log, logError } from " ++ DQ :: txt "@/lib/services/logger"
    ++ DQ :: txt ";".

Module Logger_spec.
Import Logger.

(** The three rewriting functions in the order [refactor_file] calls
    them. *)
Definition refactor_calls (content : text) : text :=
  refactor_console_log (refactor_console_warn (refactor_console_error content)).

(** The text [refactor_file] computes. *)
Definition output (content : text) : text := fst (refactor_text content).

(** The eight rewrite patterns, in the order of the passes. *)
Definition rewrite_patterns : list regex :=
  [ with_var_pattern "error"; template_pattern "error"; simple_pattern "error";
    template_pattern "warn"; with_var_pattern "warn"; simple_pattern "warn";
    template_pattern "log"; simple_pattern "log" ].

(** No rewrite pattern has a match in [content]. *)
Definition no_rewrite_match (content : text) : bool :=
  forallb (fun r => re_count r content =? 0) rewrite_patterns.

Definition not_import (l : text) : Prop := is_import_line l = false.

(** A call with a quoted message and a variable, as the patterns with
    a variable read it. *)
Record var_call : Type := mkVarCall {
  vc_lead : text;       (* white space after the parenthesis *)
  vc_open : ascii;      (* opening quote *)
  vc_msg : text;
  vc_close : ascii;     (* closing quote *)
  vc_gap1 : text;       (* white space before the comma *)
  vc_gap2 : text;       (* white space after the comma *)
  vc_var : text;
  vc_trail : text       (* white space before the closing parenthesis *)
}.

Definition var_call_ok (c : var_call) : bool :=
  forallb is_space (vc_lead c) && is_quote (vc_open c)
  && nonempty (vc_msg c) && forallb not_quote (vc_msg c)
  && is_quote (vc_close c)
  && forallb is_space (vc_gap1 c) && forallb is_space (vc_gap2 c)
  && nonempty (vc_var c) && forallb is_word (vc_var c)
  && forallb is_space (vc_trail c).

Definition var_call_text (level : string) (c : var_call) : text :=
  txt "console." ++ txt level ++ txt "(" ++ vc_lead c
    ++ vc_open c :: vc_msg c ++ vc_close c :: vc_gap1 c
    ++ txt "," ++ vc_gap2 c ++ vc_var c ++ vc_trail c ++ txt ")".

(** The call [logError(v, DQ m DQ, { component: DQ refactored DQ })]. *)
Definition log_error_call (v m : text) : text :=
  txt "logError(" ++ v ++ txt ", " ++ DQ :: m
    ++ DQ :: txt ", { component: " ++ DQ :: txt "refactored"
    ++ DQ :: txt " })".

(** A call whose only argument is a template literal. *)
Record template_call : Type := mkTemplateCall {
  tc_lead : text;
  tc_msg : text;
  tc_trail : text
}.

Definition template_call_ok (c : template_call) : bool :=
  forallb is_space (tc_lead c) && nonempty (tc_msg c)
  && forallb (none_of "`") (tc_msg c) && forallb is_space (tc_trail c).

Definition template_call_text (level : string) (c : template_call) : text :=
  txt "console." ++ txt level ++ txt "(" ++ tc_lead c
    ++ txt "`" ++ tc_msg c ++ txt "`" ++ tc_trail c ++ txt ")".

(** An interpolation marker with the expression [e]. *)
Definition marker (e : text) : text := txt "${" ++ e ++ txt "}".

(** A message made of stretches of plain text, each followed by a
    marker, and a last stretch; and the same message with the markers
    taken out. *)
Fixpoint with_markers (parts : list (text * text)) (tail : text) : text :=
  match parts with
  | [] => tail
  | (a, e) :: ps => a ++ marker e ++ with_markers ps tail
  end.

Fixpoint without_markers (parts : list (text * text)) (tail : text) : text :=
  match parts with
  | [] => tail
  | (a, _) :: ps => a ++ without_markers ps tail
  end.

(** The plain stretches open no marker, the expressions are not empty
    and hold no closing brace. *)
Definition markers_ok (parts : list (text * text)) (tail : text) : bool :=
  forallb (fun ae => negb (contains (txt "${") (fst ae))
                     && nonempty (snd ae)
                     && forallb (none_of "}") (snd ae)) parts
  && negb (contains (txt "${") tail).

Definition drop (_ : caps) : text := [].

End Logger_spec.

Module Logs_spec.
Import Logs.

(** The text [refactor_file] returns. *)
Definition output (content : text) : text := snd (refactor_text content).

Definition rewrite_patterns : list regex :=
  [pattern1; pattern2; pattern3; pattern4; pattern5].

(** No rewrite pattern has a match in [content]. *)
Definition no_rewrite_match (content : text) : bool :=
  forallb (fun r => re_count r content =? 0) rewrite_patterns.

(** What the import step puts in, and the text whose presence
    suppresses it. *)
Definition INSERTED : text := LF :: IMPORT_LINE.
Definition NEEDLE : text := txt "log, logError".

(** Either nothing was replaced and the text is the original, or
    something was and the text departs from it. *)
Definition pass_inv (orig : text) (st : text * nat) : Prop :=
  (snd st = 0 /\ fst st = orig) \/ (0 < snd st /\ departs orig (fst st)).

End Logs_spec.

(** Sample inputs used in the examples below. *)
Module Samples.

(** A file without any logging call. *)
Definition plain_js : text := txt "const x = 1;".

(** A call no rewrite pattern accepts: the argument is not a string. *)
Definition unmatched_call : text := txt "console.log(x)".



Definition two_imports : text :=
  txt "import a from 'a';" ++ LF :: txt "import b from 'b';"
    ++ LF :: txt "console.log('hi', x);".

Definition two_imports_rewritten : text :=
  txt "import a from 'a';" ++ LF :: Logs.IMPORT_LINE
    ++ LF :: txt "import b from 'b';"
    ++ LF :: txt "log.info({ msg: 'hi', x });".

Definition one_import : text := txt "import a from 'a';".

Definition template_with_var : text :=
  txt "console.error(`Failed ${id}:`, err)".

Definition failed_call : text := txt "console.error('Failed:', err)".


Definition bracket_call : Logger_spec.var_call :=
  Logger_spec.mkVarCall (txt " ") SQ (txt "[Comp] Failed: ") SQ []
    (txt " ") (txt "err") [].

Definition failed_var_call : Logger_spec.var_call :=
  Logger_spec.mkVarCall [] SQ (txt "Failed:") SQ [] (txt " ") (txt "err") [].

(** A readable file that can be written in full. *)
Definition plain_file (t : text) : file := mkFile t true true None.

Definition no_files : filesystem := fun _ => Absent true.

Definition one_file (p : path) (t : text) : filesystem :=
  update no_files p (Present (plain_file t)).

(** A world with the given files and streams that take every line,
    nothing printed and nothing asked yet. *)
Definition calm (fs : filesystem) : world :=
  mkWorld fs (fun _ _ => true) (fun _ => true) [] [].

(** Whether the line holds a check mark or a cross. *)
Definition marked (e : event) : bool :=
  match e with
  | Converted _ _ | Failed _ | Refactored _ _ => true
  | _ => false
  end.

(** A world whose streams cannot encode these two characters: a call
    of [print] with one of them raises. *)
Definition ascii_only (fs : filesystem) : world :=
  mkWorld fs (fun _ e => negb (marked e)) (fun _ => true) [] [].

(** A world whose streams take every line and fail when they are
    flushed at the end, as a full device does. *)
Definition full_device (fs : filesystem) : world :=
  mkWorld fs (fun _ _ => true) (fun _ => false) [] [].

(** A file to rewrite, one that cannot be opened for writing and one
    that cannot be read. *)
Definition three_files : filesystem :=
  update
    (update (one_file "a.ts"%string failed_call)
       "locked.ts"%string (Present (mkFile unmatched_call true false None)))
    "secret.ts"%string (Present (mkFile plain_js false true None)).

End Samples.

(* ------------------------------------------------------------------ *)
(** ** One call in a text *)

(** The word every pattern of either script starts with. *)
Definition CONSOLE : text := txt "console.".

(** A text in which that word does not occur. *)
Definition console_free (s : text) : Prop := contains CONSOLE s = false.

(** The levels, and the name each is logged under. *)
Definition levels : list string := ["log"; "warn"; "error"]%string.

(** The word the import statement of refactor_logs.py is searched
    by. *)
Definition IMPORT_WORD : text := txt "import ".

(** The pairs of the lines [name: count statements converted] among
    what was printed, in order. *)
Fixpoint converted_of (out : list event) : list (string * Z) :=
  match out with
  | [] => []
  | Converted name n :: out' => (name, n) :: converted_of out'
  | _ :: out' => converted_of out'
  end.

Module Logger_calls.
Import Logger Logger_spec.

(** A call whose only argument is a quoted message. *)
Record simple_call : Type := mkSimpleCall {
  sc_lead : text;
  sc_open : ascii;
  sc_msg : text;
  sc_close : ascii;
  sc_trail : text
}.

Definition simple_call_ok (c : simple_call) : bool :=
  forallb is_space (sc_lead c) && is_quote (sc_open c)
  && nonempty (sc_msg c) && forallb not_quote (sc_msg c)
  && is_quote (sc_close c) && forallb is_space (sc_trail c).

Definition simple_call_text (level : string) (c : simple_call) : text :=
  txt "console." ++ txt level ++ txt "(" ++ sc_lead c
    ++ sc_open c :: sc_msg c ++ sc_close c :: sc_trail c ++ txt ")".

Definition target_of (level : string) : string :=
  if String.eqb level "log" then "info"%string else level.

(** The message a template literal is emitted with. *)
Definition template_message (msg : text) : text :=
  if contains (txt "${") msg then strip_interp msg else msg.

(** A message opened with a backtick is closed with one. *)
Definition backticks_paired (c : var_call) : bool :=
  implb (Ascii.eqb (vc_open c) BQ) (Ascii.eqb (vc_close c) BQ).

(** The message of a call of level error has no quote of another
    kind. *)
Definition template_level_ok (level : string) (c : template_call) : bool :=
  implb (String.eqb level "error") (forallb not_quote (tc_msg c)).

End Logger_calls.

Module Logs_calls.

(** A call [console.<level>('msg', data);] as patterns 4 and 5 read
    it. *)
Record plain_call : Type := mkPlainCall {
  pc_msg : text;
  pc_gap : text;        (* white space after the comma *)
  pc_data : text
}.

Definition plain_call_ok (c : plain_call) : bool :=
  forallb (none_of "'") (pc_msg c) && forallb is_space (pc_gap c)
  && forallb (none_of ")") (pc_data c)
  && match pc_data c with [] => true | d :: _ => negb (is_space d) end.

Definition plain_call_text (level : string) (c : plain_call) : text :=
  txt "console." ++ txt level ++ txt "('" ++ pc_msg c ++ txt "',"
    ++ pc_gap c ++ pc_data c ++ txt ");".

(** A call [console.<level>(`${ICONS.NAME} msg`, data);] as patterns 1
    to 3 read it; the data, with the white space before it, is
    optional. *)
Record icons_call : Type := mkIconsCall {
  ic_name : text;
  ic_lead : text;       (* white space after the closing brace *)
  ic_msg : text;
  ic_data : option (text * text)
}.

Definition icons_data_ok (d : option (text * text)) : bool :=
  match d with
  | None => true
  | Some (gap, data) =>
      forallb is_space gap && forallb (none_of ")") data
      && match data with [] => true | x :: _ => negb (is_space x) end
  end.

Definition icons_call_ok (c : icons_call) : bool :=
  nonempty (ic_name c) && forallb Logs.upper_us (ic_name c)
  && forallb is_space (ic_lead c)
  && forallb (none_of "`") (ic_msg c)
  && match ic_msg c with [] => true | x :: _ => negb (is_space x) end
  && icons_data_ok (ic_data c).

Definition icons_data_text (d : option (text * text)) : text :=
  match d with
  | None => []
  | Some (gap, data) => txt "," ++ gap ++ data
  end.

Definition icons_call_text (level : string) (c : icons_call) : text :=
  txt "console." ++ txt level ++ txt "(`${ICONS." ++ ic_name c ++ txt "}"
    ++ ic_lead c ++ ic_msg c ++ txt "`" ++ icons_data_text (ic_data c)
    ++ txt ");".

(** The groups of a match of such a call. *)
Definition icons_caps (c : icons_call) : caps :=
  match ic_data c with
  | None => [(1, ic_msg c)]
  | Some (_, data) => [(2, data); (1, ic_msg c)]
  end.

End Logs_calls.

Module Logs_outputs.
Import Logs_calls.

(** What patterns 4 and 5 emit. *)
Definition info_plain (msg data : text) : text :=
  txt "log.info({ msg: '" ++ msg ++ txt "', " ++ data ++ txt " });".

Definition error_plain (msg data : text) : text :=
  txt "logError(" ++ data ++ txt ", '" ++ msg
    ++ txt "', { component: 'todo' });".

(** What patterns 1 to 3 emit for a trimmed message [msg] and the
    data, empty when there is none. *)
Definition icons_info (target : string) (msg data : text) : text :=
  txt "log." ++ txt target ++ txt "({ msg: '" ++ msg
    ++ txt "', component: 'todo'"
    ++ (match data with [] => [] | _ => txt ", " ++ data end)
    ++ txt " });".

Definition icons_error (msg data : text) : text :=
  txt "logError("
    ++ (match data with
        | [] => txt "new Error(" ++ DQ :: msg ++ DQ :: txt ")"
        | _ => data
        end)
    ++ txt ", '" ++ msg ++ txt "', { component: 'todo' });".

Definition data_of (c : icons_call) : text :=
  match ic_data c with None => [] | Some (_, data) => data end.

End Logs_outputs.

(* ------------------------------------------------------------------ *)
(** ** Texts made of calls *)

(** A text cut into calls, each after a stretch of other text, and a
    last stretch; [render] says how a call is written. *)
Fixpoint pieces_text {K : Type} (render : K -> text)
         (ps : list (text * K)) (tail : text) : text :=
  match ps with
  | [] => tail
  | (g, k) :: ps' => g ++ render k ++ pieces_text render ps' tail
  end.

(** A character that does not occur in the word [console.]. *)
Definition foreign (x : ascii) : bool := negb (existsb (Ascii.eqb x) CONSOLE).

(** The text does not end inside an occurrence of the word: it is
    empty or ends with a character foreign to it. *)
Definition sealed (t : text) : bool :=
  match rev t with
  | [] => true
  | x :: _ => foreign x
  end.

(** What the passes need to know of a call's text. *)
Definition call_facts (t : text) : Prop :=
  starts_with CONSOLE t = true /\ console_free (skipn 1 t) /\ sealed t = true.

Module Logger_docs.
Import Logger Logger_spec Logger_calls.

(** The calls the rewrite patterns of refactor-logger.py are written
    for: a quoted message and a variable, a template literal, a quoted
    message. *)
Inductive call : Type :=
| WithVar (level : string) (c : var_call)
| Template (level : string) (c : template_call)
| Simple (level : string) (c : simple_call).

Definition call_level (k : call) : string :=
  match k with WithVar l _ | Template l _ | Simple l _ => l end.

Definition call_text (k : call) : text :=
  match k with
  | WithVar l c => var_call_text l c
  | Template l c => template_call_text l c
  | Simple l c => simple_call_text l c
  end.

Definition is_level (l : string) : bool := existsb (String.eqb l) levels.

Definition free (t : text) : bool := negb (contains CONSOLE t).

(** The call has the shape its pattern reads, and neither its message
    nor the message it is emitted with holds the word [console.].  A
    message opened with a backtick and followed by a variable is closed
    with a backtick; a quoted message is not opened with one; a template
    literal of level error holds no quote. *)
Definition call_ok (k : call) : bool :=
  is_level (call_level k)
  && match k with
     | WithVar _ c =>
         var_call_ok c && backticks_paired c
         && free (vc_msg c) && free (clean_msg (vc_msg c))
     | Template l c =>
         template_call_ok c && template_level_ok l c
         && free (tc_msg c) && free (template_message (tc_msg c))
     | Simple _ c =>
         simple_call_ok c && negb (Ascii.eqb (sc_open c) BQ)
         && free (sc_msg c)
     end.

(** What the three rewriting functions leave in the place of a call;
    there is no rule for console.log with a variable. *)
Definition emitted (k : call) : text :=
  match k with
  | WithVar l c =>
      if String.eqb l "log" then var_call_text l c
      else log_error_call (vc_var c) (clean_msg (vc_msg c))
  | Template l c => emit_msg (target_of l) (template_message (tc_msg c))
  | Simple l c => emit_msg (target_of l) (sc_msg c)
  end.

(** What the function for the level [L] leaves in its place. *)
Definition after (L : string) (k : call) : text :=
  if String.eqb (call_level k) L then emitted k else call_text k.

Definition doc : Type := (list (text * call) * text)%type.

Definition doc_text (d : doc) : text := pieces_text call_text (fst d) (snd d).
Definition doc_out (d : doc) : text := pieces_text emitted (fst d) (snd d).
Definition doc_after (L : string) (d : doc) : text :=
  pieces_text (after L) (fst d) (snd d).

(** The stretches between the calls are free of [console.] and the
    calls are as above. *)
Definition doc_ok (d : doc) : bool :=
  forallb (fun gk => free (fst gk) && call_ok (snd gk)) (fst d)
  && free (snd d).






End Logger_docs.

Module Logs_docs.
Import Logs_calls Logs_outputs.

(** The calls the patterns of refactor_logs.py are written for: with
    the ICONS prefix (levels log, warn, error) and with a message
    between single quotes (levels log, error). *)
Inductive call : Type :=
| Icons (level : string) (c : icons_call)
| Plain (level : string) (c : plain_call).

Definition call_text (k : call) : text :=
  match k with
  | Icons l c => icons_call_text l c
  | Plain l c => plain_call_text l c
  end.

Definition free (t : text) : bool := negb (contains CONSOLE t).

Definition call_ok (k : call) : bool :=
  match k with
  | Icons l c =>
      existsb (String.eqb l) levels && icons_call_ok c
      && free (ic_msg c) && free (data_of c)
  | Plain l c =>
      existsb (String.eqb l) ["log"; "error"]%string && plain_call_ok c
      && free (pc_msg c) && free (pc_data c)
  end.

(** What the five passes leave in the place of a call. *)
Definition emitted (k : call) : text :=
  match k with
  | Icons l c =>
      if String.eqb l "error"
      then icons_error (strip (ic_msg c)) (data_of c)
      else icons_info (if String.eqb l "log" then "info" else l)
             (strip (ic_msg c)) (data_of c)
  | Plain l c =>
      if String.eqb l "error" then error_plain (pc_msg c) (pc_data c)
      else info_plain (pc_msg c) (pc_data c)
  end.

Definition doc : Type := (list (text * call) * text)%type.

Definition doc_text (d : doc) : text := pieces_text call_text (fst d) (snd d).
Definition doc_out (d : doc) : text := pieces_text emitted (fst d) (snd d).

Definition doc_ok (d : doc) : bool :=
  forallb (fun gk => free (fst gk) && call_ok (snd gk)) (fst d)
  && free (snd d).

End Logs_docs.

(** A sequence of counting passes at a call. *)
(** A pass is given by what its pattern has after [console.] and by
    its replacement. *)
Definition step : Type := (regex * (caps -> text))%type.

Definition step_pattern (p : step) : regex := Seq (Lit "console.") (fst p).

Definition run_pass (p : step) (st : text * nat) : text * nat :=
  Logs.pass (step_pattern p) (snd p) st.

Fixpoint run_steps (ps : list step) (st : text * nat) : text * nat :=
  match ps with
  | [] => st
  | p :: ps' => run_steps ps' (run_pass p st)
  end.

Definition steps_ok (ps : list step) : Prop :=
  Forall (fun p => bol_free (fst p) = true) ps.

Definition step_misses (p : step) (call : text) : Prop :=
  forall X, match_here (step_pattern p) true (call ++ X) = None.




(** Sample texts for the properties of calls. *)
Module Texts.
Import Logger_spec Logger_calls Logs_calls.

(** A comment that names a call. *)
Definition commented_call : text := txt "// do not use console.log here".

Definition template_only : text := txt "console.error(`Failed ${id}:`)".

Definition warn_template_with_var : text :=
  txt "console.warn(`Failed ${id}:`, err)".



End Texts.

(* ------------------------------------------------------------------ *)
(** ** What the drivers do to the files *)

(** Every call of [print] succeeds. *)
Definition accepting (w : world) : Prop := forall l e, console w l e = true.

(** The streams can be flushed at the end, whatever was printed. *)
Definition flushing (w : world) : Prop := forall l, closing w l = true.

(** No argument leads to something that cannot be examined. *)
Definition reachable (fs : filesystem) (args : list path) : Prop :=
  forall p, In p args -> fs p <> Unreachable.

(** The file has room for the text. *)
Definition fits (f : file) (t : text) : bool :=
  match room f with
  | None => true
  | Some k => length t <=? k
  end.

(** What was printed, and asked of the file system, from [w] on. *)
Definition printed_since (w w' : world) (evs : list event) : Prop :=
  printed w' = printed w ++ evs.

Definition asked_since (w w' : world) (tr : list op) : Prop :=
  trace w' = trace w ++ tr.

(** What one file is asked in a run that rewrites with [out]: a read
    that fails; a read of a text that [out] leaves as it is; or a read
    of a text that [out] changes and then a write of the changed text,
    which leaves the file as it was when it cannot be opened and
    otherwise stores what the file has room for. *)
Inductive asks (out : text -> text) (fs : filesystem)
  : list op -> filesystem -> Prop :=
| asks_nothing : asks out fs [] fs
| asks_read_failed p : asks out fs [Read p None] fs
| asks_read p f :
    fs p = Present f -> out (data f) = data f ->
    asks out fs [Read p (Some (data f))] fs
| asks_write_refused p f :
    fs p = Present f -> out (data f) <> data f -> writable f = false ->
    asks out fs [Read p (Some (data f)); Write p (out (data f))] fs
| asks_write p f :
    fs p = Present f -> out (data f) <> data f -> writable f = true ->
    asks out fs [Read p (Some (data f)); Write p (out (data f))]
      (update fs p (Present (fst (store f (out (data f)))))).

(** A sequence of such. *)
Inductive asks_all (out : text -> text) (fs : filesystem)
  : list op -> filesystem -> Prop :=
| asks_done : asks_all out fs [] fs
| asks_more tr1 fs1 tr2 fs2 :
    asks out fs tr1 fs1 -> asks_all out fs1 tr2 fs2 ->
    asks_all out fs (tr1 ++ tr2) fs2.

Definition op_path (o : op) : path :=
  match o with Read p _ | Write p _ => p end.

(** Only the files at the paths [ps] are asked. *)
Definition within (ps : list path) (tr : list op) : Prop :=
  forall o, In o tr -> In (op_path o) ps.

(** From [w] to [w'] the streams are the same, lines were only added to
    what was printed, and the files at [ps], and no other, were asked as
    above. *)
Definition history (out : text -> text) (ps : list path) (w w' : world)
  : Prop :=
  (console w' = console w /\ closing w' = closing w)
  /\ (exists evs, printed_since w w' evs)
  /\ exists tr, asked_since w w' tr
                /\ asks_all out (disk w) tr (disk w') /\ within ps tr.

(** Every write follows at once the read of the same file, and writes
    what [out] makes of the text read, which is another text. *)
Definition writes_follow_reads (out : text -> text) (tr : list op) : Prop :=
  forall l1 p t l2,
    tr = l1 ++ Write p t :: l2 ->
    exists l0 c, l1 = l0 ++ [Read p (Some c)] /\ t = out c /\ t <> c.

Definition never_written (q : path) (tr : list op) : Prop :=
  forall t, ~ In (Write q t) tr.

(** The file is of the same kind, with the same permissions and room. *)
Definition same_kind (e e' : entry) : Prop :=
  match e, e' with
  | Absent c, Absent c' => c = c'
  | Unreachable, Unreachable => True
  | Present f, Present f' =>
      readable f' = readable f /\ writable f' = writable f
      /\ room f' = room f
  | _, _ => False
  end.

Module Logger_runs.
Import Logger Logger_spec.

(** What refactor-logger.py prints for one argument, the pair it adds
    to [results] and the files it leaves, when every call of [print]
    succeeds. *)
Inductive visited (fs : filesystem) (a : path)
  : list event -> list (string * Z) -> filesystem -> Prop :=
| visit_missing c :
    fs a = Absent c -> visited fs a [FileNotFound a] [] fs
| visit_unreadable f :
    fs a = Present f -> readable f = false ->
    visited fs a [ErrorRefactoring a; Failed (path_name a)] [] fs
| visit_unchanged f :
    fs a = Present f -> readable f = true -> output (data f) = data f ->
    visited fs a [Converted (path_name a) 0] [(path_name a, 0%Z)] fs
| visit_refused f :
    fs a = Present f -> readable f = true -> output (data f) <> data f ->
    writable f = false ->
    visited fs a [ErrorRefactoring a; Failed (path_name a)] [] fs
| visit_short f :
    fs a = Present f -> readable f = true -> output (data f) <> data f ->
    writable f = true -> fits f (output (data f)) = false ->
    visited fs a [ErrorRefactoring a; Failed (path_name a)] []
      (update fs a (Present (fst (store f (output (data f))))))
| visit_written f :
    fs a = Present f -> readable f = true -> output (data f) <> data f ->
    writable f = true -> fits f (output (data f)) = true ->
    visited fs a
      [Converted (path_name a) (snd (refactor_text (data f)))]
      [(path_name a, snd (refactor_text (data f)))]
      (update fs a (Present (fst (store f (output (data f)))))).

Inductive visits (fs : filesystem)
  : list path -> list event -> list (string * Z) -> filesystem -> Prop :=
| visits_nil : visits fs [] [] [] fs
| visits_cons a rest evs1 new1 fs1 evs2 new2 fs2 :
    visited fs a evs1 new1 fs1 -> visits fs1 rest evs2 new2 fs2 ->
    visits fs (a :: rest) (evs1 ++ evs2) (new1 ++ new2) fs2.

(** The lines of the summary. *)
Definition summary (results : list (string * Z)) : list event :=
  SummaryHeader
    :: map (fun nc => SummaryLine (fst nc) (snd nc)) results
    ++ [TotalFiles (length results); TotalStatements (total results)].

End Logger_runs.

(** The lines that end the report on one argument. *)
Definition closes (e : event) : bool :=
  match e with
  | FileNotFound _ | Converted _ _ | Failed _ => true
  | _ => false
  end.

(* ------------------------------------------------------------------ *)
(** ** Text lemmas *)

Lemma text_eqb_eq (a b : text) : text_eqb a b = true <-> a = b.
Proof.
  revert b; induction a as [|x a IH]; intros [|y b]; simpl;
    try (split; [discriminate | congruence]); try tauto.
  rewrite andb_true_iff, Ascii.eqb_eq, IH.
  split; [intros [-> ->]; reflexivity | intros H; inversion H; auto].
Qed.

Lemma text_eqb_refl (a : text) : text_eqb a a = true.
Proof. apply text_eqb_eq; reflexivity. Qed.

Lemma starts_with_iff (w s : text) :
  starts_with w s = true <-> exists t, s = w ++ t.
Proof.
  revert s; induction w as [|x w IH]; intros s; simpl.
  - split; [intros _; exists s; reflexivity | reflexivity].
  - destruct s as [|y s].
    + split; [discriminate | intros [t Ht]; discriminate].
    + rewrite andb_true_iff, Ascii.eqb_eq, IH. split.
      * intros [-> [t ->]]. exists t; reflexivity.
      * intros [t Ht]. inversion Ht; subst. split; [reflexivity | eauto].
Qed.

Lemma starts_with_app (w t : text) : starts_with w (w ++ t) = true.
Proof. apply starts_with_iff; eauto. Qed.

Lemma contains_iff (w s : text) :
  contains w s = true <-> exists a b, s = a ++ w ++ b.
Proof.
  induction s as [|c s IH].
  - simpl. rewrite orb_false_r, starts_with_iff. split.
    + intros [t Ht]. exists [], t. exact Ht.
    + intros [a [b H]]. destruct a; [eauto | discriminate].
  - simpl. rewrite orb_true_iff, starts_with_iff, IH. split.
    + intros [[t Ht] | [a [b H]]].
      * exists [], t. exact Ht.
      * exists (c :: a), b. simpl. congruence.
    + intros [[|x a] [b H]].
      * left. exists b. exact H.
      * right. exists a, b. simpl in H. congruence.
Qed.

Lemma contains_intro (w a b : text) : contains w (a ++ w ++ b) = true.
Proof. apply contains_iff; eauto. Qed.

Lemma contains_false_suffix (w a t : text) :
  contains w (a ++ t) = false -> starts_with w t = false.
Proof.
  intros H. destruct (starts_with w t) eqn:E; [|reflexivity].
  apply starts_with_iff in E. destruct E as [u ->].
  rewrite contains_intro in H. discriminate.
Qed.

Lemma contains_trans (v w s : text) :
  contains v w = true -> contains w s = true -> contains v s = true.
Proof.
  rewrite !contains_iff. intros [a [b ->]] [a' [b' ->]].
  exists (a' ++ a), (b ++ b'). rewrite <- !app_assoc. reflexivity.
Qed.

Lemma lit_go_some (w s s' : text) : lit_go w s = Some s' <-> s = w ++ s'.
Proof.
  revert s; induction w as [|x w IH]; intros s; simpl.
  - split; [intros H; inversion H; reflexivity | intros ->; reflexivity].
  - destruct s as [|y s]; [split; discriminate|].
    destruct (Ascii.eqb x y) eqn:E.
    + apply Ascii.eqb_eq in E. subst y. rewrite IH.
      split; [intros ->; reflexivity | intros H; inversion H; reflexivity].
    + apply Ascii.eqb_neq in E. split; [discriminate|].
      intros H; inversion H; congruence.
Qed.

Lemma lit_go_app (w t : text) : lit_go w (w ++ t) = Some t.
Proof. apply lit_go_some; reflexivity. Qed.

Lemma lit_go_none (w s : text) :
  starts_with w s = false -> lit_go w s = None.
Proof.
  intros H. destruct (lit_go w s) eqn:E; [|reflexivity].
  apply lit_go_some in E. subst s. rewrite starts_with_app in H. discriminate.
Qed.

(* ------------------------------------------------------------------ *)
(** ** The scan of [re.sub] and [re.findall] *)

Section Scan.
Variable r : regex.
Variable f : caps -> text.

Lemma scan_no_hit_render :
  forall s b n, hits (scan_go r b s n) = 0 ->
                render f (scan_go r b s n) = skipn n s.
Proof.
  induction s as [|c s IH]; intros b n H.
  - destruct n; cbn [scan_go] in *.
    + destruct (match_here r b []) as [[cs rest]|]; [discriminate|reflexivity].
    + reflexivity.
  - destruct n; cbn [scan_go] in *.
    + destruct (match_here r b (c :: s)) as [[cs rest]|].
      * destruct (length (c :: s) - length rest);
          [destruct (match_advancing r b (c :: s)) as [[? ?]|]|];
          discriminate.
      * cbn [hits render] in *. rewrite (IH false 0 H). reflexivity.
    + apply IH. exact H.
Qed.

(** A pass that finds nothing returns its input. *)
Lemma re_sub_no_hit (s : text) : re_count r s = 0 -> re_sub r f s = s.
Proof. intros H. apply (scan_no_hit_render s true 0 H). Qed.

Lemma scan_never_matches :
  forall s b,
    (forall a t b', s = a ++ t -> match_here r b' t = None) ->
    hits (scan_go r b s 0) = 0.
Proof.
  induction s as [|c s IH]; intros b H; cbn [scan_go].
  - rewrite (H [] [] b eq_refl). reflexivity.
  - rewrite (H [] (c :: s) b eq_refl). cbn [hits]. apply IH.
    intros a t b' ->. apply (H (c :: a) t b'). reflexivity.
Qed.

End Scan.

(** If wherever [r1] fails [r2] fails too, a text without a match of
    [r1] has no match of [r2]. *)
Lemma scan_no_hit_mono (r1 r2 : regex) :
  (forall b t, match_here r1 b t = None -> match_here r2 b t = None) ->
  forall s b, hits (scan_go r1 b s 0) = 0 -> hits (scan_go r2 b s 0) = 0.
Proof.
  intros Himp. induction s as [|c s IH]; intros b H; cbn [scan_go] in *.
  - destruct (match_here r1 b []) as [[cs rest]|] eqn:E; [discriminate|].
    rewrite (Himp _ _ E). reflexivity.
  - destruct (match_here r1 b (c :: s)) as [[cs rest]|] eqn:E.
    + destruct (length (c :: s) - length rest);
        [destruct (match_advancing r1 b (c :: s)) as [[? ?]|]|]; discriminate.
    + rewrite (Himp _ _ E). cbn [hits] in *. apply IH. exact H.
Qed.

(** A pattern that opens with a literal fails where the literal does
    not start. *)
Lemma lit_seq_fails (w : string) (r : regex) (b : bool) (s : text) :
  starts_with (txt w) s = false -> match_here (Seq (Lit w) r) b s = None.
Proof.
  intros H. unfold match_here. simpl. rewrite (lit_go_none _ _ H). reflexivity.
Qed.

Lemma re_count_lit_absent (w : string) (r : regex) (s : text) :
  contains (txt w) s = false -> re_count (Seq (Lit w) r) s = 0.
Proof.
  intros H. apply scan_never_matches. intros a t b' ->.
  apply lit_seq_fails. eapply contains_false_suffix; eauto.
Qed.

(* ------------------------------------------------------------------ *)
(** ** Independence of the start-of-text flag *)

Lemma star_go_flag p k :
  (forall b1 b2 s, k b1 s = k b2 s) ->
  forall s b1 b2, star_go p b1 s k = star_go p b2 s k.
Proof.
  intros Hk. induction s as [|c s IH]; intros b1 b2; cbn [star_go].
  - apply Hk.
  - rewrite (Hk b1 b2). reflexivity.
Qed.

Lemma lazy_go_flag p k :
  (forall b1 b2 s, k b1 s = k b2 s) ->
  forall s b1 b2, lazy_go p b1 s k = lazy_go p b2 s k.
Proof.
  intros Hk. destruct s as [|c s]; intros b1 b2; cbn [lazy_go];
    rewrite (Hk b1 b2); reflexivity.
Qed.

Lemma rmatch_flag :
  forall r, bol_free r = true ->
  forall k, flag_blind k ->
  forall b1 b2 s cs, rmatch r b1 s cs k = rmatch r b2 s cs k.
Proof.
  induction r; cbn [bol_free]; intros Hr k Hk b1 b2 s cs; cbn [rmatch];
    try discriminate.
  - destruct (lit_go (txt w) s); [apply Hk | reflexivity].
  - reflexivity.
  - apply star_go_flag. intros; apply Hk.
  - reflexivity.
  - apply lazy_go_flag. intros; apply Hk.
  - rewrite (IHr Hr k Hk b1 b2), (Hk b1 b2). reflexivity.
  - apply IHr; [exact Hr|]. intros ? ? ? ?. apply Hk.
  - apply andb_true_iff in Hr. destruct Hr as [H1 H2].
    rewrite (IHr1 H1 k Hk b1 b2), (IHr2 H2 k Hk b1 b2). reflexivity.
  - apply andb_true_iff in Hr. destruct Hr as [H1 H2].
    apply IHr1; [exact H1|]. intros ? ? ? ?. apply IHr2; assumption.
  - destruct (at_eol s); [apply Hk | reflexivity].
Qed.

Lemma match_here_flag r b1 b2 s :
  bol_free r = true -> match_here r b1 s = match_here r b2 s.
Proof.
  intros H. apply rmatch_flag; [exact H|]. intros ? ? ? ?. reflexivity.
Qed.

Lemma match_advancing_flag r b1 b2 s :
  bol_free r = true -> match_advancing r b1 s = match_advancing r b2 s.
Proof.
  intros H. apply rmatch_flag; [exact H|]. intros ? ? ? ?. reflexivity.
Qed.

Lemma scan_go_flag r :
  bol_free r = true ->
  forall s n b1 b2, scan_go r b1 s n = scan_go r b2 s n.
Proof.
  intros H. destruct s as [|c s]; intros [|n] b1 b2; cbn [scan_go];
    try reflexivity;
    rewrite (match_here_flag r b1 b2 _ H); try reflexivity.
  rewrite (match_advancing_flag r b1 b2 _ H). reflexivity.
Qed.

Lemma scan_go_skip r :
  forall a t b, scan_go r b (a ++ t) (length a)
                = scan_go r (b && match a with [] => true | _ => false end) t 0.
Proof.
  induction a as [|x a IH]; intros t b.
  - rewrite andb_true_r. reflexivity.
  - cbn [app length scan_go]. rewrite IH. rewrite andb_false_r. reflexivity.
Qed.

Section Sub.
Variable r : regex.
Variable f : caps -> text.
Hypothesis Hr : bol_free r = true.

Lemma re_scan_keep c s :
  match_here r true (c :: s) = None ->
  re_scan r (c :: s) = Keep c :: re_scan r s.
Proof.
  intros H. unfold re_scan. cbn [scan_go]. rewrite H.
  rewrite (scan_go_flag r Hr s 0 false true). reflexivity.
Qed.

Lemma re_scan_hit m rest cs :
  m <> [] ->
  match_here r true (m ++ rest) = Some (cs, rest) ->
  re_scan r (m ++ rest) = Hit cs :: re_scan r rest.
Proof.
  intros Hm H. destruct m as [|c m]; [congruence|].
  unfold re_scan. cbn [app scan_go]. cbn [app] in H. rewrite H.
  replace (length (c :: m ++ rest) - length rest) with (S (length m))
    by (cbn [length]; rewrite length_app; lia).
  rewrite scan_go_skip.
  apply f_equal, scan_go_flag, Hr.
Qed.

Lemma re_sub_keep c s :
  match_here r true (c :: s) = None ->
  re_sub r f (c :: s) = c :: re_sub r f s.
Proof. intros H. unfold re_sub. rewrite (re_scan_keep c s H). reflexivity. Qed.

Lemma re_sub_hit m rest cs :
  m <> [] ->
  match_here r true (m ++ rest) = Some (cs, rest) ->
  re_sub r f (m ++ rest) = f cs ++ re_sub r f rest.
Proof. intros Hm H. unfold re_sub. rewrite (re_scan_hit m rest cs Hm H). reflexivity. Qed.

Lemma re_sub_nil : match_here r true [] = None -> re_sub r f [] = [].
Proof. intros H. unfold re_sub, re_scan. cbn [scan_go]. rewrite H. reflexivity. Qed.

End Sub.

(* ------------------------------------------------------------------ *)
(** ** Matching a text of known shape *)

Lemma star_go_run p k o :
  forall a rest b,
    forallb p a = true -> stops p rest ->
    (forall b', k b' rest = Some o) ->
    star_go p b (a ++ rest) k = Some o.
Proof.
  induction a as [|x a IH]; intros rest b Ha Hs Hk.
  - destruct rest as [|c rest]; cbn [app star_go]; [apply Hk|].
    cbn [stops] in Hs. rewrite Hs. apply Hk.
  - cbn [forallb] in Ha. apply andb_true_iff in Ha. destruct Ha as [Hx Ha].
    cbn [app star_go]. rewrite Hx, (IH rest false Ha Hs Hk). reflexivity.
Qed.

Section Known.
Variables (k : kont) (o : outcome).

Lemma rmatch_lit w rest b cs :
  (forall b', k b' rest cs = Some o) ->
  rmatch (Lit w) b (txt w ++ rest) cs k = Some o.
Proof. intros Hk. cbn [rmatch]. rewrite lit_go_app. apply Hk. Qed.

Lemma rmatch_cls p c rest b cs :
  p c = true ->
  (forall b', k b' rest cs = Some o) ->
  rmatch (Cls p) b (c :: rest) cs k = Some o.
Proof. intros Hp Hk. cbn [rmatch]. rewrite Hp. apply Hk. Qed.

Lemma rmatch_star p a rest b cs :
  forallb p a = true -> stops p rest ->
  (forall b', k b' rest cs = Some o) ->
  rmatch (Star p) b (a ++ rest) cs k = Some o.
Proof.
  intros Ha Hs Hk. cbn [rmatch]. apply star_go_run; auto.
Qed.

Lemma rmatch_plus p a rest b cs :
  a <> [] -> forallb p a = true -> stops p rest ->
  (forall b', k b' rest cs = Some o) ->
  rmatch (Plus p) b (a ++ rest) cs k = Some o.
Proof.
  intros Hne Ha Hs Hk. destruct a as [|x a]; [congruence|].
  cbn [forallb] in Ha. apply andb_true_iff in Ha. destruct Ha as [Hx Ha].
  cbn [app rmatch]. rewrite Hx. apply star_go_run; auto.
Qed.

End Known.

Lemma firstn_consumed (a rest : text) :
  firstn (length (a ++ rest) - length rest) (a ++ rest) = a.
Proof.
  rewrite length_app.
  replace (length a + length rest - length rest) with (length a) by lia.
  rewrite firstn_app, Nat.sub_diag, firstn_all. cbn [firstn].
  apply app_nil_r.
Qed.

Lemma rmatch_grp_plus (k : kont) (o : outcome) i p a rest b cs :
  a <> [] -> forallb p a = true -> stops p rest ->
  (forall b', k b' rest ((i, a) :: cs) = Some o) ->
  rmatch (Grp i (Plus p)) b (a ++ rest) cs k = Some o.
Proof.
  intros Hne Ha Hs Hk.
  change (rmatch (Plus p) b (a ++ rest) cs
            (fun b' s' cs' =>
               k b' s'
                 ((i, firstn (length (a ++ rest) - length s') (a ++ rest)) :: cs'))
          = Some o).
  apply rmatch_plus; auto.
  intros b'. rewrite firstn_consumed. apply Hk.
Qed.

Lemma rmatch_grp_star (k : kont) (o : outcome) i p a rest b cs :
  forallb p a = true -> stops p rest ->
  (forall b', k b' rest ((i, a) :: cs) = Some o) ->
  rmatch (Grp i (Star p)) b (a ++ rest) cs k = Some o.
Proof.
  intros Ha Hs Hk.
  change (rmatch (Star p) b (a ++ rest) cs
            (fun b' s' cs' =>
               k b' s'
                 ((i, firstn (length (a ++ rest) - length s') (a ++ rest)) :: cs'))
          = Some o).
  apply rmatch_star; auto.
  intros b'. rewrite firstn_consumed. apply Hk.
Qed.

Lemma ascii_cases (P : ascii -> Prop) :
  (forall n, n < 256 -> P (ascii_of_nat n)) -> forall c, P c.
Proof.
  intros H c. rewrite <- (ascii_nat_embedding c). apply H. apply nat_ascii_bounded.
Qed.

Lemma quote_not_space c : is_quote c = true -> is_space c = false.
Proof.
  unfold is_quote. rewrite !orb_true_iff, !Ascii.eqb_eq.
  intros [[-> | ->] | ->]; reflexivity.
Qed.

Lemma space_not_word c : is_space c = true -> is_word c = false.
Proof.
  destruct c as [[] [] [] [] [] [] [] []]; vm_compute; congruence.
Qed.

Lemma word_not_space c : is_word c = true -> is_space c = false.
Proof.
  intros H. destruct (is_space c) eqn:E; [|reflexivity].
  rewrite (space_not_word c E) in H. discriminate.
Qed.

Lemma rmatch_seq r1 r2 b s cs k :
  rmatch (Seq r1 r2) b s cs k
  = rmatch r1 b s cs (fun b' s' cs' => rmatch r2 b' s' cs' k).
Proof. reflexivity. Qed.

Lemma nonempty_ne t : nonempty t = true -> t <> [].
Proof. destruct t; [discriminate | congruence]. Qed.

Lemma stops_app_space (p : ascii -> bool) (a rest : text) :
  (forall c, is_space c = true -> p c = false) ->
  forallb is_space a = true -> stops p rest -> stops p (a ++ rest).
Proof.
  intros Hp Ha Hs. destruct a as [|x a]; [exact Hs|].
  cbn [forallb] in Ha. apply andb_true_iff in Ha. cbn. apply Hp, Ha.
Qed.

Ltac seq_step lem :=
  rewrite rmatch_seq; apply lem; [..| intros ?; cbv beta].

(* ------------------------------------------------------------------ *)
(** ** What a successful match looks like *)

Lemma star_go_inv p k o :
  forall s b, star_go p b s k = Some o ->
              exists a rest b', s = a ++ rest /\ forallb p a = true
                                /\ k b' rest = Some o.
Proof.
  induction s as [|c s IH]; intros b H; cbn [star_go] in H.
  - exists [], [], b. auto.
  - destruct (p c) eqn:Hc.
    + destruct (star_go p false s k) as [o'|] eqn:E.
      * inversion H; subst o'. destruct (IH false E) as (a & rest & b' & -> & Ha & Hk).
        exists (c :: a), rest, b'. cbn [forallb app]. rewrite Hc, Ha. auto.
      * exists [], (c :: s), b. auto.
    + exists [], (c :: s), b. auto.
Qed.

Lemma lazy_go_inv p k o :
  forall s b, lazy_go p b s k = Some o ->
              exists a rest b', s = a ++ rest /\ forallb p a = true
                                /\ k b' rest = Some o.
Proof.
  induction s as [|c s IH]; intros b H; cbn [lazy_go] in H.
  - destruct (k b []) eqn:E; [|discriminate]. inversion H; subst.
    exists [], [], b. auto.
  - destruct (k b (c :: s)) eqn:E.
    + inversion H; subst. exists [], (c :: s), b. auto.
    + destruct (p c) eqn:Hc; [|discriminate].
      destruct (IH false H) as (a & rest & b' & -> & Ha & Hk).
      exists (c :: a), rest, b'. cbn [forallb app]. rewrite Hc, Ha. auto.
Qed.

(** Whatever a pattern matches is a prefix of the subject: the
    continuation is entered on a suffix. *)
Lemma rmatch_inv :
  forall r b s cs k o,
    rmatch r b s cs k = Some o ->
    exists m rest b' cs', s = m ++ rest /\ k b' rest cs' = Some o.
Proof.
  induction r; intros b s cs k o H; cbn [rmatch] in H.
  - destruct (lit_go (txt w) s) as [s'|] eqn:E; [|discriminate].
    apply lit_go_some in E. exists (txt w), s'. eauto.
  - destruct s as [|c s]; [discriminate|]. destruct (p c); [|discriminate].
    exists [c], s. eauto.
  - apply star_go_inv in H. destruct H as (a & rest & b' & -> & _ & Hk).
    exists a, rest. eauto.
  - destruct s as [|c s]; [discriminate|]. destruct (p c); [|discriminate].
    apply star_go_inv in H. destruct H as (a & rest & b' & -> & _ & Hk).
    exists (c :: a), rest. eauto.
  - apply lazy_go_inv in H. destruct H as (a & rest & b' & -> & _ & Hk).
    exists a, rest. eauto.
  - destruct (rmatch r b s cs k) eqn:E.
    + inversion H; subst. eapply IHr; eauto.
    + exists [], s. eauto.
  - apply IHr in H. destruct H as (m & rest & b' & cs' & -> & Hk).
    exists m, rest. eauto.
  - destruct (rmatch r1 b s cs k) eqn:E.
    + inversion H; subst. eapply IHr1; eauto.
    + eapply IHr2; eauto.
  - apply IHr1 in H. destruct H as (m1 & s1 & b1 & cs1 & -> & H).
    apply IHr2 in H. destruct H as (m2 & s2 & b2 & cs2 & -> & H).
    exists (m1 ++ m2), s2, b2, cs2. rewrite <- app_assoc. auto.
  - destruct b; [|discriminate]. exists [], s. eauto.
  - destruct (at_eol s); [|discriminate]. exists [], s. eauto.
Qed.

Lemma match_here_suffix r b s cs rest :
  match_here r b s = Some (cs, rest) -> exists m, s = m ++ rest.
Proof.
  intros H. apply rmatch_inv in H.
  destruct H as (m & rest' & b' & cs' & -> & Hk). inversion Hk; subst. eauto.
Qed.

Lemma firstn_matched (m rest : text) :
  firstn (length (m ++ rest) - length rest) (m ++ rest) = m.
Proof. apply firstn_consumed. Qed.

Lemma skipn_matched (m rest : text) :
  skipn (length (m ++ rest) - length rest) (m ++ rest) = rest.
Proof.
  rewrite length_app.
  replace (length m + length rest - length rest) with (length m) by lia.
  rewrite skipn_app, Nat.sub_diag, skipn_all. reflexivity.
Qed.

(** [re.search] returns the leftmost position at which the pattern
    matches. *)
Lemma search_go_spec r :
  forall s b pre_rev pre cs rest,
    search_go r b pre_rev s = Some (pre, cs, rest) ->
    exists skipped m b',
      s = skipped ++ m ++ rest /\ pre = rev pre_rev ++ skipped
      /\ match_here r b' (m ++ rest) = Some (cs, rest)
      /\ forall a t, skipped = a ++ t -> t <> [] ->
                     exists b'', match_here r b'' (t ++ m ++ rest) = None.
Proof.
  induction s as [|c s IH]; intros b pre_rev pre cs rest H; cbn [search_go] in H.
  - destruct (match_here r b []) as [[cs' rest']|] eqn:E; [|discriminate].
    inversion H; subst. destruct (match_here_suffix _ _ _ _ _ E) as [m Hm].
    exists [], m, b. rewrite app_nil_r. cbn [app]. rewrite <- Hm.
    repeat split; auto. intros a t Ha Ht. destruct a; destruct t; try discriminate.
    congruence.
  - destruct (match_here r b (c :: s)) as [[cs' rest']|] eqn:E.
    + inversion H; subst. destruct (match_here_suffix _ _ _ _ _ E) as [m Hm].
      exists [], m, b. rewrite app_nil_r. cbn [app]. rewrite <- Hm.
      repeat split; auto. intros a t Ha Ht.
      destruct a; destruct t; try discriminate. congruence.
    + apply IH in H.
      destruct H as (skipped & m & b' & Es & Ep & Hm & Hno).
      exists (c :: skipped), m, b'. subst s. cbn [app].
      split; [reflexivity|]. split.
      { rewrite Ep. cbn [rev]. rewrite <- app_assoc. reflexivity. }
      split; [exact Hm|].
      intros a t Ha Ht. destruct a as [|x a].
      * cbn [app] in Ha. subst t. exists b. exact E.
      * cbn [app] in Ha. inversion Ha; subst. apply (Hno a t eq_refl Ht).
Qed.

(** A match of [(import [^;]+;)]. *)
Lemma import_stmt_match b s cs rest :
  match_here Logs.import_stmt_pattern b s = Some (cs, rest) ->
  exists body, s = txt "import " ++ body ++ txt ";" ++ rest
               /\ body <> [] /\ forallb (none_of ";") body = true.
Proof.
  unfold match_here, Logs.import_stmt_pattern. cbn [rmatch]. intros H.
  destruct (lit_go (txt "import ") s) as [s1|] eqn:E1; [|discriminate].
  apply lit_go_some in E1. subst s.
  destruct s1 as [|c s1]; [discriminate|].
  destruct (none_of ";" c) eqn:Hc; [|discriminate].
  apply star_go_inv in H. destruct H as (a & r1 & b' & -> & Ha & H).
  destruct (lit_go (txt ";") r1) as [s2|] eqn:E2; [|discriminate].
  apply lit_go_some in E2. subst r1. inversion H; subst.
  exists (c :: a). cbn [forallb]. rewrite Hc, Ha.
  split; [reflexivity | split; [discriminate | reflexivity]].
Qed.

Lemma re_search_spec r s pre cs rest :
  bol_free r = true ->
  re_search r s = Some (pre, cs, rest) ->
  exists m, s = pre ++ m ++ rest
            /\ (forall b, match_here r b (m ++ rest) = Some (cs, rest))
            /\ forall a t b, pre = a ++ t -> t <> [] ->
                             match_here r b (t ++ m ++ rest) = None.
Proof.
  intros Hr H. apply search_go_spec in H.
  destruct H as (skipped & m & b' & Es & Ep & Hm & Hno).
  cbn [rev app] in Ep. subst pre. exists m. split; [exact Es|]. split.
  - intros b. rewrite (match_here_flag r b b' _ Hr). exact Hm.
  - intros a t b Ha Ht. destruct (Hno a t Ha Ht) as [b'' Hb].
    rewrite (match_here_flag r b b'' _ Hr). exact Hb.
Qed.

(** ** A rewritten text differs from the original *)

Lemma departs_neq a b : departs a b -> a <> b.
Proof.
  intros (pre & ta & tb & -> & ->) H. apply app_inv_head in H. discriminate.
Qed.

Lemma departs_trans a b c : departs a b -> departs b c -> departs a c.
Proof.
  intros (p & ta & tb & -> & ->) (q & tb' & tc & E & ->).
  revert q E. induction p as [|x p IH]; intros q E.
  - destruct q as [|y q]; [discriminate|]. cbn [app] in E. inversion E; subst.
    exists [], ta, (q ++ "l"%char :: tc). auto.
  - destruct q as [|y q].
    + cbn [app] in E. inversion E; subst.
      exists [], (p ++ "c"%char :: ta), tc. auto.
    + cbn [app] in E. inversion E; subst.
      destruct (IH q H1) as (pre & ua & uc & E1 & E2).
      exists (y :: pre), ua, uc. cbn [app]. rewrite E1, E2. auto.
Qed.

Section Departs.
Variable r : regex.
Variable f : caps -> text.
Hypothesis match_c :
  forall b s o, match_here r b s = Some o -> exists s', s = "c"%char :: s'.
Hypothesis repl_l : forall cs, exists t, f cs = "l"%char :: t.

Lemma scan_departs :
  forall s b,
    (hits (scan_go r b s 0) = 0 /\ render f (scan_go r b s 0) = s)
    \/ (0 < hits (scan_go r b s 0) /\ departs s (render f (scan_go r b s 0))).
Proof.
  induction s as [|c s IH]; intros b; cbn [scan_go].
  - destruct (match_here r b []) as [[cs rest]|] eqn:E.
    + apply match_c in E. destruct E; discriminate.
    + left. auto.
  - destruct (match_here r b (c :: s)) as [[cs rest]|] eqn:E.
    + right. destruct (match_c _ _ _ E) as [s' Es]. inversion Es; subst.
      destruct (repl_l cs) as [t Et].
      destruct (length ("c"%char :: s') - length rest);
        [destruct (match_advancing r b ("c"%char :: s')) as [[cs2 rest2]|]|];
        cbn [hits render]; rewrite Et; (split; [lia|]);
        exists []; cbn [app]; eauto.
    + cbn [hits render]. destruct (IH false) as [[H0 Hr] | [Hp Hd]].
      * left. rewrite Hr. auto.
      * right. split; [exact Hp|].
        destruct Hd as (pre & ta & tb & Ea & Eb).
        exists (c :: pre), ta, tb. cbn [app]. rewrite <- Ea, <- Eb. auto.
Qed.

Lemma pass_departs s :
  (re_count r s = 0 /\ re_sub r f s = s)
  \/ (0 < re_count r s /\ departs s (re_sub r f s)).
Proof. apply scan_departs. Qed.

End Departs.

(* ------------------------------------------------------------------ *)
(** ** White space, lines *)

Lemma lstrip_spec s :
  exists sp, s = sp ++ lstrip s /\ forallb is_space sp = true
             /\ stops is_space (lstrip s).
Proof.
  induction s as [|c s (sp & E & Hsp & Hst)].
  - exists []. cbn. auto.
  - cbn [lstrip]. destruct (is_space c) eqn:Hc.
    + exists (c :: sp). cbn [app forallb]. rewrite Hc, Hsp. cbn.
      split; [congruence | auto].
    + exists []. cbn. auto.
Qed.

Lemma strip_spec s :
  exists sp1 sp2,
    s = sp1 ++ strip s ++ sp2
    /\ forallb is_space sp1 = true /\ forallb is_space sp2 = true
    /\ trimmed (strip s).
Proof.
  destruct (lstrip_spec s) as (sp1 & E1 & H1 & St1).
  destruct (lstrip_spec (rev (lstrip s))) as (sp2 & E2 & H2 & St2).
  unfold strip, rstrip.
  assert (E3 : lstrip s = rev (lstrip (rev (lstrip s))) ++ rev sp2).
  { rewrite <- rev_app_distr, <- E2, rev_involutive. reflexivity. }
  exists sp1, (rev sp2). repeat split.
  - rewrite <- E3. exact E1.
  - exact H1.
  - rewrite forallb_forall in *. intros x Hx. apply H2, in_rev, Hx.
  - destruct (rev (lstrip (rev (lstrip s)))) as [|x t] eqn:Et; [exact I|].
    rewrite E3 in St1. cbn in St1. exact St1.
  - rewrite rev_involutive. exact St2.
Qed.

Lemma strip_incl s x : In x (strip s) -> In x s.
Proof.
  destruct (strip_spec s) as (sp1 & sp2 & E & _). intros H.
  rewrite E. apply in_or_app. right. apply in_or_app. left. exact H.
Qed.



Lemma split_lines_not_nil s : split_lines s <> [].
Proof.
  destruct s as [|c s]; cbn [split_lines]; [discriminate|].
  destruct (Ascii.eqb c LF); [discriminate|].
  destruct (split_lines s); discriminate.
Qed.

Lemma split_lines_app_lf l s :
  no_lf l -> split_lines (l ++ LF :: s) = l :: split_lines s.
Proof.
  unfold no_lf. induction l as [|c l IH]; intros H; cbn [app split_lines].
  - rewrite Ascii.eqb_refl. reflexivity.
  - destruct (Ascii.eqb c LF) eqn:E.
    + apply Ascii.eqb_eq in E. subst c. exfalso. apply H. left. reflexivity.
    + rewrite IH; [reflexivity|]. intros Hin. apply H. right. exact Hin.
Qed.

Lemma split_lines_one l : no_lf l -> split_lines l = [l].
Proof.
  unfold no_lf. induction l as [|c l IH]; intros H; cbn [split_lines];
    [reflexivity|].
  destruct (Ascii.eqb c LF) eqn:E.
  - apply Ascii.eqb_eq in E. subst c. exfalso. apply H. left. reflexivity.
  - rewrite IH; [reflexivity|]. intros Hin. apply H. right. exact Hin.
Qed.

Lemma split_lines_no_lf s : Forall no_lf (split_lines s).
Proof.
  induction s as [|c s IH]; cbn [split_lines].
  - constructor; [intros [] | constructor].
  - destruct (Ascii.eqb c LF) eqn:E.
    + constructor; [intros [] | exact IH].
    + destruct (split_lines s) as [|l ls].
      * constructor; [|constructor]. apply Ascii.eqb_neq in E.
        intros [H | []]. congruence.
      * inversion IH; subst. constructor; [|assumption].
        apply Ascii.eqb_neq in E. intros [H | H]; [congruence | auto].
Qed.

Lemma join_split s : join_lines (split_lines s) = s.
Proof.
  induction s as [|c s IH]; cbn [split_lines]; [reflexivity|].
  destruct (Ascii.eqb c LF) eqn:E.
  - apply Ascii.eqb_eq in E. subst c.
    pose proof (split_lines_not_nil s) as Hn.
    destruct (split_lines s) as [|l ls]; [congruence|].
    cbn [join_lines app] in *. rewrite IH. reflexivity.
  - destruct (split_lines s) as [|l ls]; cbn [join_lines] in *.
    + subst s. reflexivity.
    + destruct ls; cbn [app]; rewrite <- IH; reflexivity.
Qed.

Lemma split_join ls :
  ls <> [] -> Forall no_lf ls -> split_lines (join_lines ls) = ls.
Proof.
  induction ls as [|l ls IH]; intros Hn Hf; [congruence|].
  inversion Hf as [|? ? Hl Hls]; subst.
  destruct ls as [|l2 ls].
  - cbn [join_lines]. apply split_lines_one, Hl.
  - change (join_lines (l :: l2 :: ls)) with (l ++ LF :: join_lines (l2 :: ls)).
    rewrite split_lines_app_lf by exact Hl. rewrite IH; [reflexivity | discriminate | exact Hls].
Qed.

Lemma join_lines_app ls1 ls2 :
  ls1 <> [] -> ls2 <> [] ->
  join_lines (ls1 ++ ls2) = join_lines ls1 ++ LF :: join_lines ls2.
Proof.
  induction ls1 as [|l ls1 IH]; intros H1 H2; [congruence|].
  destruct ls1 as [|l' ls1].
  - destruct ls2; [congruence | reflexivity].
  - change (join_lines ((l :: l' :: ls1) ++ ls2))
      with (l ++ LF :: join_lines ((l' :: ls1) ++ ls2)).
    rewrite IH by (discriminate || exact H2).
    change (join_lines (l :: l' :: ls1)) with (l ++ LF :: join_lines (l' :: ls1)).
    rewrite <- app_assoc. reflexivity.
Qed.

Lemma list_insert_after {A} (before : list A) (l x : A) (after : list A) :
  list_insert (length before + 1) x (before ++ l :: after)
  = before ++ l :: x :: after.
Proof.
  induction before as [|y before IH]; [reflexivity|].
  cbn [length Nat.add app list_insert]. rewrite IH. reflexivity.
Qed.

(* ------------------------------------------------------------------ *)
(** ** Facts about refactor-logger.py *)

Module Logger_facts.
Import Logger Logger_spec.

Lemma console_fails_level (level : string) (r : regex) (b : bool) (t : text) :
level = "log"%string \/ level = "warn"%string \/ level = "error"%string ->
match_here console_pattern b t = None ->
match_here (Seq (Lit "console.") (Seq (Lit level) r)) b t = None.
Proof.
intros Hl. unfold match_here, console_pattern. cbn [rmatch].
destruct (lit_go (txt "console.") t) as [t'|]; [|reflexivity].
destruct (lit_go (txt "log") t') eqn:E1; [discriminate|].
destruct (lit_go (txt "warn") t') eqn:E2; [discriminate|].
destruct (lit_go (txt "error") t') eqn:E3; [discriminate|].
intros _. destruct Hl as [-> | [-> | ->]];
  [rewrite E1 | rewrite E2 | rewrite E3]; reflexivity.
Qed.

Lemma no_console_no_rewrite (c : text) :
count_console c = 0 -> no_rewrite_match c = true.
Proof.
intros H. unfold no_rewrite_match, rewrite_patterns.
cbn [forallb]. 
repeat rewrite andb_true_iff; repeat split; try reflexivity; apply Nat.eqb_eq;
(apply (@scan_no_hit_mono console_pattern); [|exact H]);
intros b t; apply console_fails_level; auto.
Qed.

Lemma no_rewrite_calls (c : text) :
no_rewrite_match c = true -> refactor_calls c = c.
Proof.
unfold no_rewrite_match, rewrite_patterns. cbn [forallb].
rewrite !andb_true_iff, !Nat.eqb_eq.
intros (H1 & H2 & H3 & H4 & H5 & H6 & H7 & H8 & _).
unfold refactor_calls, refactor_console_log, refactor_console_warn,
  refactor_console_error.
rewrite (re_sub_no_hit _ _ _ H1), (re_sub_no_hit _ _ _ H2), (re_sub_no_hit _ _ _ H3),
  (re_sub_no_hit _ _ _ H4), (re_sub_no_hit _ _ _ H5), (re_sub_no_hit _ _ _ H6),
  (re_sub_no_hit _ _ _ H7), (re_sub_no_hit _ _ _ H8).
reflexivity.
Qed.

Lemma logger_no_console_text (c : text) :
Logger.count_console c = 0 -> Logger.refactor_text c = (c, 0%Z).
Proof.
intros H. unfold Logger.refactor_text. rewrite H. reflexivity.
Qed.

Lemma with_var_match level c post b :
var_call_ok c = true ->
match_here (with_var_pattern level) b (var_call_text level c ++ post)
= Some ([(2, vc_var c); (1, vc_msg c)], post).
Proof.
destruct c as [ws1 q1 msg q2 ws2 ws3 v ws4].
unfold var_call_ok, var_call_text. cbn [vc_lead vc_open vc_msg vc_close
  vc_gap1 vc_gap2 vc_var vc_trail].
rewrite !andb_true_iff.
intros [[[[[[[[[H1 H2] H3] H4] H5] H6] H7] H8] H9] H10].
unfold match_here, with_var_pattern.
repeat (rewrite <- app_assoc || rewrite <- app_comm_cons).
seq_step rmatch_lit.
seq_step rmatch_lit.
seq_step rmatch_lit.
seq_step rmatch_star; [exact H1 | cbn; apply quote_not_space, H2 |].
seq_step rmatch_cls; [exact H2|].
seq_step rmatch_grp_plus;
  [apply nonempty_ne, H3 | exact H4
  | cbn; unfold not_quote; rewrite H5; reflexivity |].
seq_step rmatch_cls; [exact H5|].
seq_step rmatch_star; [exact H6 | reflexivity |].
seq_step rmatch_lit.
seq_step rmatch_star; [exact H7 | |].
{ destruct v as [|x v]; [discriminate|]. cbn [forallb] in H9.
  apply andb_true_iff in H9. cbn. apply word_not_space, H9. }
seq_step rmatch_grp_plus; [apply nonempty_ne, H8 | exact H9 | |].
{ apply stops_app_space; [apply space_not_word | exact H10 | reflexivity]. }
seq_step rmatch_star; [exact H10 | reflexivity |].
apply rmatch_lit. intros _. reflexivity.
Qed.


Lemma with_var_pass level c :
var_call_ok c = true ->
re_sub (with_var_pattern level) replace_with_var (var_call_text level c)
= txt "logError(" ++ vc_var c ++ txt ", " ++ DQ :: clean_msg (vc_msg c)
    ++ DQ :: txt ", { component: " ++ DQ :: txt "refactored"
    ++ DQ :: txt " })".
Proof.
intros Hc.
rewrite <- (app_nil_r (var_call_text level c)).
rewrite (re_sub_hit (with_var_pattern level) replace_with_var eq_refl
           (var_call_text level c) []
           ((2, vc_var c) :: (1, vc_msg c) :: nil)).
- rewrite re_sub_nil by reflexivity. rewrite app_nil_r. reflexivity.
- unfold var_call_text. discriminate.
- apply with_var_match. exact Hc.
Qed.

Lemma with_var_count level c :
var_call_ok c = true ->
re_count (with_var_pattern level) (var_call_text level c) = 1.
Proof.
intros Hc. unfold re_count.
rewrite <- (app_nil_r (var_call_text level c)).
rewrite (re_scan_hit (with_var_pattern level) eq_refl
           (var_call_text level c) []
           ((2, vc_var c) :: (1, vc_msg c) :: nil)).
- reflexivity.
- unfold var_call_text. discriminate.
- apply with_var_match. exact Hc.
Qed.

Lemma interp_skip a :
forall Y, contains (txt "${") a = false -> stops (Ascii.eqb "{") Y ->
          re_sub interp_pattern drop (a ++ Y)
          = a ++ re_sub interp_pattern drop Y.
Proof.
induction a as [|x a IH]; intros Y Ha HY; [reflexivity|].
cbn [app]. rewrite re_sub_keep; [| reflexivity |].
- f_equal. apply IH; [|exact HY].
  cbn [contains] in Ha. apply orb_false_iff in Ha. apply Ha.
- apply lit_seq_fails.
  cbn [contains] in Ha. apply orb_false_iff in Ha. destruct Ha as [Ha _].
  destruct a as [|y a]; [|exact Ha].
  cbn. destruct Y as [|c Y]; [apply andb_false_r|].
  cbn in HY. rewrite HY. apply andb_false_r.
Qed.

Lemma interp_marker e rest :
nonempty e = true -> forallb (none_of "}") e = true ->
re_sub interp_pattern drop (marker e ++ rest)
= re_sub interp_pattern drop rest.
Proof.
intros He Hb.
rewrite (re_sub_hit interp_pattern drop eq_refl (marker e) rest []);
  [reflexivity | unfold marker; discriminate |].
unfold match_here, interp_pattern, marker.
repeat (rewrite <- app_assoc || rewrite <- app_comm_cons).
seq_step rmatch_lit.
seq_step rmatch_plus; [apply nonempty_ne, He | exact Hb | reflexivity |].
apply rmatch_lit. intros _. reflexivity.
Qed.

Lemma remove_markers parts tail :
markers_ok parts tail = true ->
re_sub interp_pattern drop (with_markers parts tail)
= without_markers parts tail.
Proof.
unfold markers_ok. rewrite andb_true_iff, negb_true_iff. intros [Hp Ht].
induction parts as [|[a e] ps IH]; cbn [with_markers without_markers].
- apply re_sub_no_hit. apply re_count_lit_absent. exact Ht.
- cbn [forallb fst snd] in Hp. rewrite !andb_true_iff, negb_true_iff in Hp.
  destruct Hp as [[[Ha He] Hb] Hps].
  rewrite interp_skip; [| exact Ha | reflexivity].
  rewrite interp_marker by assumption. rewrite (IH Hps). reflexivity.
Qed.

Lemma template_match level c post b :
template_call_ok c = true ->
match_here (template_pattern level) b (template_call_text level c ++ post)
= Some ([(1, tc_msg c)], post).
Proof.
destruct c as [ws1 msg ws2].
unfold template_call_ok, template_call_text. cbn [tc_lead tc_msg tc_trail].
rewrite !andb_true_iff. intros [[[H1 H2] H3] H4].
unfold match_here, template_pattern.
repeat (rewrite <- app_assoc || rewrite <- app_comm_cons).
seq_step rmatch_lit.
seq_step rmatch_lit.
seq_step rmatch_lit.
seq_step rmatch_star; [exact H1 | reflexivity |].
seq_step rmatch_lit.
seq_step rmatch_grp_plus; [apply nonempty_ne, H2 | exact H3 | reflexivity |].
seq_step rmatch_lit.
seq_step rmatch_star; [exact H4 | reflexivity |].
apply rmatch_lit. intros _. reflexivity.
Qed.

Lemma template_pass level target c :
template_call_ok c = true ->
re_sub (template_pattern level) (replace_template target)
  (template_call_text level c)
= replace_template target [(1, tc_msg c)].
Proof.
intros Hc.
rewrite <- (app_nil_r (template_call_text level c)).
rewrite (re_sub_hit (template_pattern level) (replace_template target) eq_refl
           (template_call_text level c) [] [(1, tc_msg c)]).
- rewrite re_sub_nil by reflexivity. apply app_nil_r.
- unfold template_call_text. discriminate.
- apply template_match. exact Hc.
Qed.

Lemma template_pass_markers level target ws1 ws2 a e ps tail :
let msg := with_markers ((a, e) :: ps) tail in
template_call_ok (mkTemplateCall ws1 msg ws2) = true ->
markers_ok ((a, e) :: ps) tail = true ->
re_sub (template_pattern level) (replace_template target)
  (template_call_text level (mkTemplateCall ws1 msg ws2))
= emit_msg target (strip (without_markers ((a, e) :: ps) tail)).
Proof.
intros msg Hc Hm. rewrite template_pass by exact Hc.
unfold replace_template, group_or_empty. cbn [group Nat.eqb tc_msg].
assert (Hin : contains (txt "${") msg = true).
{ unfold msg. cbn [with_markers]. unfold marker.
  rewrite <- app_assoc. apply contains_intro. }
rewrite Hin. unfold strip_interp.
change (fun _ : caps => []) with drop.
unfold msg. rewrite remove_markers by exact Hm. reflexivity.
Qed.

Lemma last_import_from_spec :
forall lines i acc,
  match last_import_from i lines acc with
  | None => acc = None /\ Forall not_import lines
  | Some j =>
      (acc = Some j /\ Forall not_import lines)
      \/ exists before l after,
          lines = before ++ l :: after /\ j = i + length before
          /\ is_import_line l = true /\ Forall not_import after
  end.
Proof.
induction lines as [|l ls IH]; intros i acc; cbn [last_import_from].
- destruct acc; [left|]; split; auto.
- specialize (IH (S i) (if is_import_line l then Some i else acc)).
  destruct (last_import_from (S i) ls (if is_import_line l then Some i else acc))
    as [j|].
  + destruct IH as [[Hacc Hf] | (before & l' & after & E & Hj & Hl & Hf)].
    * destruct (is_import_line l) eqn:El.
      -- right. exists [], l, ls. inversion Hacc; subst.
         cbn [length app]. rewrite Nat.add_0_r. auto.
      -- left. split; [exact Hacc | constructor; assumption].
    * right. exists (l :: before), l', after. subst ls.
      cbn [length app]. repeat split; auto. lia.
  + destruct IH as [Hacc Hf]. destruct (is_import_line l) eqn:El;
      [discriminate|]. split; [exact Hacc | constructor; assumption].
Qed.

Lemma import_line_no_lf : no_lf IMPORT_LINE.
Proof. unfold no_lf. vm_compute. intuition discriminate. Qed.

(** Where [add_logger_import] puts the line. *)
Lemma add_logger_import_place (c : text) :
has_logger_import c = false ->
(Forall not_import (split_lines c)
 /\ add_logger_import c = IMPORT_LINE ++ LF :: LF :: c)
\/ exists before l after,
    split_lines c = before ++ l :: after
    /\ is_import_line l = true /\ Forall not_import after
    /\ add_logger_import c = join_lines (before ++ l :: IMPORT_LINE :: after).
Proof.
intros H. unfold add_logger_import. rewrite H. unfold last_import_idx.
pose proof (last_import_from_spec (split_lines c) 0 None) as S.
destruct (last_import_from 0 (split_lines c) None) as [j|].
- destruct S as [[Hacc _] | (before & l & after & E & Hj & Hl & Hf)];
    [discriminate|].
  right. exists before, l, after. repeat split; auto.
  rewrite E. cbn [Nat.add] in Hj. subst j. rewrite list_insert_after.
  reflexivity.
- left. destruct S as [_ Hf]. split; [exact Hf | reflexivity].
Qed.

Lemma add_logger_import_lines before l after :
Forall no_lf (before ++ l :: after) ->
split_lines (join_lines (before ++ l :: IMPORT_LINE :: after))
= before ++ l :: IMPORT_LINE :: after.
Proof.
intros Hf. apply split_join; [destruct before; discriminate|].
apply Forall_app in Hf. destruct Hf as [Hb Ha].
inversion Ha; subst. apply Forall_app. split; [exact Hb|].
repeat constructor; auto. apply import_line_no_lf.
Qed.

End Logger_facts.

(* ------------------------------------------------------------------ *)
(** ** Facts about refactor_logs.py *)

Module Logs_facts.
Import Logs_spec.

Lemma logs_no_rewrite_passes (c : text) :
Logs_spec.no_rewrite_match c = true -> Logs.passes c = (c, 0).
Proof.
unfold Logs_spec.no_rewrite_match, Logs_spec.rewrite_patterns. cbn [forallb].
rewrite !andb_true_iff, !Nat.eqb_eq.
intros (H1 & H2 & H3 & H4 & H5 & _).
unfold Logs.passes, Logs.pass.
rewrite (re_sub_no_hit _ _ _ H1), H1. cbn [Nat.add].
rewrite (re_sub_no_hit _ _ _ H2), H2. cbn [Nat.add].
rewrite (re_sub_no_hit _ _ _ H3), H3. cbn [Nat.add].
rewrite (re_sub_no_hit _ _ _ H4), H4. cbn [Nat.add].
rewrite (re_sub_no_hit _ _ _ H5), H5. reflexivity.
Qed.

Lemma logs_no_rewrite_text (c : text) :
Logs_spec.no_rewrite_match c = true -> Logs.refactor_text c = (0, c).
Proof.
intros H. unfold Logs.refactor_text. rewrite (logs_no_rewrite_passes _ H).
reflexivity.
Qed.


(** Where [Logs.add_import] puts the line: right after the first
  [import ...;] statement. *)
Lemma add_import_place n c :
Logs.add_import n c <> c ->
0 < n /\ contains (txt "log, logError") c = false
/\ exists pre body post,
    c = pre ++ txt "import " ++ body ++ txt ";" ++ post
    /\ body <> [] /\ forallb (none_of ";") body = true
    /\ (forall a t b, pre = a ++ t -> t <> [] ->
          match_here Logs.import_stmt_pattern b
            (t ++ txt "import " ++ body ++ txt ";" ++ post) = None)
    /\ Logs.add_import n c
       = pre ++ txt "import " ++ body ++ txt ";"
             ++ LF :: Logs.IMPORT_LINE ++ post.
Proof.
unfold Logs.add_import. intros H.
destruct (0 <? n) eqn:Hn; [|cbn in H; congruence].
destruct (contains (txt "log, logError") c) eqn:Hc; [cbn in H; congruence|].
cbn [negb andb] in *.
destruct (negb (contains Logs.IMPORT_LINE c)); [|congruence].
destruct (re_search Logs.import_stmt_pattern c) as [[[pre cs] rest]|] eqn:E;
  [|congruence].
apply Nat.ltb_lt in Hn. split; [exact Hn|]. split; [reflexivity|].
apply re_search_spec in E; [|reflexivity].
destruct E as (m & Ec & Hm & Hno).
destruct (import_stmt_match _ _ _ _ (Hm true)) as (body & Eb & Hb1 & Hb2).
assert (Em : m = txt "import " ++ body ++ txt ";").
{ apply (app_inv_tail rest). rewrite Eb, <- !app_assoc. reflexivity. }
exists pre, body, rest. subst m.
split; [rewrite Ec, <- !app_assoc; reflexivity|].
split; [exact Hb1|]. split; [exact Hb2|]. split.
- intros a t b Ha Ht. specialize (Hno a t b Ha Ht).
  rewrite <- !app_assoc in Hno. exact Hno.
- subst c.
  replace (pre ++ (txt "import " ++ body ++ txt ";") ++ rest)
    with ((pre ++ txt "import " ++ body ++ txt ";") ++ rest)
    by (rewrite <- !app_assoc; reflexivity).
  rewrite firstn_matched, skipn_matched. rewrite <- !app_assoc. reflexivity.
Qed.

Lemma inserted_check :
forallb (fun k => implb (Ascii.eqb (nth k INSERTED " "%char) "c")
                    (contains NEEDLE (firstn k INSERTED)))
        (seq 0 (length INSERTED)) = true.
Proof. vm_compute. reflexivity. Qed.

Lemma inserted_prefix X Z :
INSERTED = X ++ "c"%char :: Z -> contains NEEDLE X = true.
Proof.
intros E. pose proof inserted_check as H. rewrite forallb_forall in H.
assert (Hlen : length X < length INSERTED).
{ rewrite E, length_app. cbn [length]. lia. }
specialize (H (length X)). rewrite in_seq in H.
assert (Hn : nth (length X) INSERTED " "%char = "c"%char).
{ rewrite E, app_nth2, Nat.sub_diag by lia. reflexivity. }
assert (Hf : firstn (length X) INSERTED = X).
{ rewrite E, firstn_app, Nat.sub_diag, firstn_all. cbn [firstn]. apply app_nil_r. }
rewrite Hn, Hf in H. apply H. lia.
Qed.

Lemma app_eq_split {A} (x1 y1 x2 y2 : list A) :
x1 ++ y1 = x2 ++ y2 ->
exists l, (x1 = x2 ++ l /\ y2 = l ++ y1) \/ (x2 = x1 ++ l /\ y1 = l ++ y2).
Proof.
revert x2. induction x1 as [|a x1 IH]; intros x2 E.
- exists x2. right. auto.
- destruct x2 as [|b x2].
  + exists (a :: x1). left. auto.
  + cbn [app] in E. inversion E; subst.
    destruct (IH x2 H1) as [l [[-> ->] | [-> ->]]]; exists l; [left | right]; auto.
Qed.

Lemma inserted_shift X Y Z :
INSERTED ++ X ++ Y = X ++ "c"%char :: Z -> contains NEEDLE X = true.
Proof.
intros E. apply app_eq_split in E. destruct E as [l [[E1 E2] | [E1 E2]]].
- (* INSERTED = X ++ l *)
  destruct l as [|x l].
  + rewrite app_nil_r in E1. subst X. vm_compute. reflexivity.
  + cbn [app] in E2. inversion E2; subst x.
    apply (inserted_prefix X l E1).
- (* X = INSERTED ++ l *)
  rewrite E1. apply contains_iff.
  assert (Hc : contains NEEDLE INSERTED = true) by (vm_compute; reflexivity).
  apply contains_iff in Hc. destruct Hc as (a & b & ->).
  exists a, (b ++ l). rewrite <- !app_assoc. reflexivity.
Qed.

Lemma contains_app_false w a b :
contains w (a ++ b) = false -> contains w a = false /\ contains w b = false.
Proof.
intros H. split.
- destruct (contains w a) eqn:E; [|reflexivity].
  apply contains_iff in E. destruct E as (x & y & ->).
  rewrite <- !app_assoc in H. rewrite contains_intro in H. discriminate.
- destruct (contains w b) eqn:E; [|reflexivity].
  apply contains_iff in E. destruct E as (x & y & ->).
  rewrite app_assoc in H. rewrite contains_intro in H. discriminate.
Qed.

(** Splicing the import line into a rewritten text never gives the
  original back. *)
Lemma insert_keeps_departure a b e :
departs a b -> contains NEEDLE b = false ->
firstn e b ++ INSERTED ++ skipn e b <> a.
Proof.
intros (p & ta & tb & -> & ->) Hc E.
destruct (Nat.le_gt_cases e (length p)) as [Hle | Hgt].
- rewrite firstn_app, skipn_app in E.
  replace (e - length p) with 0 in E by lia. cbn [firstn skipn] in E.
  rewrite app_nil_r in E.
  rewrite <- (firstn_skipn e p) in E at 3.
  rewrite <- !app_assoc in E. apply app_inv_head in E.
  apply inserted_shift in E.
  rewrite <- (firstn_skipn e p) in Hc. rewrite <- app_assoc in Hc.
  apply contains_app_false in Hc. destruct Hc as [_ Hc].
  apply contains_app_false in Hc. destruct Hc as [Hc _]. congruence.
- rewrite firstn_app in E.
  rewrite firstn_all2 in E by lia.
  destruct (e - length p) as [|k] eqn:Ek; [lia|].
  cbn [firstn] in E. rewrite <- !app_assoc in E. apply app_inv_head in E.
  discriminate.
Qed.

(** Every match of the five patterns starts with the [c] of [console],
  every replacement with the [l] of [log]. *)
Lemma console_match_c r b s o :
match_here (Seq (Lit "console.") r) b s = Some o ->
exists s', s = "c"%char :: s'.
Proof.
unfold match_here. cbn [rmatch]. intros H.
destruct (lit_go (txt "console.") s) as [s1|] eqn:E; [|discriminate].
apply lit_go_some in E. subst s. eexists. reflexivity.
Qed.

Lemma pass_keeps_inv r f orig st :
(forall cs, exists t, f cs = "l"%char :: t) ->
pass_inv orig st -> pass_inv orig (Logs.pass (Seq (Lit "console.") r) f st).
Proof.
intros Hf Hi. destruct st as [c n]. unfold Logs.pass, pass_inv in *.
cbn [fst snd] in *.
destruct (pass_departs (Seq (Lit "console.") r) f
            (console_match_c r) Hf c) as [[H0 Hs] | [Hp Hd]].
- rewrite H0, Hs, Nat.add_0_r. exact Hi.
- right. split; [lia|]. destruct Hi as [[_ ->] | [_ Hd0]]; [exact Hd|].
  eapply departs_trans; eauto.
Qed.

Lemma passes_inv c : pass_inv c (Logs.passes c).
Proof.
unfold Logs.passes.
repeat (apply pass_keeps_inv;
        [intros cs; eexists; reflexivity|]).
left. auto.
Qed.

(** If [refactor_text] reports a replacement, its text differs from the
  text it was given. *)
Lemma logs_rewritten_differs c :
0 < fst (Logs.refactor_text c) -> snd (Logs.refactor_text c) <> c.
Proof.
unfold Logs.refactor_text. pose proof (passes_inv c) as Hi.
destruct (Logs.passes c) as [content count]. cbn [fst snd] in *.
intros Hn. destruct Hi as [[H0 _] | [_ Hd]]; cbn [fst snd] in *; [lia|].
apply Nat.ltb_lt in Hn. rewrite Hn.
unfold Logs.add_import. rewrite Hn. cbn [andb].
destruct (contains (txt "log, logError") content) eqn:Hc; cbn [negb].
- apply not_eq_sym, departs_neq, Hd.
- destruct (negb (contains Logs.IMPORT_LINE content));
    [|apply not_eq_sym, departs_neq, Hd].
  destruct (re_search Logs.import_stmt_pattern content) as [[[pre cs] rest]|];
    [|apply not_eq_sym, departs_neq, Hd].
  apply (insert_keeps_departure c content _ Hd Hc).
Qed.

End Logs_facts.

(* ------------------------------------------------------------------ *)
(** ** Further facts used by the properties *)

Lemma logger_output_with_import (c : text) :
  Logger.has_logger_import c = true ->
  Logger_spec.output c = Logger_spec.refactor_calls c.
Proof.
  intros H. unfold Logger_spec.output, Logger.refactor_text.
  destruct (Logger.count_console c =? 0) eqn:E; cbn [fst].
  - apply Nat.eqb_eq in E. symmetry.
    apply Logger_facts.no_rewrite_calls, Logger_facts.no_console_no_rewrite, E.
  - unfold Logger.add_logger_import. rewrite H. reflexivity.
Qed.

Lemma logger_output_without_import (c : text) :
  Logger.count_console c <> 0 ->
  Logger_spec.output c
  = Logger_spec.refactor_calls (Logger.add_logger_import c).
Proof.
  intros H. unfold Logger_spec.output, Logger.refactor_text.
  apply Nat.eqb_neq in H. rewrite H. reflexivity.
Qed.

Lemma logger_output_no_console (c : text) :
  Logger.count_console c = 0 -> Logger_spec.output c = c.
Proof.
  intros H. unfold Logger_spec.output.
  rewrite (Logger_facts.logger_no_console_text c H). reflexivity.
Qed.

Lemma logs_output_no_match (c : text) :
  Logs_spec.no_rewrite_match c = true -> Logs_spec.output c = c.
Proof.
  intros H. unfold Logs_spec.output.
  rewrite (Logs_facts.logs_no_rewrite_text c H). reflexivity.
Qed.

Lemma needle_in_import_line :
  contains Logs_spec.NEEDLE Logs.IMPORT_LINE = true.
Proof. vm_compute. reflexivity. Qed.

Lemma needle_in_import_line_dq :
  contains Logs_spec.NEEDLE IMPORT_LINE_DQ = true.
Proof. vm_compute. reflexivity. Qed.

Lemma contains_false_trans (v w s : text) :
  contains v w = true -> contains v s = false -> contains w s = false.
Proof.
  intros Hvw Hvs. destruct (contains w s) eqn:E; [|reflexivity].
  rewrite (contains_trans v w s Hvw E) in Hvs. discriminate.
Qed.

Lemma logs_add_import_guard (n : nat) (c : text) :
  Logs.add_import n c <> c ->
  0 < n /\ contains Logs.IMPORT_LINE c = false
  /\ contains (txt "log, logError") c = false.
Proof.
  intros H. destruct (Logs_facts.add_import_place n c H) as (Hn & Hc & _).
  repeat split; auto.
  apply (contains_false_trans Logs_spec.NEEDLE); [apply needle_in_import_line | exact Hc].
Qed.

(** Claim C1, refuted as stated: [console.log(x)] is matched by no
    rewrite pattern, and refactor-logger.py still puts the import line
    (and an empty line) in front of it. *)
Lemma import_added_without_rewrite :
  Logger_spec.no_rewrite_match Samples.unmatched_call = true
  /\ Logger_spec.refactor_calls Samples.unmatched_call = Samples.unmatched_call
  /\ Logger_spec.output Samples.unmatched_call
     = Logger.IMPORT_LINE ++ LF :: LF :: Samples.unmatched_call.
Proof. repeat split; vm_compute; reflexivity. Qed.

(** Claim C1, as amended.  refactor-logger.py inserts the import line
    only into a text that has an occurrence of console.log, console.warn
    or console.error and no logger import; whether a call is then
    rewritten plays no part.  refactor_logs.py inserts it only after at
    least one replacement and when the rewritten text holds neither
    [log, logError] nor the import line; a text in which none of its
    patterns matches comes back as it was. *)
Theorem import_insertion_guard (c : text) :
  (Logger.count_console c = 0 -> Logger_spec.output c = c)
  /\ (Logger.has_logger_import c = true ->
      Logger_spec.output c = Logger_spec.refactor_calls c)
  /\ (Logger.count_console c <> 0 -> Logger.has_logger_import c = false ->
      Logger_spec.output c
      = Logger_spec.refactor_calls (Logger.add_logger_import c))
  /\ (Logs_spec.no_rewrite_match c = true -> Logs_spec.output c = c)
  /\ (forall n, Logs.add_import n c <> c ->
                0 < n /\ contains Logs.IMPORT_LINE c = false
                /\ contains (txt "log, logError") c = false).
Proof.
  split; [|split; [|split; [|split]]].
  - apply logger_output_no_console.
  - apply logger_output_with_import.
  - intros H _. apply logger_output_without_import, H.
  - apply logs_output_no_match.
  - intros n. apply logs_add_import_guard.
Qed.

Lemma import_insertion_guard_witness :
  Logger_spec.output Samples.plain_js = Samples.plain_js
  /\ Logger_spec.output (Logger.IMPORT_LINE ++ LF :: Samples.failed_call)
     = Logger_spec.refactor_calls (Logger.IMPORT_LINE ++ LF :: Samples.failed_call)
  /\ Logger_spec.output Samples.failed_call
     = Logger_spec.refactor_calls (Logger.add_logger_import Samples.failed_call)
  /\ Logs_spec.output Samples.unmatched_call = Samples.unmatched_call
  /\ (0 < 1 /\ contains Logs.IMPORT_LINE Samples.one_import = false
      /\ contains (txt "log, logError") Samples.one_import = false).
Proof.
  split; [|split; [|split; [|split]]].
  - apply (proj1 (import_insertion_guard Samples.plain_js)). reflexivity.
  - apply (proj1 (proj2 (import_insertion_guard _))). vm_compute. reflexivity.
  - apply (proj1 (proj2 (proj2 (import_insertion_guard Samples.failed_call)))).
    + vm_compute. discriminate.
    + vm_compute. reflexivity.
  - apply (proj1 (proj2 (proj2 (proj2 (import_insertion_guard _))))).
    vm_compute. reflexivity.
  - apply (proj2 (proj2 (proj2 (proj2
             (import_insertion_guard Samples.one_import)))) 1).
    vm_compute. discriminate.
Defined.


(* ------------------------------------------------------------------ *)
(** ** Placement of the import line, messages, files *)

(** Claim C4, refuted as stated: with two import statements,
    refactor_logs.py puts the import line after the first one, before
    the last. *)
Lemma import_after_first_statement :
  Logs_spec.output Samples.two_imports = Samples.two_imports_rewritten.
Proof. vm_compute. reflexivity. Qed.

(** Claim C4, as amended.  When [add_logger_import] of
    refactor-logger.py inserts the line, it becomes the line right after
    the last line that matches the import pattern, or, when no line
    matches, the first line of the file, followed by an empty line.
    When the import step of refactor_logs.py inserts the line, it starts
    a new line right after the first [import ...;] statement. *)
Theorem import_line_placement (c : text) :
  (Logger.has_logger_import c = false ->
   (Forall Logger_spec.not_import (split_lines c)
    /\ Logger.add_logger_import c = Logger.IMPORT_LINE ++ LF :: LF :: c)
   \/ exists before l after,
       split_lines c = before ++ l :: after
       /\ Logger.is_import_line l = true
       /\ Forall Logger_spec.not_import after
       /\ split_lines (Logger.add_logger_import c)
          = before ++ l :: Logger.IMPORT_LINE :: after)
  /\ (forall n, Logs.add_import n c <> c ->
        exists pre body post,
          c = pre ++ txt "import " ++ body ++ txt ";" ++ post
          /\ body <> [] /\ forallb (none_of ";") body = true
          /\ (forall a t b, pre = a ++ t -> t <> [] ->
                match_here Logs.import_stmt_pattern b
                  (t ++ txt "import " ++ body ++ txt ";" ++ post) = None)
          /\ Logs.add_import n c
             = pre ++ txt "import " ++ body ++ txt ";"
                   ++ LF :: Logs.IMPORT_LINE ++ post).
Proof.
  split.
  - intros H.
    destruct (Logger_facts.add_logger_import_place c H)
      as [Htop | (before & l & after & E & Hl & Hf & Ea)]; [left; exact Htop|].
    right. exists before, l, after. repeat split; auto.
    rewrite Ea. apply Logger_facts.add_logger_import_lines.
    rewrite <- E. apply split_lines_no_lf.
  - intros n H. apply (Logs_facts.add_import_place n c H).
Qed.

Lemma import_line_placement_witness :
  ((Forall Logger_spec.not_import (split_lines Samples.two_imports)
    /\ Logger.add_logger_import Samples.two_imports
       = Logger.IMPORT_LINE ++ LF :: LF :: Samples.two_imports)
   \/ exists before l after,
       split_lines Samples.two_imports = before ++ l :: after
       /\ Logger.is_import_line l = true
       /\ Forall Logger_spec.not_import after
       /\ split_lines (Logger.add_logger_import Samples.two_imports)
          = before ++ l :: Logger.IMPORT_LINE :: after)
  /\ exists pre body post,
      Samples.one_import = pre ++ txt "import " ++ body ++ txt ";" ++ post
      /\ body <> [] /\ forallb (none_of ";") body = true
      /\ (forall a t b, pre = a ++ t -> t <> [] ->
            match_here Logs.import_stmt_pattern b
              (t ++ txt "import " ++ body ++ txt ";" ++ post) = None)
      /\ Logs.add_import 1 Samples.one_import
         = pre ++ txt "import " ++ body ++ txt ";"
               ++ LF :: Logs.IMPORT_LINE ++ post.
Proof.
  split.
  - apply (proj1 (import_line_placement Samples.two_imports)).
    vm_compute. reflexivity.
  - apply (proj2 (import_line_placement Samples.one_import) 1).
    vm_compute. discriminate.
Defined.

Lemma join_lines_cons l ls :
  join_lines (l :: ls)
  = l ++ match ls with [] => [] | _ => LF :: join_lines ls end.
Proof. destruct ls; [symmetry; apply app_nil_r | reflexivity]. Qed.

(** [add_logger_import] changes nothing, or puts the line and an empty
    line in front, or starts one new line with it. *)
Lemma add_logger_import_splice (c : text) :
  Logger.add_logger_import c = c
  \/ Logger.add_logger_import c = Logger.IMPORT_LINE ++ LF :: LF :: c
  \/ spliced (LF :: Logger.IMPORT_LINE) c (Logger.add_logger_import c).
Proof.
  destruct (Logger.has_logger_import c) eqn:H.
  - left. unfold Logger.add_logger_import. rewrite H. reflexivity.
  - right.
    destruct (Logger_facts.add_logger_import_place c H)
      as [[_ Htop] | (before & l & after & E & _ & _ & Ea)]; [left; exact Htop|].
    right. rewrite Ea.
    exists (join_lines (before ++ [l])),
           (match after with [] => [] | _ => LF :: join_lines after end).
    split.
    + rewrite <- (join_split c), E.
      replace (before ++ l :: after) with ((before ++ [l]) ++ after)
        by (rewrite <- app_assoc; reflexivity).
      destruct after as [|l2 after]; [rewrite !app_nil_r; reflexivity|].
      apply join_lines_app; [destruct before|]; discriminate.
    + replace (before ++ l :: Logger.IMPORT_LINE :: after)
        with ((before ++ [l]) ++ Logger.IMPORT_LINE :: after)
        by (rewrite <- app_assoc; reflexivity).
      rewrite join_lines_app by (try discriminate; destruct before; discriminate).
      rewrite join_lines_cons. reflexivity.
Qed.

Lemma logs_add_import_splice (n : nat) (c : text) :
  Logs.add_import n c = c
  \/ spliced (LF :: Logs.IMPORT_LINE) c (Logs.add_import n c).
Proof.
  destruct (text_eqb (Logs.add_import n c) c) eqn:E.
  - left. apply text_eqb_eq, E.
  - right.
    assert (Hne : Logs.add_import n c <> c).
    { intros H. rewrite H, text_eqb_refl in E. discriminate. }
    destruct (Logs_facts.add_import_place n c Hne)
      as (_ & _ & pre & body & post & Ec & _ & _ & _ & Ea).
    exists (pre ++ txt "import " ++ body ++ txt ";"), post. split.
    + rewrite Ec, <- !app_assoc. reflexivity.
    + rewrite Ea, <- !app_assoc. reflexivity.
Qed.

Lemma logger_import_in_line :
  Logger.has_logger_import Logger.IMPORT_LINE = true
  /\ Logger.has_logger_import IMPORT_LINE_DQ = true.
Proof. split; vm_compute; reflexivity. Qed.

Lemma has_logger_import_contains (w c : text) :
  Logger.has_logger_import w = true -> contains w c = true ->
  Logger.has_logger_import c = true.
Proof.
  unfold Logger.has_logger_import. rewrite !orb_true_iff.
  intros [H | H] Hc; [left | right]; eapply contains_trans; eauto.
Qed.

Lemma import_present_cases (c : text) :
  contains Logger.IMPORT_LINE c = true \/ contains IMPORT_LINE_DQ c = true ->
  Logger.has_logger_import c = true
  /\ contains Logs_spec.NEEDLE c = true.
Proof.
  intros [H | H]; split.
  - exact (has_logger_import_contains _ _ (proj1 logger_import_in_line) H).
  - exact (contains_trans _ _ _ needle_in_import_line H).
  - exact (has_logger_import_contains _ _ (proj2 logger_import_in_line) H).
  - exact (contains_trans _ _ _ needle_in_import_line_dq H).
Qed.

(** Claim C8.  The import step of either script leaves the text alone
    or puts the import line in at one single place; and when the line is
    already there, with single or with double quotes, it leaves the text
    alone, so that refactor-logger.py only rewrites the calls. *)
Theorem import_inserted_at_most_once (c : text) :
  (Logger.add_logger_import c = c
   \/ Logger.add_logger_import c = Logger.IMPORT_LINE ++ LF :: LF :: c
   \/ spliced (LF :: Logger.IMPORT_LINE) c (Logger.add_logger_import c))
  /\ (forall n, Logs.add_import n c = c
                \/ spliced (LF :: Logs.IMPORT_LINE) c (Logs.add_import n c))
  /\ (contains Logger.IMPORT_LINE c = true \/ contains IMPORT_LINE_DQ c = true ->
      Logger.add_logger_import c = c
      /\ Logger_spec.output c = Logger_spec.refactor_calls c
      /\ forall n, Logs.add_import n c = c).
Proof.
  split; [apply add_logger_import_splice|].
  split; [intros n; apply logs_add_import_splice|].
  intros H. destruct (import_present_cases c H) as [Hi Hn]. repeat split.
  - unfold Logger.add_logger_import. rewrite Hi. reflexivity.
  - apply logger_output_with_import, Hi.
  - intros n. unfold Logs.add_import.
    change (txt "log, logError") with Logs_spec.NEEDLE. rewrite Hn.
    rewrite andb_false_r. reflexivity.
Qed.

Lemma import_inserted_at_most_once_witness :
  Logger.add_logger_import (IMPORT_LINE_DQ ++ LF :: Samples.failed_call)
  = IMPORT_LINE_DQ ++ LF :: Samples.failed_call
  /\ Logger_spec.output (IMPORT_LINE_DQ ++ LF :: Samples.failed_call)
     = Logger_spec.refactor_calls (IMPORT_LINE_DQ ++ LF :: Samples.failed_call)
  /\ forall n, Logs.add_import n (IMPORT_LINE_DQ ++ LF :: Samples.failed_call)
               = IMPORT_LINE_DQ ++ LF :: Samples.failed_call.
Proof.
  apply (proj2 (proj2 (import_inserted_at_most_once
                         (IMPORT_LINE_DQ ++ LF :: Samples.failed_call)))).
  right. vm_compute. reflexivity.
Defined.

(* ------------------------------------------------------------------ *)
(** ** Occurrences of the word console. *)

(** ** Where a word can occur *)

Lemma list_app_eq_split {A} (x1 y1 x2 y2 : list A) :
  x1 ++ y1 = x2 ++ y2 ->
  exists l, (x1 = x2 ++ l /\ y2 = l ++ y1) \/ (x2 = x1 ++ l /\ y1 = l ++ y2).
Proof.
  revert x2. induction x1 as [|a x1 IH]; intros x2 E.
  - exists x2. right. auto.
  - destruct x2 as [|b x2].
    + exists (a :: x1). left. auto.
    + cbn [app] in E. inversion E; subst.
      destruct (IH x2 H1) as [l [[-> ->] | [-> ->]]]; exists l; [left | right]; auto.
Qed.

(** A character that is not in the word cuts the search in two. *)
Lemma contains_separator (w a b : text) (d : ascii) :
  w <> [] -> ~ In d w ->
  contains w (a ++ d :: b) = contains w a || contains w b.
Proof.
  intros Hw Hd.
  destruct (contains w a) eqn:Ea; cbn [orb].
  { apply contains_iff in Ea. destruct Ea as (p & q & ->).
    apply contains_iff. exists p, (q ++ d :: b). rewrite <- !app_assoc. reflexivity. }
  destruct (contains w b) eqn:Eb.
  { apply contains_iff in Eb. destruct Eb as (p & q & ->).
    apply contains_iff. exists (a ++ d :: p), q.
    rewrite <- !app_assoc. reflexivity. }
  destruct (contains w (a ++ d :: b)) eqn:E; [|reflexivity].
  exfalso. apply contains_iff in E. destruct E as (p & q & E).
  apply list_app_eq_split in E. destruct E as [l [[E1 E2] | [E1 E2]]].
  - apply list_app_eq_split in E2. destruct E2 as [l2 [[E3 E4] | [E3 E4]]].
    + destruct l2 as [|x l2].
      * rewrite app_nil_r in E3. subst l.
        assert (contains w a = true).
        { apply contains_iff. exists p, []. rewrite app_nil_r. exact E1. }
        congruence.
      * cbn [app] in E4. inversion E4; subst x.
        apply Hd. rewrite E3. apply in_or_app. right. left. reflexivity.
    + assert (contains w a = true).
      { apply contains_iff. exists p, l2. rewrite E1, E3. reflexivity. }
      congruence.
  - destruct l as [|x l].
    + cbn [app] in E2. destruct w as [|y w]; [congruence|].
      cbn [app] in E2. inversion E2; subst y. apply Hd. left. reflexivity.
    + cbn [app] in E2. inversion E2; subst x.
      assert (contains w b = true).
      { apply contains_iff. exists l, q. exact H1. }
      congruence.
Qed.

(** A word with a character the text lacks is not in the text. *)
Lemma contains_missing_char (w s : text) (x : ascii) :
  In x w -> ~ In x s -> contains w s = false.
Proof.
  intros Hx Hs. destruct (contains w s) eqn:E; [|reflexivity].
  exfalso. apply contains_iff in E. destruct E as (p & q & ->).
  apply Hs. apply in_or_app. right. apply in_or_app. left. exact Hx.
Qed.

Lemma contains_app_false_l w a b :
  contains w (a ++ b) = false -> contains w a = false.
Proof.
  intros H. destruct (contains w a) eqn:E; [|reflexivity].
  apply contains_iff in E. destruct E as (x & y & ->).
  rewrite <- !app_assoc in H. rewrite contains_intro in H. discriminate.
Qed.

Lemma contains_app_false_r w a b :
  contains w (a ++ b) = false -> contains w b = false.
Proof.
  intros H. destruct (contains w b) eqn:E; [|reflexivity].
  apply contains_iff in E. destruct E as (x & y & ->).
  rewrite app_assoc in H. rewrite contains_intro in H. discriminate.
Qed.

Lemma contains_cons_false w c s :
  contains w (c :: s) = false -> contains w s = false.
Proof. apply (contains_app_false_r w [c] s). Qed.

Lemma starts_with_shorter (l s rest : text) :
  starts_with l (s ++ rest) = true -> length l <= length s ->
  starts_with l s = true.
Proof.
  revert s. induction l as [|x l IH]; intros s Hp Hll; [reflexivity|].
  destruct s as [|y s]; [cbn in Hll; lia|].
  cbn [app starts_with] in *. apply andb_true_iff in Hp. destruct Hp as [-> Hp].
  cbn [andb]. apply IH; [exact Hp | cbn in Hll; lia].
Qed.

(** ** The word [console.] *)

Lemma console_border_check :
  forallb (fun j => negb (starts_with (skipn j CONSOLE) CONSOLE))
          (seq 1 7) = true.
Proof. vm_compute. reflexivity. Qed.

(** In front of an occurrence of [console.], a text without the word
    offers no further start for it. *)
Lemma console_not_before (t' rest : text) :
  t' <> [] -> contains CONSOLE t' = false ->
  starts_with CONSOLE (t' ++ CONSOLE ++ rest) = false.
Proof.
  intros Hne Hc. destruct (starts_with CONSOLE (t' ++ CONSOLE ++ rest)) eqn:E;
    [|reflexivity].
  exfalso. apply starts_with_iff in E. destruct E as [u E].
  apply list_app_eq_split in E. destruct E as [l [[E1 E2] | [E1 E2]]].
  - (* t' = CONSOLE ++ l *)
    subst t'. pose proof (contains_intro CONSOLE [] l) as Hi.
    cbn [app] in Hi. congruence.
  - (* CONSOLE = t' ++ l, CONSOLE ++ rest = l ++ u *)
    assert (Hlen : length t' + length l = 8).
    { rewrite <- length_app, <- E1. reflexivity. }
    assert (Hl : l = skipn (length t') CONSOLE).
    { assert (Hk : skipn (length t') (t' ++ l) = l)
        by (rewrite skipn_app, Nat.sub_diag, skipn_all; reflexivity).
      rewrite <- E1 in Hk. symmetry. exact Hk. }
    assert (Hs : starts_with l CONSOLE = true).
    { apply (starts_with_shorter l CONSOLE rest).
      - apply starts_with_iff. eauto.
      - change (length CONSOLE) with 8. lia. }
    destruct l as [|x0 l0] eqn:El.
    { rewrite app_nil_r in E1. rewrite <- E1 in Hc.
      vm_compute in Hc. discriminate. }
    rewrite <- El in *. 
    pose proof console_border_check as Hb. rewrite forallb_forall in Hb.
    assert (Hj : In (length t') (seq 1 7)).
    { apply in_seq. destruct t'; [congruence|]. rewrite El in Hlen.
      cbn [length] in *. lia. }
    specialize (Hb _ Hj). rewrite <- Hl, Hs in Hb. discriminate.
Qed.

(** ** One call in a text that has no other *)

Lemma render_keep f pre ps :
  render f (map Keep pre ++ ps) = pre ++ render f ps.
Proof. induction pre as [|c pre IH]; cbn [map app render]; congruence. Qed.

Lemma hits_keep pre ps : hits (map Keep pre ++ ps) = hits ps.
Proof. induction pre as [|c pre IH]; cbn [map app hits]; congruence. Qed.

Lemma re_scan_skip_prefix r pre rest :
  bol_free r = true ->
  (forall a t, pre = a ++ t -> t <> [] ->
               match_here r true (t ++ rest) = None) ->
  re_scan r (pre ++ rest) = map Keep pre ++ re_scan r rest.
Proof.
  intros Hr. induction pre as [|c pre IH]; intros H; [reflexivity|].
  cbn [app map]. rewrite re_scan_keep; [|exact Hr|].
  - f_equal. apply IH. intros a t E Ht. apply (H (c :: a) t); [|exact Ht].
    cbn [app]. congruence.
  - apply (H [] (c :: pre) eq_refl). discriminate.
Qed.

Section OneCall.
Variable r' : regex.
Variable f : caps -> text.
Hypothesis Hr : bol_free r' = true.

Let r := Seq (Lit "console.") r'.

Lemma console_pattern_skips pre rest :
  contains CONSOLE pre = false ->
  forall a t, pre = a ++ t -> t <> [] ->
              match_here r true (t ++ CONSOLE ++ rest) = None.
Proof.
  intros Hp a t E Ht. apply lit_seq_fails.
  apply console_not_before; [exact Ht|].
  subst pre. eapply contains_app_false_r; eauto.
Qed.

(** The pass rewrites the call and keeps the text around it. *)
Lemma pass_one_call pre body post cs :
  contains CONSOLE pre = false -> contains CONSOLE post = false ->
  match_here r true (CONSOLE ++ body ++ post) = Some (cs, post) ->
  re_scan r (pre ++ CONSOLE ++ body ++ post)
  = map Keep pre ++ Hit cs :: map Keep post.
Proof.
  intros Hpre Hpost Hm.
  rewrite re_scan_skip_prefix;
    [| exact Hr | apply console_pattern_skips; exact Hpre].
  f_equal.
  replace (CONSOLE ++ body ++ post) with ((CONSOLE ++ body) ++ post) in *
    by (rewrite <- app_assoc; reflexivity).
  rewrite (re_scan_hit r Hr (CONSOLE ++ body) post cs);
    [| discriminate | exact Hm].
  f_equal.
  rewrite <- (app_nil_r post) at 1.
  rewrite re_scan_skip_prefix; [| exact Hr |].
  - unfold re_scan. cbn [scan_go]. rewrite app_nil_r. reflexivity.
  - intros a t E Ht. rewrite app_nil_r. apply lit_seq_fails.
    subst post. apply (contains_false_suffix _ a t Hpost).
Qed.

Lemma sub_one_call pre body post cs :
  contains CONSOLE pre = false -> contains CONSOLE post = false ->
  match_here r true (CONSOLE ++ body ++ post) = Some (cs, post) ->
  re_sub r f (pre ++ CONSOLE ++ body ++ post) = pre ++ f cs ++ post
  /\ re_count r (pre ++ CONSOLE ++ body ++ post) = 1.
Proof.
  intros Hpre Hpost Hm. unfold re_sub, re_count.
  rewrite (pass_one_call pre body post cs Hpre Hpost Hm).
  rewrite render_keep, hits_keep. cbn [render hits].
  rewrite <- (app_nil_r (map Keep post)), render_keep, hits_keep.
  cbn [render hits]. rewrite app_nil_r. auto.
Qed.

(** The pass finds nothing when it fails on the one call. *)
Lemma pass_misses_call pre body post :
  contains CONSOLE pre = false ->
  contains CONSOLE (skipn 1 (CONSOLE ++ body ++ post)) = false ->
  match_here r true (CONSOLE ++ body ++ post) = None ->
  re_count r (pre ++ CONSOLE ++ body ++ post) = 0.
Proof.
  intros Hpre Htail Hm. apply scan_never_matches. intros a t b' E.
  rewrite (match_here_flag r b' true t Hr).
  symmetry in E. apply list_app_eq_split in E.
  destruct E as [l [[E1 E2] | [E1 E2]]].
  - (* a = pre ++ l, CONSOLE ++ body ++ post = l ++ t *)
    destruct l as [|x l].
    + cbn [app] in E2. subst t. exact Hm.
    + apply lit_seq_fails. rewrite E2 in Htail. cbn [app skipn] in Htail.
      apply (contains_false_suffix _ l t Htail).
  - (* pre = a ++ l, t = l ++ CONSOLE ++ body ++ post *)
    subst t. destruct l as [|x l]; [exact Hm|].
    apply (console_pattern_skips pre (body ++ post) Hpre a (x :: l) E1).
    discriminate.
Qed.

End OneCall.

(** A pass for another level, or for another opening, fails where the
    call starts. *)
Lemma other_literal_fails (w : string) (r : regex) (b : bool) (s : text) :
  lit_go (txt w) s = None ->
  match_here (Seq (Lit "console.") (Seq (Lit w) r)) b (CONSOLE ++ s) = None.
Proof.
  intros H. unfold match_here. cbn [rmatch].
  change (txt "console.") with CONSOLE. rewrite lit_go_app.
  cbn [rmatch]. rewrite H. reflexivity.
Qed.

Lemma console_tail (X : text) :
  contains CONSOLE X = false ->
  contains CONSOLE (skipn 1 (CONSOLE ++ X)) = false.
Proof.
  intros H. unfold CONSOLE, txt. cbn [list_ascii_of_string app skipn].
  repeat (cbn [contains starts_with Ascii.eqb Bool.eqb andb orb]).
  exact H.
Qed.

Section OneCallText.
Variable r' : regex.
Variable f : caps -> text.
Hypothesis Hr : bol_free r' = true.

Lemma sub_call_in_context pre call post cs :
  starts_with CONSOLE call = true ->
  contains CONSOLE pre = false -> contains CONSOLE post = false ->
  match_here (Seq (Lit "console.") r') true (call ++ post) = Some (cs, post) ->
  re_sub (Seq (Lit "console.") r') f (pre ++ call ++ post) = pre ++ f cs ++ post
  /\ re_count (Seq (Lit "console.") r') (pre ++ call ++ post) = 1.
Proof.
  intros Hs Hpre Hpost Hm. apply starts_with_iff in Hs. destruct Hs as [body ->].
  rewrite <- app_assoc in *. apply sub_one_call; assumption.
Qed.

Lemma miss_call_in_context pre call post :
  starts_with CONSOLE call = true ->
  contains CONSOLE pre = false ->
  contains CONSOLE (skipn 1 (call ++ post)) = false ->
  match_here (Seq (Lit "console.") r') true (call ++ post) = None ->
  re_sub (Seq (Lit "console.") r') f (pre ++ call ++ post) = pre ++ call ++ post
  /\ re_count (Seq (Lit "console.") r') (pre ++ call ++ post) = 0.
Proof.
  intros Hs Hpre Htail Hm. apply starts_with_iff in Hs. destruct Hs as [body ->].
  rewrite <- app_assoc in *.
  assert (H0 : re_count (Seq (Lit "console.") r')
                 (pre ++ CONSOLE ++ body ++ post) = 0)
    by (apply pass_misses_call; assumption).
  split; [apply re_sub_no_hit, H0 | exact H0].
Qed.

End OneCallText.

(** ** Texts free of [console.] *)

Lemma console_ne : CONSOLE <> [].
Proof. discriminate. Qed.

Lemma free_sep a d b :
  ~ In d CONSOLE -> console_free a -> console_free b ->
  console_free (a ++ d :: b).
Proof.
  unfold console_free. intros Hd Ha Hb.
  rewrite (contains_separator CONSOLE a b d console_ne Hd), Ha, Hb. reflexivity.
Qed.

Lemma free_sep_inv a d b :
  ~ In d CONSOLE -> console_free (a ++ d :: b) ->
  console_free a /\ console_free b.
Proof.
  unfold console_free. intros Hd H.
  rewrite (contains_separator CONSOLE a b d console_ne Hd) in H.
  apply orb_false_iff in H. exact H.
Qed.

(** A text without the dot, put after a free text, adds no occurrence. *)
Lemma free_app_dotless a b :
  ~ In "."%char b -> console_free a -> console_free (a ++ b).
Proof.
  unfold console_free. intros Hb Ha.
  destruct (contains CONSOLE (a ++ b)) eqn:E; [|reflexivity].
  exfalso. apply contains_iff in E. destruct E as (p & q & E).
  rewrite app_assoc in E. apply list_app_eq_split in E.
  destruct E as [l [[E1 E2] | [E1 E2]]].
  - assert (contains CONSOLE a = true).
    { apply contains_iff. exists p, l. rewrite E1, <- app_assoc. reflexivity. }
    congruence.
  - destruct l as [|x l] using rev_ind.
    + rewrite app_nil_r in E1.
      assert (contains CONSOLE a = true).
      { apply contains_iff. exists p, []. rewrite app_nil_r. auto. }
      congruence.
    + clear IHl. change CONSOLE with (txt "console" ++ ["."%char]) in E1.
      rewrite !app_assoc in E1. apply app_inj_tail in E1. destruct E1 as [_ E1].
      subst x. apply Hb. rewrite E2. apply in_or_app. left.
      apply in_or_app. right. left. reflexivity.
Qed.

(** A text of characters foreign to the word, put in front of a free
    text, adds no occurrence. *)
Lemma free_foreign_app a b :
  (forall x, In x a -> ~ In x CONSOLE) -> console_free b ->
  console_free (a ++ b).
Proof.
  unfold console_free. intros Ha Hb. induction a as [|x a IH]; [exact Hb|].
  cbn [app contains]. rewrite IH by (intros y Hy; apply Ha; right; exact Hy).
  rewrite orb_false_r.
  destruct (starts_with CONSOLE (x :: a ++ b)) eqn:E; [|reflexivity].
  exfalso. apply starts_with_iff in E. destruct E as [t E].
  unfold CONSOLE, txt in E. cbn [list_ascii_of_string app] in E.
  inversion E; subst x. apply (Ha "c"%char); [left; reflexivity|].
  left. reflexivity.
Qed.

Lemma space_foreign x : is_space x = true -> ~ In x CONSOLE.
Proof.
  intros Hs Hin. unfold CONSOLE, txt in Hin. cbn [list_ascii_of_string In] in Hin.
  repeat (destruct Hin as [<- | Hin]; [discriminate Hs|]). exact Hin.
Qed.

Lemma quote_foreign x : is_quote x = true -> ~ In x CONSOLE.
Proof.
  intros Hs Hin. unfold CONSOLE, txt in Hin. cbn [list_ascii_of_string In] in Hin.
  repeat (destruct Hin as [<- | Hin]; [discriminate Hs|]). exact Hin.
Qed.

Lemma spaces_foreign ws :
  forallb is_space ws = true -> forall x, In x ws -> ~ In x CONSOLE.
Proof.
  intros H x Hx. rewrite forallb_forall in H. apply space_foreign, H, Hx.
Qed.

Lemma free_spaces ws b :
  forallb is_space ws = true -> console_free b -> console_free (ws ++ b).
Proof. intros H. apply free_foreign_app, spaces_foreign, H. Qed.

Lemma word_dotless v : forallb is_word v = true -> ~ In "."%char v.
Proof.
  intros H Hin. rewrite forallb_forall in H. specialize (H _ Hin). discriminate.
Qed.

Lemma free_nil : console_free [].
Proof. reflexivity. Qed.

Lemma free_word v : forallb is_word v = true -> console_free v.
Proof.
  intros H. apply (free_app_dotless [] v); [apply word_dotless, H | apply free_nil].
Qed.

Ltac foreign := cbv; intuition discriminate.

(* ------------------------------------------------------------------ *)
(** ** refactor-logger.py: one call in a text *)

Section Logger_call_facts.
Import Logger Logger_spec Logger_calls.

(** The emitted calls are free of the word when the message is. *)
Lemma free_log_error_call pre v m post :
  forallb is_word v = true -> console_free pre -> console_free m ->
  console_free post ->
  console_free (pre ++ log_error_call v m ++ post).
Proof.
  intros Hv Hpre Hm Hpost.
  replace (pre ++ log_error_call v m ++ post)
    with ((pre ++ txt "logError") ++ "("%char :: v ++ ","%char :: []
            ++ " "%char :: [] ++ DQ :: m ++ DQ :: txt ", { component: "
            ++ DQ :: txt "refactored" ++ DQ :: txt " }" ++ ")"%char :: post)
    by (unfold log_error_call; cbn [txt list_ascii_of_string];
        repeat (rewrite <- app_assoc || rewrite <- app_comm_cons); reflexivity).
  apply free_sep; [foreign | apply free_app_dotless; [foreign | exact Hpre] |].
  apply free_sep; [foreign | apply free_word, Hv |].
  apply free_sep; [foreign | apply free_nil |].
  apply free_sep; [foreign | apply free_nil |].
  apply free_sep; [foreign | exact Hm |].
  apply free_sep; [foreign | reflexivity |].
  apply free_sep; [foreign | reflexivity |].
  apply free_sep; [foreign | reflexivity | exact Hpost].
Qed.

Lemma free_emit_msg pre target m post :
  In target ["info"; "warn"; "error"]%string ->
  console_free pre -> console_free m -> console_free post ->
  console_free (pre ++ emit_msg target m ++ post).
Proof.
  intros Ht Hpre Hm Hpost.
  replace (pre ++ emit_msg target m ++ post)
    with ((pre ++ txt "lo") ++ "g"%char :: ("."%char :: txt target)
            ++ "("%char :: txt "{ msg: " ++ DQ :: m ++ DQ :: txt " }"
            ++ ")"%char :: post)
    by (unfold emit_msg; cbn [txt list_ascii_of_string];
        repeat (rewrite <- app_assoc || rewrite <- app_comm_cons); reflexivity).
  apply free_sep; [foreign | apply free_app_dotless; [foreign | exact Hpre] |].
  apply free_sep; [foreign | |].
  { destruct Ht as [<- | [<- | [<- | []]]]; reflexivity. }
  apply free_sep; [foreign | reflexivity |].
  apply free_sep; [foreign | exact Hm |].
  apply free_sep; [foreign | reflexivity | exact Hpost].
Qed.

Lemma free_only_spaces ws : forallb is_space ws = true -> console_free ws.
Proof.
  intros H. rewrite <- (app_nil_r ws). apply free_spaces; [exact H | apply free_nil].
Qed.

Lemma pass_keeps_free r f s :
  console_free s -> re_sub (Seq (Lit "console.") r) f s = s.
Proof. intros H. apply re_sub_no_hit, re_count_lit_absent, H. Qed.

Lemma refactor_console_error_free s :
  console_free s -> refactor_console_error s = s.
Proof.
  intros H. unfold refactor_console_error, with_var_pattern, template_pattern,
    simple_pattern.
  repeat rewrite (pass_keeps_free _ _ s H). reflexivity.
Qed.

Lemma refactor_console_warn_free s :
  console_free s -> refactor_console_warn s = s.
Proof.
  intros H. unfold refactor_console_warn, with_var_pattern, template_pattern,
    simple_pattern.
  repeat rewrite (pass_keeps_free _ _ s H). reflexivity.
Qed.

Lemma refactor_console_log_free s :
  console_free s -> refactor_console_log s = s.
Proof.
  intros H. unfold refactor_console_log, template_pattern, simple_pattern.
  repeat rewrite (pass_keeps_free _ _ s H). reflexivity.
Qed.

(** The text of a call after its first character. *)
Lemma free_var_call_tail level c post :
  In level ["log"; "warn"; "error"]%string ->
  var_call_ok c = true -> console_free (vc_msg c) -> console_free post ->
  console_free (skipn 1 (var_call_text level c ++ post)).
Proof.
  intros Hl Hc Hm Hpost.
  destruct c as [ws1 q1 msg q2 ws2 ws3 v ws4].
  unfold var_call_ok in Hc. cbn [vc_lead vc_open vc_msg vc_close
    vc_gap1 vc_gap2 vc_var vc_trail] in *.
  rewrite !andb_true_iff in Hc.
  destruct Hc as [[[[[[[[[H1 H2] H3] H4] H5] H6] H7] H8] H9] H10].
  replace (var_call_text level
             {| vc_lead := ws1; vc_open := q1; vc_msg := msg; vc_close := q2;
                vc_gap1 := ws2; vc_gap2 := ws3; vc_var := v; vc_trail := ws4 |}
           ++ post)
    with (CONSOLE ++ txt level ++ "("%char :: ws1 ++ q1 :: msg ++ q2 :: ws2
            ++ ","%char :: ws3 ++ v ++ ws4 ++ ")"%char :: post)
    by (unfold var_call_text, CONSOLE; cbn [vc_lead vc_open vc_msg vc_close
          vc_gap1 vc_gap2 vc_var vc_trail];
        change (txt "(") with ["("%char]; change (txt ",") with [","%char];
        change (txt ")") with [")"%char];
        repeat (rewrite <- app_assoc || rewrite <- app_comm_cons); reflexivity).
  apply console_tail.
  apply free_sep; [foreign | |].
  { destruct Hl as [<- | [<- | [<- | []]]]; reflexivity. }
  apply free_sep; [apply quote_foreign, H2 | apply free_only_spaces, H1 |].
  apply free_sep; [apply quote_foreign, H5 | exact Hm |].
  apply free_sep; [foreign | apply free_only_spaces, H6 |].
  apply free_spaces; [exact H7|].
  destruct ws4 as [|s ws4].
  - cbn [app]. apply free_sep; [foreign | apply free_word, H9 | exact Hpost].
  - cbn [forallb] in H10. apply andb_true_iff in H10. destruct H10 as [Hs H10].
    cbn [app]. apply free_sep; [apply space_foreign, Hs | apply free_word, H9 |].
    apply free_spaces; [exact H10|].
    apply (free_sep []); [foreign | apply free_nil | exact Hpost].
Qed.

Lemma free_template_call_tail level c post :
  In level ["log"; "warn"; "error"]%string ->
  template_call_ok c = true -> console_free (tc_msg c) -> console_free post ->
  console_free (skipn 1 (template_call_text level c ++ post)).
Proof.
  intros Hl Hc Hm Hpost. destruct c as [ws1 msg ws2].
  unfold template_call_ok in Hc. cbn [tc_lead tc_msg tc_trail] in *.
  rewrite !andb_true_iff in Hc. destruct Hc as [[[H1 H2] H3] H4].
  replace (template_call_text level
             {| tc_lead := ws1; tc_msg := msg; tc_trail := ws2 |} ++ post)
    with (CONSOLE ++ txt level ++ "("%char :: ws1 ++ "`"%char :: msg
            ++ "`"%char :: ws2 ++ ")"%char :: post)
    by (unfold template_call_text, CONSOLE; cbn [tc_lead tc_msg tc_trail];
        change (txt "(") with ["("%char]; change (txt "`") with ["`"%char];
        change (txt ")") with [")"%char];
        repeat (rewrite <- app_assoc || rewrite <- app_comm_cons); reflexivity).
  apply console_tail.
  apply free_sep; [foreign | |].
  { destruct Hl as [<- | [<- | [<- | []]]]; reflexivity. }
  apply free_sep; [foreign | apply free_only_spaces, H1 |].
  apply free_sep; [foreign | exact Hm |].
  apply free_sep; [foreign | apply free_only_spaces, H4 | exact Hpost].
Qed.

(** A call with a message and a variable, anywhere in a text that is
    otherwise free of [console.], through [refactor_console_error] and
    through all three functions. *)
Lemma error_var_call_in_context pre c post :
  var_call_ok c = true ->
  console_free pre -> console_free post ->
  console_free (clean_msg (vc_msg c)) ->
  refactor_console_error (pre ++ var_call_text "error" c ++ post)
  = pre ++ log_error_call (vc_var c) (clean_msg (vc_msg c)) ++ post
  /\ refactor_calls (pre ++ var_call_text "error" c ++ post)
     = pre ++ log_error_call (vc_var c) (clean_msg (vc_msg c)) ++ post.
Proof.
  intros Hc Hpre Hpost Hm.
  assert (Hv : forallb is_word (vc_var c) = true).
  { unfold var_call_ok in Hc. rewrite !andb_true_iff in Hc. tauto. }
  assert (Hfree : console_free
                    (pre ++ log_error_call (vc_var c) (clean_msg (vc_msg c)) ++ post))
    by (apply free_log_error_call; assumption).
  assert (H1 : re_sub (with_var_pattern "error") replace_with_var
                 (pre ++ var_call_text "error" c ++ post)
               = pre ++ log_error_call (vc_var c) (clean_msg (vc_msg c)) ++ post).
  { unfold with_var_pattern.
    refine (proj1 (sub_call_in_context _ replace_with_var _ pre
                     (var_call_text "error" c) post
                     [(2, vc_var c); (1, vc_msg c)] eq_refl Hpre Hpost _));
      [reflexivity | apply Logger_facts.with_var_match, Hc]. }
  assert (E : refactor_console_error (pre ++ var_call_text "error" c ++ post)
              = pre ++ log_error_call (vc_var c) (clean_msg (vc_msg c)) ++ post).
  { unfold refactor_console_error. rewrite H1.
    unfold template_pattern, simple_pattern.
    repeat rewrite (pass_keeps_free _ _ _ Hfree). reflexivity. }
  split; [exact E|].
  unfold refactor_calls. rewrite E.
  rewrite refactor_console_warn_free, refactor_console_log_free; auto.
Qed.

(** ** Where a pattern fails *)

Lemma star_go_none p k s b :
  (forall a rest b', s = a ++ rest -> forallb p a = true -> k b' rest = None) ->
  star_go p b s k = None.
Proof.
  intros H. destruct (star_go p b s k) as [o|] eqn:E; [|reflexivity].
  apply star_go_inv in E. destruct E as (a & rest & b' & Es & Ha & Hk).
  rewrite (H a rest b' Es Ha) in Hk. discriminate.
Qed.

(** A run of the class, cut off a text that continues with a character
    outside the class, is cut off within the run. *)
Lemma span_split (p : ascii -> bool) :
  forall ws x X a rest,
    forallb p ws = true -> p x = false -> forallb p a = true ->
    ws ++ x :: X = a ++ rest ->
    exists ws', ws = a ++ ws' /\ rest = ws' ++ x :: X.
Proof.
  induction ws as [|w ws IH]; intros x X a rest Hws Hx Ha E.
  - destruct a as [|y a].
    + exists []. cbn [app] in *. auto.
    + cbn [app] in E. inversion E; subst y. cbn [forallb] in Ha.
      rewrite Hx in Ha. discriminate.
  - destruct a as [|y a].
    + exists (w :: ws). cbn [app] in *. auto.
    + cbn [app] in E. inversion E; subst y.
      cbn [forallb] in Hws, Ha. apply andb_true_iff in Hws, Ha.
      destruct (IH x X a rest (proj2 Hws) Hx (proj2 Ha) H1) as (ws' & -> & ->).
      exists ws'. auto.
Qed.

Lemma forallb_app_r {A} (p : A -> bool) a b :
  forallb p (a ++ b) = true -> forallb p b = true.
Proof. rewrite forallb_app, andb_true_iff. tauto. Qed.

(** After white space, the literal [w] is looked for: it is not there
    when the text after the white space starts with another character. *)
Lemma star_lit_fails (w : string) (r : regex) ws x X b cs k c0 :
  forallb is_space ws = true -> is_space x = false ->
  txt w = [c0] -> is_space c0 = false -> x <> c0 ->
  rmatch (Seq (Star is_space) (Seq (Lit w) r)) b (ws ++ x :: X) cs k = None.
Proof.
  intros Hws Hx Hw Hc0 Hne. cbn [rmatch]. apply star_go_none.
  intros a rest b' E Ha.
  destruct (span_split is_space ws x X a rest Hws Hx Ha E) as (ws' & -> & ->).
  rewrite Hw. apply forallb_app_r in Hws.
  destruct ws' as [|y ws']; cbn [app lit_go].
  - destruct (Ascii.eqb c0 x) eqn:Ee; [|reflexivity].
    apply Ascii.eqb_eq in Ee. congruence.
  - cbn [forallb] in Hws. apply andb_true_iff in Hws. destruct Hws as [Hy _].
    destruct (Ascii.eqb c0 y) eqn:Ee; [|reflexivity].
    apply Ascii.eqb_eq in Ee. subst y. congruence.
Qed.

Lemma not_quote_quote q : is_quote q = true -> not_quote q = false.
Proof. unfold not_quote. intros ->. reflexivity. Qed.

Lemma not_quote_not_bq x : not_quote x = true -> none_of "`" x = true.
Proof.
  unfold not_quote, is_quote, none_of, any_of. cbn [txt list_ascii_of_string existsb].
  rewrite orb_false_r. intros H. apply negb_true_iff in H.
  apply orb_false_iff in H. destruct H as [_ H]. change BQ with "`"%char in H.
  rewrite H. reflexivity.
Qed.

Lemma rmatch_seq_lit w r b s cs k :
  rmatch (Seq (Lit w) r) b (txt w ++ s) cs k
  = rmatch r (b && Nat.eqb (String.length w) 0) s cs k.
Proof. cbn [rmatch]. rewrite lit_go_app. reflexivity. Qed.

(** The pattern for a template literal fails on a call whose opening
    quote is no backtick. *)
Lemma template_fails_other_quote level ws1 q1 X b :
  forallb is_space ws1 = true -> is_quote q1 = true -> q1 <> BQ ->
  match_here (template_pattern level) b
    (txt "console." ++ txt level ++ txt "(" ++ ws1 ++ q1 :: X) = None.
Proof.
  intros Hws Hq Hne. unfold match_here, template_pattern.
  rewrite !rmatch_seq_lit.
  apply (star_lit_fails "`" _ ws1 q1 X _ _ _ BQ); auto.
  apply quote_not_space, Hq.
Qed.

Lemma star_then_fails (R : regex) ws x X b cs k :
  forallb is_space ws = true -> is_space x = false ->
  (forall y Y b', is_space y = true -> rmatch R b' (y :: Y) cs k = None) ->
  (forall b', rmatch R b' (x :: X) cs k = None) ->
  rmatch (Seq (Star is_space) R) b (ws ++ x :: X) cs k = None.
Proof.
  intros Hws Hx Hsp Hq. cbn [rmatch]. apply star_go_none.
  intros a rest b' E Ha.
  destruct (span_split is_space ws x X a rest Hws Hx Ha E) as (ws' & -> & ->).
  apply forallb_app_r in Hws. destruct ws' as [|y ws']; cbn [app].
  - apply Hq.
  - cbn [forallb] in Hws. apply andb_true_iff in Hws. apply Hsp, Hws.
Qed.

Lemma rmatch_grp_plus_eq i p b s cs k :
  rmatch (Grp i (Plus p)) b s cs k
  = match s with
    | c :: s' =>
        if p c
        then star_go p false s'
               (fun b' s'' =>
                  k b' s'' ((i, firstn (length s - length s'') s) :: cs))
        else None
    | [] => None
    end.
Proof. reflexivity. Qed.

Lemma lit_mismatch (w : string) c0 y Y b cs k :
  txt w = [c0] -> y <> c0 -> rmatch (Lit w) b (y :: Y) cs k = None.
Proof.
  intros Hw Hne. cbn [rmatch]. rewrite Hw. cbn [lit_go].
  destruct (Ascii.eqb c0 y) eqn:E; [|reflexivity].
  apply Ascii.eqb_eq in E. congruence.
Qed.

Lemma seq_lit_mismatch (w : string) r c0 y Y b cs k :
  txt w = [c0] -> y <> c0 -> rmatch (Seq (Lit w) r) b (y :: Y) cs k = None.
Proof. intros Hw Hne. rewrite rmatch_seq. apply (lit_mismatch w c0); auto. Qed.

Lemma space_neq y c0 : is_space y = true -> is_space c0 = false -> y <> c0.
Proof. intros Hy Hc ->. congruence. Qed.

(** After the opening quote: the message, the closing quote, white
    space, and then something the rest of the pattern rejects. *)
Section QuotedTail.
Variable p : ascii -> bool.
Variable closer : regex.
Variable q2 : ascii.
Hypothesis close_fail :
  forall m Y b cs k, p m = true -> rmatch closer b (m :: Y) cs k = None.
Hypothesis close_step :
  forall Y b cs k, rmatch closer b (q2 :: Y) cs k = k false Y cs.
Hypothesis q2_out : p q2 = false.

Lemma quoted_tail_fails (R : regex) i msg ws2 x X b cs k :
  forallb p msg = true -> forallb is_space ws2 = true ->
  is_space x = false ->
  (forall y Y b' cs', is_space y = true ->
                      rmatch R b' (y :: Y) cs' k = None) ->
  (forall b' cs', rmatch R b' (x :: X) cs' k = None) ->
  rmatch (Seq (Grp i (Plus p)) (Seq closer (Seq (Star is_space) R)))
    b (msg ++ q2 :: ws2 ++ x :: X) cs k = None.
Proof.
  intros Hmsg Hws Hx Hsp Hq. rewrite rmatch_seq, rmatch_grp_plus_eq.
  destruct msg as [|m msg]; cbn [app].
  { rewrite q2_out. reflexivity. }
  cbn [forallb] in Hmsg. apply andb_true_iff in Hmsg. destruct Hmsg as [Hm Hmsg].
  rewrite Hm. apply star_go_none. intros a rest b' E Ha.
  destruct (span_split p msg q2 (ws2 ++ x :: X) a rest Hmsg q2_out Ha E)
    as (ms & -> & ->).
  apply forallb_app_r in Hmsg. cbv beta. rewrite rmatch_seq.
  destruct ms as [|m' ms]; cbn [app].
  - rewrite close_step. apply star_then_fails; auto.
  - cbn [forallb] in Hmsg. apply andb_true_iff in Hmsg.
    apply close_fail, Hmsg.
Qed.

End QuotedTail.

Lemma cls_quote_fail m Y b cs k :
  not_quote m = true -> rmatch (Cls is_quote) b (m :: Y) cs k = None.
Proof.
  unfold not_quote. intros H. apply negb_true_iff in H. cbn [rmatch].
  rewrite H. reflexivity.
Qed.

Lemma cls_quote_step q Y b cs k :
  is_quote q = true -> rmatch (Cls is_quote) b (q :: Y) cs k = k false Y cs.
Proof. intros H. cbn [rmatch]. rewrite H. reflexivity. Qed.

Lemma lit_bq_fail m Y b cs k :
  none_of "`" m = true -> rmatch (Lit "`") b (m :: Y) cs k = None.
Proof.
  unfold none_of, any_of. cbn [txt list_ascii_of_string existsb rmatch lit_go].
  rewrite orb_false_r. intros H. apply negb_true_iff in H.
  rewrite Ascii.eqb_sym, H. reflexivity.
Qed.

Lemma lit_bq_step Y b cs k :
  rmatch (Lit "`") b (BQ :: Y) cs k = k false Y cs.
Proof. cbn. rewrite andb_false_r. reflexivity. Qed.

Lemma space_not_quote y : is_space y = true -> is_quote y = false.
Proof.
  intros H. destruct (is_quote y) eqn:E; [|reflexivity].
  apply quote_not_space in E. congruence.
Qed.

(** The pattern with a variable fails on a call that has only a
    message. *)
Lemma with_var_fails_simple level c post b :
  simple_call_ok c = true ->
  match_here (with_var_pattern level) b (simple_call_text level c ++ post)
  = None.
Proof.
  destruct c as [ws1 q1 msg q2 ws2]. unfold simple_call_ok, simple_call_text.
  cbn [sc_lead sc_open sc_msg sc_close sc_trail]. rewrite !andb_true_iff.
  intros [[[[[H1 H2] H3] H4] H5] H6].
  unfold match_here, with_var_pattern.
  repeat (rewrite <- app_assoc || rewrite <- app_comm_cons).
  rewrite !rmatch_seq_lit.
  apply star_then_fails; [exact H1 | apply quote_not_space, H2 | |].
  - intros y Y b' Hy. rewrite rmatch_seq. cbn [rmatch].
    rewrite (space_not_quote y Hy). reflexivity.
  - intros b'. rewrite rmatch_seq, (cls_quote_step q1 _ _ _ _ H2).
    change (txt ")") with [")"%char]. cbn [app].
    apply (quoted_tail_fails not_quote (Cls is_quote) q2 cls_quote_fail
             (fun Y b cs k => cls_quote_step q2 Y b cs k H5)
             (not_quote_quote q2 H5)); auto; intros;
      apply (seq_lit_mismatch "," _ ","%char); auto;
      try (apply space_neq; auto); try discriminate.
Qed.

(** The pattern for a message alone fails on a call that also has a
    variable. *)
Lemma simple_fails_var level c post b :
  var_call_ok c = true ->
  match_here (simple_pattern level) b (var_call_text level c ++ post) = None.
Proof.
  destruct c as [ws1 q1 msg q2 ws2 ws3 v ws4].
  unfold var_call_ok, var_call_text. cbn [vc_lead vc_open vc_msg vc_close
    vc_gap1 vc_gap2 vc_var vc_trail]. rewrite !andb_true_iff.
  intros [[[[[[[[[H1 H2] H3] H4] H5] H6] H7] H8] H9] H10].
  unfold match_here, simple_pattern.
  repeat (rewrite <- app_assoc || rewrite <- app_comm_cons).
  rewrite !rmatch_seq_lit.
  apply star_then_fails; [exact H1 | apply quote_not_space, H2 | |].
  - intros y Y b' Hy. rewrite rmatch_seq. cbn [rmatch].
    rewrite (space_not_quote y Hy). reflexivity.
  - intros b'. rewrite rmatch_seq, (cls_quote_step q1 _ _ _ _ H2).
    change (txt ",") with [","%char]. cbn [app].
    apply (quoted_tail_fails not_quote (Cls is_quote) q2 cls_quote_fail
             (fun Y b cs k => cls_quote_step q2 Y b cs k H5)
             (not_quote_quote q2 H5)); auto; intros;
      apply (lit_mismatch ")" ")"%char); auto;
      try (apply space_neq; auto); try discriminate.
Qed.

(** The pattern for a template literal fails on a call that also has a
    variable, unless the message opens with a backtick and closes with
    another quote. *)
Lemma template_fails_var level c post b :
  var_call_ok c = true ->
  (vc_open c = BQ -> vc_close c = BQ) ->
  match_here (template_pattern level) b (var_call_text level c ++ post) = None.
Proof.
  destruct c as [ws1 q1 msg q2 ws2 ws3 v ws4].
  unfold var_call_ok, var_call_text. cbn [vc_lead vc_open vc_msg vc_close
    vc_gap1 vc_gap2 vc_var vc_trail]. rewrite !andb_true_iff.
  intros [[[[[[[[[H1 H2] H3] H4] H5] H6] H7] H8] H9] H10] Hq.
  destruct (Ascii.eqb q1 BQ) eqn:E1.
  - apply Ascii.eqb_eq in E1. subst q1. rewrite (Hq eq_refl) in *.
    unfold match_here, template_pattern.
    repeat (rewrite <- app_assoc || rewrite <- app_comm_cons).
    rewrite !rmatch_seq_lit.
    apply star_then_fails; [exact H1 | reflexivity | |].
    + intros y Y b' Hy. apply (seq_lit_mismatch "`" _ BQ); auto.
      apply space_neq; auto.
    + intros b'. rewrite rmatch_seq, lit_bq_step.
      change (txt "`") with [BQ]. change (txt ",") with [","%char]. cbn [app].
      apply (quoted_tail_fails (none_of "`") (Lit "`") BQ lit_bq_fail
               lit_bq_step eq_refl); auto.
      * rewrite forallb_forall in *. intros x Hx. apply not_quote_not_bq, H4, Hx.
      * intros. apply (lit_mismatch ")" ")"%char); auto. apply space_neq; auto.
  - apply Ascii.eqb_neq in E1.
    unfold var_call_text. repeat (rewrite <- app_assoc || rewrite <- app_comm_cons).
    apply template_fails_other_quote; auto.
Qed.

(** The pattern for a message alone matches the call it is made for. *)
Lemma simple_match level c post b :
  simple_call_ok c = true ->
  match_here (simple_pattern level) b (simple_call_text level c ++ post)
  = Some ([(1, sc_msg c)], post).
Proof.
  destruct c as [ws1 q1 msg q2 ws2]. unfold simple_call_ok, simple_call_text.
  cbn [sc_lead sc_open sc_msg sc_close sc_trail]. rewrite !andb_true_iff.
  intros [[[[[H1 H2] H3] H4] H5] H6].
  unfold match_here, simple_pattern.
  repeat (rewrite <- app_assoc || rewrite <- app_comm_cons).
  seq_step rmatch_lit.
  seq_step rmatch_lit.
  seq_step rmatch_lit.
  seq_step rmatch_star; [exact H1 | cbn; apply quote_not_space, H2 |].
  seq_step rmatch_cls; [exact H2|].
  seq_step rmatch_grp_plus;
    [apply nonempty_ne, H3 | exact H4
    | cbn; unfold not_quote; rewrite H5; reflexivity |].
  seq_step rmatch_cls; [exact H5|].
  seq_step rmatch_star; [exact H6 | reflexivity |].
  apply rmatch_lit. intros _. reflexivity.
Qed.

Lemma free_simple_call_tail level c post :
  In level levels ->
  simple_call_ok c = true -> console_free (sc_msg c) -> console_free post ->
  console_free (skipn 1 (simple_call_text level c ++ post)).
Proof.
  intros Hl Hc Hm Hpost. destruct c as [ws1 q1 msg q2 ws2].
  unfold simple_call_ok in Hc. cbn [sc_lead sc_open sc_msg sc_close sc_trail] in *.
  rewrite !andb_true_iff in Hc. destruct Hc as [[[[[H1 H2] H3] H4] H5] H6].
  replace (simple_call_text level
             {| sc_lead := ws1; sc_open := q1; sc_msg := msg; sc_close := q2;
                sc_trail := ws2 |} ++ post)
    with (CONSOLE ++ txt level ++ "("%char :: ws1 ++ q1 :: msg ++ q2 :: ws2
            ++ ")"%char :: post)
    by (unfold simple_call_text, CONSOLE;
        cbn [sc_lead sc_open sc_msg sc_close sc_trail];
        change (txt "(") with ["("%char]; change (txt ")") with [")"%char];
        repeat (rewrite <- app_assoc || rewrite <- app_comm_cons); reflexivity).
  apply console_tail.
  apply free_sep; [foreign | |].
  { destruct Hl as [<- | [<- | [<- | []]]]; reflexivity. }
  apply free_sep; [apply quote_foreign, H2 | apply free_only_spaces, H1 |].
  apply free_sep; [apply quote_foreign, H5 | exact Hm |].
  apply free_sep; [foreign | apply free_only_spaces, H6 | exact Hpost].
Qed.

(** A pass for another level leaves a text with one call alone. *)
Lemma pass_other_level (w : string) r f pre call post :
  bol_free r = true -> starts_with CONSOLE call = true ->
  console_free pre -> console_free (skipn 1 (call ++ post)) ->
  lit_go (txt w) (skipn 8 (call ++ post)) = None ->
  re_sub (Seq (Lit "console.") (Seq (Lit w) r)) f (pre ++ call ++ post)
  = pre ++ call ++ post.
Proof.
  intros Hr Hs Hpre Htail Hlit.
  refine (proj1 (miss_call_in_context (Seq (Lit w) r) f _ pre call post
                   Hs Hpre Htail _)); [exact Hr|].
  apply starts_with_iff in Hs. destruct Hs as [body ->].
  rewrite <- app_assoc in *. apply other_literal_fails. exact Hlit.
Qed.

(** A pass that fails where the call starts leaves the text alone. *)
Lemma pass_fails_at_call r f pre call post :
  bol_free r = true -> starts_with CONSOLE call = true ->
  console_free pre -> console_free (skipn 1 (call ++ post)) ->
  match_here (Seq (Lit "console.") r) true (call ++ post) = None ->
  re_sub (Seq (Lit "console.") r) f (pre ++ call ++ post) = pre ++ call ++ post.
Proof.
  intros Hr Hs Hpre Htail Hm.
  exact (proj1 (miss_call_in_context r f Hr pre call post Hs Hpre Htail Hm)).
Qed.

(** A pass that matches the call rewrites it in place. *)
Lemma pass_hits_call r f pre call post cs :
  bol_free r = true -> starts_with CONSOLE call = true ->
  console_free pre -> console_free post ->
  match_here (Seq (Lit "console.") r) true (call ++ post) = Some (cs, post) ->
  re_sub (Seq (Lit "console.") r) f (pre ++ call ++ post) = pre ++ f cs ++ post.
Proof.
  intros Hr Hs Hpre Hpost Hm.
  exact (proj1 (sub_call_in_context r f Hr pre call post cs Hs Hpre Hpost Hm)).
Qed.

Ltac other_level Hpre Htail :=
  rewrite pass_other_level by
    (first [reflexivity | exact Hpre | exact Htail]).

Ltac free_pass Hfree := rewrite (pass_keeps_free _ _ _ Hfree).

(** A call with a message and a variable, for the levels error and
    warn. *)
Lemma var_call_rewritten level pre c post :
  In level ["error"; "warn"]%string ->
  var_call_ok c = true -> (vc_open c = BQ -> vc_close c = BQ) ->
  console_free pre -> console_free post ->
  console_free (vc_msg c) -> console_free (clean_msg (vc_msg c)) ->
  refactor_calls (pre ++ var_call_text level c ++ post)
  = pre ++ log_error_call (vc_var c) (clean_msg (vc_msg c)) ++ post.
Proof.
  intros Hl Hc Hq Hpre Hpost Hraw Hm.
  destruct Hl as [<- | [<- | []]].
  - apply error_var_call_in_context; assumption.
  - assert (Hv : forallb is_word (vc_var c) = true).
    { unfold var_call_ok in Hc. rewrite !andb_true_iff in Hc. tauto. }
    assert (Htail : console_free (skipn 1 (var_call_text "warn" c ++ post))).
    { apply free_var_call_tail; auto. right. left. reflexivity. }
    assert (Hfree : console_free
              (pre ++ log_error_call (vc_var c) (clean_msg (vc_msg c)) ++ post))
      by (apply free_log_error_call; assumption).
    unfold refactor_calls, refactor_console_error.
    unfold with_var_pattern at 1. unfold template_pattern at 1.
    unfold simple_pattern at 1.
    do 3 other_level Hpre Htail.
    unfold refactor_console_warn.
    unfold template_pattern at 1.
    rewrite pass_fails_at_call;
      [| reflexivity | reflexivity | exact Hpre | exact Htail
       | apply (template_fails_var "warn" c post true Hc Hq)].
    unfold with_var_pattern at 1.
    rewrite (pass_hits_call _ replace_with_var pre (var_call_text "warn" c) post
               [(2, vc_var c); (1, vc_msg c)]);
      [| reflexivity | reflexivity | exact Hpre | exact Hpost
       | apply (Logger_facts.with_var_match "warn" c post true Hc)].
    change (replace_with_var [(2, vc_var c); (1, vc_msg c)])
      with (log_error_call (vc_var c) (clean_msg (vc_msg c))).
    unfold simple_pattern at 1. free_pass Hfree.
    apply refactor_console_log_free, Hfree.
Qed.

(** A call of level log with a message and a variable matches no
    rule. *)
Lemma var_call_log_untouched pre c post :
  var_call_ok c = true -> (vc_open c = BQ -> vc_close c = BQ) ->
  console_free pre -> console_free post -> console_free (vc_msg c) ->
  refactor_calls (pre ++ var_call_text "log" c ++ post)
  = pre ++ var_call_text "log" c ++ post.
Proof.
  intros Hc Hq Hpre Hpost Hraw.
  assert (Htail : console_free (skipn 1 (var_call_text "log" c ++ post))).
  { apply free_var_call_tail; auto. left. reflexivity. }
  unfold refactor_calls, refactor_console_error.
  unfold with_var_pattern at 1. unfold template_pattern at 1.
  unfold simple_pattern at 1.
  do 3 other_level Hpre Htail.
  unfold refactor_console_warn.
  unfold template_pattern at 1. unfold with_var_pattern at 1.
  unfold simple_pattern at 1.
  do 3 other_level Hpre Htail.
  unfold refactor_console_log.
  unfold template_pattern at 1.
  rewrite pass_fails_at_call;
    [| reflexivity | reflexivity | exact Hpre | exact Htail
     | apply (template_fails_var "log" c post true Hc Hq)].
  unfold simple_pattern at 1.
  apply pass_fails_at_call;
    [reflexivity | reflexivity | exact Hpre | exact Htail
    | apply (simple_fails_var "log" c post true Hc)].
Qed.

Lemma target_in level :
  In level levels -> In (target_of level) ["info"; "warn"; "error"]%string.
Proof.
  intros [<- | [<- | [<- | []]]]; cbn; auto.
Qed.

Lemma template_fails_simple level c post b :
  simple_call_ok c = true -> sc_open c <> BQ ->
  match_here (template_pattern level) b (simple_call_text level c ++ post) = None.
Proof.
  destruct c as [ws1 q1 msg q2 ws2]. unfold simple_call_ok, simple_call_text.
  cbn [sc_lead sc_open sc_msg sc_close sc_trail]. rewrite !andb_true_iff.
  intros [[[[[H1 H2] H3] H4] H5] H6] Hne.
  repeat (rewrite <- app_assoc || rewrite <- app_comm_cons).
  apply template_fails_other_quote; auto.
Qed.

(** A call with a quoted message only (no backtick in front): the
    message is emitted as it stands. *)
Lemma simple_call_rewritten level pre c post :
  In level levels ->
  simple_call_ok c = true -> sc_open c <> BQ ->
  console_free pre -> console_free post -> console_free (sc_msg c) ->
  refactor_calls (pre ++ simple_call_text level c ++ post)
  = pre ++ emit_msg (target_of level) (sc_msg c) ++ post.
Proof.
  intros Hl Hc Hq Hpre Hpost Hm.
  assert (Htail : console_free (skipn 1 (simple_call_text level c ++ post)))
    by (apply free_simple_call_tail; auto).
  assert (Hfree : console_free
            (pre ++ emit_msg (target_of level) (sc_msg c) ++ post))
    by (apply free_emit_msg; auto using target_in).
  unfold refactor_calls.
  destruct Hl as [<- | [<- | [<- | []]]]; cbn [target_of String.eqb Ascii.eqb
    Bool.eqb] in *.
  - (* log *)
    unfold refactor_console_error.
    unfold with_var_pattern at 1. unfold template_pattern at 1.
    unfold simple_pattern at 1.
    do 3 other_level Hpre Htail.
    unfold refactor_console_warn.
    unfold template_pattern at 1. unfold with_var_pattern at 1.
    unfold simple_pattern at 1.
    do 3 other_level Hpre Htail.
    unfold refactor_console_log. unfold template_pattern at 1.
    rewrite pass_fails_at_call;
      [| reflexivity | reflexivity | exact Hpre | exact Htail
       | apply (template_fails_simple "log" c post true Hc Hq)].
    unfold simple_pattern at 1.
    apply (pass_hits_call _ (replace_simple "info") pre
             (simple_call_text "log" c) post [(1, sc_msg c)]);
      [reflexivity | reflexivity | exact Hpre | exact Hpost
      | apply (simple_match "log" c post true Hc)].
  - (* warn *)
    unfold refactor_console_error.
    unfold with_var_pattern at 1. unfold template_pattern at 1.
    unfold simple_pattern at 1.
    do 3 other_level Hpre Htail.
    unfold refactor_console_warn. unfold template_pattern at 1.
    rewrite pass_fails_at_call;
      [| reflexivity | reflexivity | exact Hpre | exact Htail
       | apply (template_fails_simple "warn" c post true Hc Hq)].
    unfold with_var_pattern at 1.
    rewrite pass_fails_at_call;
      [| reflexivity | reflexivity | exact Hpre | exact Htail
       | apply (with_var_fails_simple "warn" c post true Hc)].
    unfold simple_pattern at 1.
    rewrite (pass_hits_call _ (replace_simple "warn") pre
               (simple_call_text "warn" c) post [(1, sc_msg c)]);
      [| reflexivity | reflexivity | exact Hpre | exact Hpost
       | apply (simple_match "warn" c post true Hc)].
    apply refactor_console_log_free, Hfree.
  - (* error *)
    unfold refactor_console_error. unfold with_var_pattern at 1.
    rewrite pass_fails_at_call;
      [| reflexivity | reflexivity | exact Hpre | exact Htail
       | apply (with_var_fails_simple "error" c post true Hc)].
    unfold template_pattern at 1.
    rewrite pass_fails_at_call;
      [| reflexivity | reflexivity | exact Hpre | exact Htail
       | apply (template_fails_simple "error" c post true Hc Hq)].
    unfold simple_pattern at 1.
    rewrite (pass_hits_call _ (replace_simple "error") pre
               (simple_call_text "error" c) post [(1, sc_msg c)]);
      [| reflexivity | reflexivity | exact Hpre | exact Hpost
       | apply (simple_match "error" c post true Hc)].
    change (replace_simple "error" [(1, sc_msg c)])
      with (emit_msg "error" (sc_msg c)).
    rewrite refactor_console_warn_free by exact Hfree.
    apply refactor_console_log_free, Hfree.
Qed.

Lemma replace_template_message target msg :
  replace_template target [(1, msg)] = emit_msg target (template_message msg).
Proof.
  unfold replace_template, template_message, group_or_empty. cbn [group Nat.eqb].
  destruct (contains (txt "${") msg); reflexivity.
Qed.

(** A template literal with quote-free message is, for the pattern with
    a variable, a call with a message only. *)
Lemma with_var_fails_template level c post b :
  template_call_ok c = true -> forallb not_quote (tc_msg c) = true ->
  match_here (with_var_pattern level) b (template_call_text level c ++ post)
  = None.
Proof.
  intros Hc Hq. destruct c as [ws1 msg ws2].
  unfold template_call_ok in Hc. cbn [tc_lead tc_msg tc_trail] in *.
  rewrite !andb_true_iff in Hc. destruct Hc as [[[H1 H2] H3] H4].
  apply (with_var_fails_simple level (mkSimpleCall ws1 BQ msg BQ ws2) post b).
  unfold simple_call_ok. cbn [sc_lead sc_open sc_msg sc_close sc_trail].
  rewrite H1, H2, Hq, H4. reflexivity.
Qed.


(** ** The count of [refactor_file] for a text with one call *)

Lemma console_pattern_at_level level X b :
  In level levels ->
  exists cs, match_here console_pattern b (CONSOLE ++ txt level ++ X)
             = Some (cs, X).
Proof.
  intros Hl. unfold match_here, console_pattern.
  change (txt "console.") with CONSOLE.
  rewrite rmatch_seq. cbn [rmatch]. rewrite lit_go_app.
  destruct Hl as [<- | [<- | [<- | []]]].
  - rewrite lit_go_app. eexists. reflexivity.
  - change (lit_go (txt "log") (txt "warn" ++ X)) with (@None text).
    rewrite lit_go_app. eexists. reflexivity.
  - change (lit_go (txt "log") (txt "error" ++ X)) with (@None text).
    change (lit_go (txt "warn") (txt "error" ++ X)) with (@None text).
    rewrite lit_go_app. eexists. reflexivity.
Qed.

Lemma count_console_free s : console_free s -> count_console s = 0.
Proof. intros H. apply re_count_lit_absent, H. Qed.

(** One occurrence is counted in a text with one call. *)
Lemma count_console_one_call level pre X :
  In level levels -> console_free pre ->
  console_free (skipn 1 (CONSOLE ++ txt level ++ X)) ->
  count_console (pre ++ CONSOLE ++ txt level ++ X) = 1.
Proof.
  intros Hl Hpre Htail. unfold count_console, re_count, console_pattern.
  rewrite re_scan_skip_prefix;
    [| reflexivity
     | apply (console_pattern_skips _ pre (txt level ++ X) Hpre)].
  rewrite hits_keep.
  destruct (console_pattern_at_level level X true Hl) as [cs Hm].
  replace (CONSOLE ++ txt level ++ X) with ((CONSOLE ++ txt level) ++ X) in *
    by (rewrite <- app_assoc; reflexivity).
  fold console_pattern.
  rewrite (re_scan_hit console_pattern eq_refl (CONSOLE ++ txt level) X cs);
    [| discriminate | exact Hm].
  cbn [hits]. f_equal.
  apply (re_count_lit_absent "console.").
  rewrite <- app_assoc in Htail.
  change (skipn 1 (CONSOLE ++ txt level ++ X))
    with (txt "onsole." ++ txt level ++ X) in Htail.
  apply (contains_app_false_r _ (txt "onsole." ++ txt level)).
  rewrite <- app_assoc. exact Htail.
Qed.

Lemma has_logger_import_prefix pre rest :
  has_logger_import pre = true -> has_logger_import (pre ++ rest) = true.
Proof.
  unfold has_logger_import. rewrite !orb_true_iff.
  intros [H | H]; [left | right];
    apply contains_iff in H; destruct H as (a & b & ->);
    apply contains_iff; exists a, (b ++ rest); rewrite <- !app_assoc; reflexivity.
Qed.

(** What [refactor_file] computes for a text that has the import and
    one call, given what the three functions make of it. *)
Lemma refactor_text_one_call level pre X out :
  In level levels -> console_free pre ->
  console_free (skipn 1 (CONSOLE ++ txt level ++ X)) ->
  has_logger_import pre = true ->
  refactor_calls (pre ++ CONSOLE ++ txt level ++ X) = out ->
  refactor_text (pre ++ CONSOLE ++ txt level ++ X)
  = (out, (1 - Z.of_nat (count_console out))%Z).
Proof.
  intros Hl Hpre Htail Hi Hout. unfold refactor_text.
  rewrite (count_console_one_call level pre X Hl Hpre Htail).
  cbn [Nat.eqb]. unfold add_logger_import.
  rewrite (has_logger_import_prefix pre _ Hi).
  change (refactor_console_log (refactor_console_warn (refactor_console_error
            (pre ++ CONSOLE ++ txt level ++ X))))
    with (refactor_calls (pre ++ CONSOLE ++ txt level ++ X)).
  rewrite Hout. reflexivity.
Qed.

Lemma refactor_text_call level pre call post out n :
  In level levels ->
  (exists X, call ++ post = CONSOLE ++ txt level ++ X) ->
  console_free pre -> console_free (skipn 1 (call ++ post)) ->
  has_logger_import pre = true ->
  refactor_calls (pre ++ call ++ post) = out ->
  count_console out = n ->
  refactor_text (pre ++ call ++ post) = (out, (1 - Z.of_nat n)%Z).
Proof.
  intros Hl [X EX] Hpre Htail Hi Hout Hn. rewrite EX in *. subst n.
  apply (refactor_text_one_call level pre X out); auto.
Qed.

Lemma var_call_opening level c post :
  exists X, var_call_text level c ++ post = CONSOLE ++ txt level ++ X.
Proof.
  unfold var_call_text, CONSOLE. rewrite <- !app_assoc. eexists. reflexivity.
Qed.

Lemma simple_call_opening level c post :
  exists X, simple_call_text level c ++ post = CONSOLE ++ txt level ++ X.
Proof.
  unfold simple_call_text, CONSOLE. rewrite <- !app_assoc. eexists. reflexivity.
Qed.

Lemma template_call_opening level c post :
  exists X, template_call_text level c ++ post = CONSOLE ++ txt level ++ X.
Proof.
  unfold template_call_text, CONSOLE. rewrite <- !app_assoc. eexists. reflexivity.
Qed.

Lemma backticks_paired_spec c :
  backticks_paired c = true -> vc_open c = BQ -> vc_close c = BQ.
Proof.
  unfold backticks_paired. intros H E. rewrite E, Ascii.eqb_refl in H.
  apply Ascii.eqb_eq. exact H.
Qed.

Lemma levels_error_warn level :
  In level ["error"; "warn"]%string -> In level levels.
Proof. intros [<- | [<- | []]]; cbn; auto. Qed.

(** Property X1.  refactor-logger.py, a call console.error or
    console.warn with a quoted message and a variable, in a text
    otherwise free of [console.]: the three rewriting functions turn
    the call into a logError call with the variable first and the
    cleaned message second, and keep every other character.  When the
    text before the call holds the logger import, [refactor_file]
    computes that text and counts one converted statement. *)
Theorem logger_call_with_variable
        (level : string) (pre : text) (c : var_call) (post : text) :
  In level ["error"; "warn"]%string ->
  var_call_ok c = true -> backticks_paired c = true ->
  console_free pre -> console_free post ->
  console_free (vc_msg c) -> console_free (clean_msg (vc_msg c)) ->
  refactor_calls (pre ++ var_call_text level c ++ post)
  = pre ++ log_error_call (vc_var c) (clean_msg (vc_msg c)) ++ post
  /\ (has_logger_import pre = true ->
      refactor_text (pre ++ var_call_text level c ++ post)
      = (pre ++ log_error_call (vc_var c) (clean_msg (vc_msg c)) ++ post, 1%Z)).
Proof.
  intros Hl Hc Hq Hpre Hpost Hraw Hm.
  pose proof (backticks_paired_spec c Hq) as Hq'. clear Hq. rename Hq' into Hq.
  pose proof (var_call_rewritten level pre c post Hl Hc Hq Hpre Hpost Hraw Hm)
    as Hout.
  split; [exact Hout|]. intros Hi.
  assert (Hv : forallb is_word (vc_var c) = true).
  { unfold var_call_ok in Hc. rewrite !andb_true_iff in Hc. tauto. }
  apply (refactor_text_call level pre _ post _ 0);
    auto using levels_error_warn, var_call_opening.
  - apply free_var_call_tail; auto using levels_error_warn.
  - apply count_console_free, free_log_error_call; auto.
Qed.

Lemma logger_call_with_variable_witness :
  refactor_text
    (IMPORT_LINE ++ [LF] ++ var_call_text "warn" Samples.bracket_call ++ txt ";")
  = (IMPORT_LINE ++ [LF]
       ++ log_error_call (txt "err") (txt "Comp Failed:") ++ txt ";", 1%Z).
Proof.
  apply (proj2 (logger_call_with_variable "warn" (IMPORT_LINE ++ [LF])
                  Samples.bracket_call (txt ";")
                  (or_intror (or_introl eq_refl)) eq_refl
                  eq_refl eq_refl eq_refl eq_refl eq_refl)).
  reflexivity.
Defined.

(** Property X2.  refactor-logger.py has no rule for
    console.log with a quoted message and a variable: such a call
    comes back unchanged, and [refactor_file] counts no converted
    statement. *)
Theorem logger_log_with_variable_untouched
        (pre : text) (c : var_call) (post : text) :
  var_call_ok c = true -> backticks_paired c = true ->
  console_free pre -> console_free post -> console_free (vc_msg c) ->
  refactor_calls (pre ++ var_call_text "log" c ++ post)
  = pre ++ var_call_text "log" c ++ post
  /\ (has_logger_import pre = true ->
      refactor_text (pre ++ var_call_text "log" c ++ post)
      = (pre ++ var_call_text "log" c ++ post, 0%Z)).
Proof.
  intros Hc Hq Hpre Hpost Hraw. pose proof (backticks_paired_spec c Hq) as Hq'. clear Hq. rename Hq' into Hq.
  pose proof (var_call_log_untouched pre c post Hc Hq Hpre Hpost Hraw) as Hout.
  split; [exact Hout|]. intros Hi.
  assert (Hl : In "log"%string levels) by (left; reflexivity).
  assert (Htail : console_free (skipn 1 (var_call_text "log" c ++ post)))
    by (apply free_var_call_tail; auto).
  apply (refactor_text_call "log" pre _ post _ 1);
    auto using var_call_opening.
  destruct (var_call_opening "log" c post) as [X EX]. rewrite EX in *.
  apply count_console_one_call; auto.
Qed.

Lemma logger_log_with_variable_untouched_witness :
  refactor_text
    ((IMPORT_LINE ++ [LF]) ++ var_call_text "log" Samples.failed_var_call
       ++ txt ";")
  = ((IMPORT_LINE ++ [LF]) ++ var_call_text "log" Samples.failed_var_call
       ++ txt ";", 0%Z).
Proof.
  apply (proj2 (logger_log_with_variable_untouched (IMPORT_LINE ++ [LF])
                  Samples.failed_var_call (txt ";")
                  eq_refl eq_refl eq_refl eq_refl eq_refl)).
  reflexivity.
Defined.

(** Property X3.  refactor-logger.py, a call of any of the
    three levels whose only argument is a message that opens with a
    single or a double quote: the call becomes log.info, log.warn or
    log.error of an object whose message is the original one,
    character for character, between double quotes; one statement is
    counted. *)
Theorem logger_call_with_message
        (level : string) (pre : text) (c : simple_call) (post : text) :
  In level levels ->
  simple_call_ok c = true -> Ascii.eqb (sc_open c) BQ = false ->
  console_free pre -> console_free post -> console_free (sc_msg c) ->
  refactor_calls (pre ++ simple_call_text level c ++ post)
  = pre ++ emit_msg (target_of level) (sc_msg c) ++ post
  /\ (has_logger_import pre = true ->
      refactor_text (pre ++ simple_call_text level c ++ post)
      = (pre ++ emit_msg (target_of level) (sc_msg c) ++ post, 1%Z)).
Proof.
  intros Hl Hc Hq Hpre Hpost Hm. apply Ascii.eqb_neq in Hq.
  pose proof (simple_call_rewritten level pre c post Hl Hc Hq Hpre Hpost Hm)
    as Hout.
  split; [exact Hout|]. intros Hi.
  apply (refactor_text_call level pre _ post _ 0);
    auto using simple_call_opening.
  - apply free_simple_call_tail; auto.
  - apply count_console_free, free_emit_msg; auto using target_in.
Qed.

Lemma logger_call_with_message_witness :
  refactor_text
    ((IMPORT_LINE ++ [LF])
       ++ simple_call_text "log"
            (mkSimpleCall [] SQ (txt "Starting process") SQ [])
       ++ txt ";")
  = ((IMPORT_LINE ++ [LF]) ++ emit_msg "info" (txt "Starting process")
       ++ txt ";", 1%Z).
Proof.
  apply (proj2 (logger_call_with_message "log" (IMPORT_LINE ++ [LF])
                  (mkSimpleCall [] SQ (txt "Starting process") SQ []) (txt ";")
                  (or_introl eq_refl) eq_refl eq_refl
                  eq_refl eq_refl eq_refl)).
  reflexivity.
Defined.



(** ** [add_logger_import] *)

Lemma line_in_join l ls : In l ls -> contains l (join_lines ls) = true.
Proof.
  induction ls as [|x xs IH]; intros H; [destruct H|].
  rewrite join_lines_cons. destruct H as [-> | H].
  - apply (contains_intro l []).
  - specialize (IH H). destruct xs as [|y ys]; [destruct H|].
    apply contains_iff in IH. destruct IH as (a & b & E).
    apply contains_iff. exists (x ++ LF :: a), b.
    rewrite E, <- !app_assoc. reflexivity.
Qed.

(** Property X5.  After [add_logger_import] the text has
    a logger import, and a second application changes nothing. *)
Theorem add_logger_import_settles (c : text) :
  has_logger_import (add_logger_import c) = true
  /\ add_logger_import (add_logger_import c) = add_logger_import c.
Proof.
  assert (H : has_logger_import (add_logger_import c) = true).
  { destruct (has_logger_import c) eqn:Hi.
    - unfold add_logger_import. rewrite Hi. exact Hi.
    - destruct (Logger_facts.add_logger_import_place c Hi)
        as [[_ Ht] | (b & l & a & _ & _ & _ & Ea)].
      + rewrite Ht.
        apply (has_logger_import_contains IMPORT_LINE);
          [apply logger_import_in_line | apply (contains_intro _ [])].
      + rewrite Ea.
        apply (has_logger_import_contains IMPORT_LINE);
          [apply logger_import_in_line|].
        apply line_in_join. apply in_or_app. right. right. left. reflexivity. }
  split; [exact H|].
  unfold add_logger_import at 1. rewrite H. reflexivity.
Qed.

(** ** Which lines count as import statements *)

Lemma star_go_total p k :
  forall s b,
    (forall b' a t, s = a ++ t -> k b' t <> None) ->
    star_go p b s k <> None.
Proof.
  induction s as [|c s IH]; intros b H; cbn [star_go].
  - apply (H b [] []). reflexivity.
  - destruct (p c).
    + destruct (star_go p false s k) eqn:E; [discriminate|].
      apply (H b [] (c :: s)). reflexivity.
    + apply (H b [] (c :: s)). reflexivity.
Qed.

Lemma lazy_go_total k :
  forall t b,
    forallb dot t = true -> (forall b', k b' [] <> None) ->
    lazy_go dot b t k <> None.
Proof.
  induction t as [|c t IH]; intros b Ht Hk; cbn [lazy_go].
  - destruct (k b []) eqn:E; [discriminate | exfalso; exact (Hk b E)].
  - destruct (k b (c :: t)); [discriminate|].
    cbn [forallb] in Ht. apply andb_true_iff in Ht. destruct Ht as [Hc Ht].
    rewrite Hc. apply IH; assumption.
Qed.

Lemma no_lf_dot s : no_lf s -> forallb dot s = true.
Proof.
  unfold no_lf. intros H. apply forallb_forall. intros x Hx. unfold dot.
  apply negb_true_iff, Ascii.eqb_neq. intros ->. exact (H Hx).
Qed.

Lemma import_pattern_inv s o :
  re_match import_pattern s = Some o ->
  exists w rest, s = txt "import" ++ w :: rest /\ is_space w = true.
Proof.
  unfold re_match, match_here, import_pattern. cbn [rmatch]. intros H.
  destruct (lit_go (txt "import") s) as [s1|] eqn:E; [|discriminate].
  apply lit_go_some in E. destruct s1 as [|w rest]; [discriminate|].
  destruct (is_space w) eqn:Hw; [|discriminate]. eauto.
Qed.

Lemma import_pattern_matches w rest :
  is_space w = true -> no_lf rest ->
  re_match import_pattern (txt "import" ++ w :: rest) <> None.
Proof.
  intros Hw Hno. unfold re_match, match_here, import_pattern. cbn [rmatch].
  rewrite lit_go_app, Hw. apply star_go_total. intros b' a t E.
  apply lazy_go_total.
  - apply no_lf_dot. unfold no_lf in *. intros Hin. apply Hno.
    rewrite E. apply in_or_app. right. exact Hin.
  - intros b''. cbn. discriminate.
Qed.

Lemma strip_no_lf l : no_lf l -> no_lf (strip l).
Proof. unfold no_lf. intros H Hin. apply H, strip_incl, Hin. Qed.

(** Property X6.  [add_logger_import] takes a line (without line
    feed) for an import statement exactly when the line, with the white
    space at its ends removed, starts with [import] followed by a
    white-space character; nothing else about the line matters. *)
Theorem import_line_shape (l : text) :
  no_lf l ->
  (is_import_line l = true <->
   exists w rest, strip l = txt "import" ++ w :: rest /\ is_space w = true).
Proof.
  intros Hno. unfold is_import_line. split.
  - destruct (re_match import_pattern (strip l)) as [o|] eqn:E; [|discriminate].
    intros _. exact (import_pattern_inv _ _ E).
  - intros (w & rest & E & Hw).
    destruct (re_match import_pattern (strip l)) as [o|] eqn:Em; [reflexivity|].
    exfalso. rewrite E in Em. revert Em. apply import_pattern_matches; [exact Hw|].
    pose proof (strip_no_lf l Hno) as Hs. rewrite E in Hs.
    unfold no_lf in *. intros Hin. apply Hs. apply in_or_app. right. right.
    exact Hin.
Qed.

Lemma import_line_shape_witness :
  is_import_line (txt "  import x from 'y'  ") = true.
Proof.
  apply (proj2 (import_line_shape (txt "  import x from 'y'  ")
                  ltac:(unfold no_lf; cbv; intuition discriminate))).
  exists " "%char, (txt "x from 'y'"). split; reflexivity.
Defined.

(** ** Each function keeps to its level *)

Lemma lit3_fails (a b c : string) r bol t :
  starts_with (txt a ++ txt b ++ txt c) t = false ->
  match_here (Seq (Lit a) (Seq (Lit b) (Seq (Lit c) r))) bol t = None.
Proof.
  intros H. unfold match_here. cbn [rmatch].
  destruct (lit_go (txt a) t) as [t1|] eqn:E1; [|reflexivity].
  destruct (lit_go (txt b) t1) as [t2|] eqn:E2; [|reflexivity].
  destruct (lit_go (txt c) t2) as [t3|] eqn:E3; [|reflexivity].
  apply lit_go_some in E1, E2, E3. subst.
  assert (Hs : starts_with (txt a ++ txt b ++ txt c)
                 (txt a ++ txt b ++ txt c ++ t3) = true).
  { apply starts_with_iff. exists t3. rewrite <- !app_assoc. reflexivity. }
  congruence.
Qed.

Lemma pass_keeps_without_opening (a b c : string) r f s :
  contains (txt a ++ txt b ++ txt c) s = false ->
  re_sub (Seq (Lit a) (Seq (Lit b) (Seq (Lit c) r))) f s = s.
Proof.
  intros H. apply re_sub_no_hit, scan_never_matches. intros x t b' ->.
  apply lit3_fails. apply (contains_false_suffix _ x t H).
Qed.

(** Property X7.  Each of the three rewriting functions
    of refactor-logger.py returns unchanged a text that does not hold
    the opening of a call of its level. *)
Theorem function_keeps_to_its_level (c : text) :
  (contains (txt "console.error(") c = false -> refactor_console_error c = c)
  /\ (contains (txt "console.warn(") c = false -> refactor_console_warn c = c)
  /\ (contains (txt "console.log(") c = false -> refactor_console_log c = c).
Proof.
  split; [|split]; intros H.
  - unfold refactor_console_error, with_var_pattern, template_pattern,
      simple_pattern.
    repeat rewrite (pass_keeps_without_opening "console." "error" "(" _ _ c H).
    reflexivity.
  - unfold refactor_console_warn, with_var_pattern, template_pattern,
      simple_pattern.
    repeat rewrite (pass_keeps_without_opening "console." "warn" "(" _ _ c H).
    reflexivity.
  - unfold refactor_console_log, template_pattern, simple_pattern.
    repeat rewrite (pass_keeps_without_opening "console." "log" "(" _ _ c H).
    reflexivity.
Qed.

Lemma function_keeps_to_its_level_witness :
  refactor_console_error Samples.unmatched_call = Samples.unmatched_call
  /\ refactor_console_warn Samples.failed_call = Samples.failed_call
  /\ refactor_console_log Samples.failed_call = Samples.failed_call.
Proof.
  split; [|split].
  - apply (proj1 (function_keeps_to_its_level Samples.unmatched_call)).
    reflexivity.
  - apply (proj1 (proj2 (function_keeps_to_its_level Samples.failed_call))).
    reflexivity.
  - apply (proj2 (proj2 (function_keeps_to_its_level Samples.failed_call))).
    reflexivity.
Defined.

End Logger_call_facts.

(* ------------------------------------------------------------------ *)
(** ** refactor_logs.py: one call in a text *)

Section Logs_call_facts.
Import Logs_calls Logs_outputs.

Lemma stops_head (p : ascii -> bool) (d rest : text) (x : ascii) :
  match d with [] => true | y :: _ => negb (p y) end = true ->
  p x = false -> stops p (d ++ x :: rest).
Proof.
  destruct d as [|y d]; cbn; intros H Hx; [exact Hx|].
  apply negb_true_iff in H. exact H.
Qed.

Lemma plain_match level c post b :
  plain_call_ok c = true ->
  match_here (Logs.plain_pattern level) b (plain_call_text level c ++ post)
  = Some ([(2, pc_data c); (1, pc_msg c)], post).
Proof.
  destruct c as [msg gap data]. unfold plain_call_ok, plain_call_text.
  cbn [pc_msg pc_gap pc_data]. rewrite !andb_true_iff.
  intros [[[H1 H2] H3] H4].
  unfold match_here, Logs.plain_pattern.
  change (txt "',") with ("'"%char :: txt ",").
  change (txt ");") with (")"%char :: txt ";").
  repeat (rewrite <- app_assoc || rewrite <- app_comm_cons).
  seq_step rmatch_lit.
  seq_step rmatch_lit.
  seq_step rmatch_lit.
  seq_step rmatch_grp_star; [exact H1 | reflexivity |].
  change ("'"%char :: txt "," ++ gap ++ data ++ ")"%char :: txt ";" ++ post)
    with (txt "'," ++ gap ++ data ++ ")"%char :: txt ";" ++ post).
  seq_step rmatch_lit.
  seq_step rmatch_star; [exact H2 | apply stops_head; [exact H4 | reflexivity] |].
  seq_step rmatch_grp_star; [exact H3 | reflexivity |].
  change (")"%char :: txt ";" ++ post) with (txt ");" ++ post).
  apply rmatch_lit. intros _. reflexivity.
Qed.

Lemma rmatch_opt_take r b s cs k o :
  rmatch r b s cs k = Some o -> rmatch (Opt r) b s cs k = Some o.
Proof. intros H. cbn [rmatch]. rewrite H. reflexivity. Qed.

Lemma rmatch_opt_skip r b s cs k o :
  rmatch r b s cs k = None -> k b s cs = Some o ->
  rmatch (Opt r) b s cs k = Some o.
Proof. intros H Hk. cbn [rmatch]. rewrite H. exact Hk. Qed.

Lemma upper_us_not_brace : Logs.upper_us "}" = false.
Proof. reflexivity. Qed.

Lemma icons_match level c post b :
  icons_call_ok c = true ->
  match_here (Logs.icons_pattern level) b (icons_call_text level c ++ post)
  = Some (icons_caps c, post).
Proof.
  destruct c as [name lead msg data]. unfold icons_call_ok, icons_call_text,
    icons_caps.
  cbn [ic_name ic_lead ic_msg ic_data]. rewrite !andb_true_iff.
  intros [[[[[H1 H2] H3] H4] H5] H6].
  unfold match_here, Logs.icons_pattern.
  change (txt "}") with ["}"%char]. change (txt "`") with ["`"%char].
  repeat (rewrite <- app_assoc || rewrite <- app_comm_cons).
  cbn [app].
  seq_step rmatch_lit.
  seq_step rmatch_lit.
  seq_step rmatch_lit.
  seq_step rmatch_plus; [apply nonempty_ne, H1 | exact H2 | reflexivity |].
  change ("}"%char :: lead ++ msg ++ "`"%char :: icons_data_text data
            ++ txt ");" ++ post)
    with (txt "}" ++ lead ++ msg ++ "`"%char :: icons_data_text data
            ++ txt ");" ++ post).
  seq_step rmatch_lit.
  seq_step rmatch_star; [exact H3 | apply stops_head; [exact H5 | reflexivity] |].
  seq_step rmatch_grp_star; [exact H4 | reflexivity |].
  change ("`"%char :: icons_data_text data ++ txt ");" ++ post)
    with (txt "`" ++ icons_data_text data ++ txt ");" ++ post).
  seq_step rmatch_lit.
  rewrite rmatch_seq.
  destruct data as [[gap d]|]; cbn [icons_data_text icons_data_ok] in *.
  - rewrite !andb_true_iff in H6. destruct H6 as [[G1 G2] G3].
    apply rmatch_opt_take.
    change (txt ");") with (")"%char :: txt ";").
    repeat (rewrite <- app_assoc || rewrite <- app_comm_cons).
    seq_step rmatch_lit.
    seq_step rmatch_star; [exact G1 | apply stops_head; [exact G3 | reflexivity] |].
    apply rmatch_grp_star; [exact G2 | reflexivity |].
    intros ?. cbv beta.
    change (")"%char :: txt ";" ++ post) with (txt ");" ++ post).
    apply rmatch_lit. intros _. reflexivity.
  - cbn [app]. apply rmatch_opt_skip.
    + apply (seq_lit_mismatch "," _ ","%char); [reflexivity | discriminate].
    + cbv beta. apply rmatch_lit. intros _. reflexivity.
Qed.

(** ** One pass of refactor_logs.py over a text with one call *)

Lemma logs_pass_free r f s n :
  console_free s -> Logs.pass (Seq (Lit "console.") r) f (s, n) = (s, n).
Proof.
  intros H. unfold Logs.pass.
  rewrite (pass_keeps_free r f s H), (re_count_lit_absent "console." r s H).
  rewrite Nat.add_0_r. reflexivity.
Qed.

Lemma logs_pass_misses r f pre call post n :
  bol_free r = true -> starts_with CONSOLE call = true ->
  console_free pre -> console_free (skipn 1 (call ++ post)) ->
  match_here (Seq (Lit "console.") r) true (call ++ post) = None ->
  Logs.pass (Seq (Lit "console.") r) f (pre ++ call ++ post, n)
  = (pre ++ call ++ post, n).
Proof.
  intros Hr Hs Hpre Htail Hm. unfold Logs.pass.
  destruct (miss_call_in_context r f Hr pre call post Hs Hpre Htail Hm)
    as [E1 E2].
  rewrite E1, E2, Nat.add_0_r. reflexivity.
Qed.

Lemma logs_pass_hits r f pre call post cs n :
  bol_free r = true -> starts_with CONSOLE call = true ->
  console_free pre -> console_free post ->
  match_here (Seq (Lit "console.") r) true (call ++ post) = Some (cs, post) ->
  Logs.pass (Seq (Lit "console.") r) f (pre ++ call ++ post, n)
  = (pre ++ f cs ++ post, n + 1).
Proof.
  intros Hr Hs Hpre Hpost Hm. unfold Logs.pass.
  destruct (sub_call_in_context r f Hr pre call post cs Hs Hpre Hpost Hm)
    as [E1 E2].
  rewrite E1, E2. reflexivity.
Qed.

(** A pattern for the same level with another opening fails where the
    call starts. *)
Lemma second_literal_fails (w1 w2 : string) r b s :
  lit_go (txt w2) s = None ->
  match_here (Seq (Lit "console.") (Seq (Lit w1) (Seq (Lit w2) r))) b
    (CONSOLE ++ txt w1 ++ s) = None.
Proof.
  intros H. unfold match_here. cbn [rmatch].
  change (txt "console.") with CONSOLE. rewrite !lit_go_app, H. reflexivity.
Qed.

(** ** Free of [console.]: the calls and what is emitted *)

Lemma free_cons x s : ~ In x CONSOLE -> console_free s -> console_free (x :: s).
Proof. intros Hx Hs. apply (free_sep [] x s Hx free_nil Hs). Qed.

Lemma free_plain_call_tail level c post :
  In level levels -> plain_call_ok c = true ->
  console_free (pc_msg c) -> console_free (pc_data c) -> console_free post ->
  console_free (skipn 1 (plain_call_text level c ++ post)).
Proof.
  intros Hl Hc Hm Hd Hpost. destruct c as [msg gap data].
  unfold plain_call_ok in Hc. cbn [pc_msg pc_gap pc_data] in *.
  rewrite !andb_true_iff in Hc. destruct Hc as [[[H1 H2] H3] H4].
  replace (plain_call_text level
             {| pc_msg := msg; pc_gap := gap; pc_data := data |} ++ post)
    with (CONSOLE ++ txt level ++ "("%char :: [] ++ "'"%char :: msg
            ++ "'"%char :: [] ++ ","%char :: gap ++ data
            ++ ")"%char :: ";"%char :: post)
    by (unfold plain_call_text, CONSOLE; cbn [pc_msg pc_gap pc_data];
        change (txt "('") with ["("%char; "'"%char];
        change (txt "',") with ["'"%char; ","%char];
        change (txt ");") with [")"%char; ";"%char];
        repeat (rewrite <- app_assoc || rewrite <- app_comm_cons); reflexivity).
  apply console_tail.
  apply free_sep; [foreign | |].
  { destruct Hl as [<- | [<- | [<- | []]]]; reflexivity. }
  apply free_sep; [foreign | apply free_nil |].
  apply free_sep; [foreign | exact Hm |].
  apply free_sep; [foreign | apply free_nil |].
  apply free_spaces; [exact H2|].
  apply free_sep; [foreign | exact Hd |].
  apply free_cons; [foreign | exact Hpost].
Qed.

Lemma free_info_plain pre msg data post :
  console_free pre -> console_free msg -> console_free data ->
  console_free post ->
  console_free (pre ++ info_plain msg data ++ post).
Proof.
  intros Hpre Hm Hd Hpost.
  replace (pre ++ info_plain msg data ++ post)
    with ((pre ++ txt "lo") ++ "g"%char :: txt ".info" ++ "("%char
            :: txt "{ msg: " ++ "'"%char :: msg ++ "'"%char :: []
            ++ ","%char :: [] ++ " "%char :: data ++ " "%char :: txt "}"
            ++ ")"%char :: ";"%char :: post)
    by (unfold info_plain; cbn [txt list_ascii_of_string];
        repeat (rewrite <- app_assoc || rewrite <- app_comm_cons); reflexivity).
  apply free_sep; [foreign | apply free_app_dotless; [foreign | exact Hpre] |].
  apply free_sep; [foreign | reflexivity |].
  apply free_sep; [foreign | reflexivity |].
  apply free_sep; [foreign | exact Hm |].
  apply free_sep; [foreign | apply free_nil |].
  apply free_sep; [foreign | apply free_nil |].
  apply free_sep; [foreign | exact Hd |].
  apply free_sep; [foreign | reflexivity |].
  apply free_cons; [foreign | exact Hpost].
Qed.

Lemma free_error_tail msg post :
  console_free msg -> console_free post ->
  console_free (","%char :: " "%char :: "'"%char :: msg ++ "'"%char
                  :: txt ", { component: " ++ "'"%char :: txt "todo"
                  ++ "'"%char :: txt " }" ++ ")"%char :: ";"%char :: post).
Proof.
  intros Hm Hpost.
  apply free_cons; [foreign|]. apply free_cons; [foreign|].
  apply free_cons; [foreign|].
  apply free_sep; [foreign | exact Hm |].
  apply free_sep; [foreign | reflexivity |].
  apply free_sep; [foreign | reflexivity |].
  apply free_sep; [foreign | reflexivity |].
  apply free_cons; [foreign | exact Hpost].
Qed.


Lemma free_strip s : console_free s -> console_free (strip s).
Proof.
  intros H. destruct (strip_spec s) as (sp1 & sp2 & E & _).
  unfold console_free in *. rewrite E in H.
  apply contains_app_false_r in H. apply contains_app_false_l in H. exact H.
Qed.

Lemma free_dot_cons s : console_free s -> console_free ("."%char :: s).
Proof.
  unfold console_free, CONSOLE. intros H.
  cbn [txt list_ascii_of_string contains starts_with Ascii.eqb Bool.eqb andb orb].
  exact H.
Qed.

Lemma upper_us_foreign name :
  forallb Logs.upper_us name = true -> forall x, In x name -> ~ In x CONSOLE.
Proof.
  intros H x Hx. rewrite forallb_forall in H. specialize (H x Hx).
  intros Hin. cbv in Hin.
  repeat (destruct Hin as [<- | Hin]; [discriminate H|]). exact Hin.
Qed.

Lemma free_icons_data_tail d post :
  icons_data_ok d = true ->
  console_free (match d with None => [] | Some (_, data) => data end) ->
  console_free post ->
  console_free (icons_data_text d ++ ")"%char :: ";"%char :: post).
Proof.
  intros Hok Hd Hpost. destruct d as [[gap data]|]; cbn [icons_data_text].
  - cbn [icons_data_ok] in Hok. rewrite !andb_true_iff in Hok.
    destruct Hok as [[G1 G2] G3].
    change (txt ",") with [","%char].
    repeat (rewrite <- app_assoc || rewrite <- app_comm_cons). cbn [app].
    apply free_cons; [foreign|].
    apply free_spaces; [exact G1|].
    apply free_sep; [foreign | exact Hd |].
    apply free_cons; [foreign | exact Hpost].
  - cbn [app]. apply free_cons; [foreign|].
    apply free_cons; [foreign | exact Hpost].
Qed.

Lemma free_icons_call_tail level c post :
  In level levels -> icons_call_ok c = true ->
  console_free (ic_msg c) -> console_free (data_of c) -> console_free post ->
  console_free (skipn 1 (icons_call_text level c ++ post)).
Proof.
  intros Hl Hc Hm Hd Hpost. destruct c as [name lead msg data].
  unfold icons_call_ok in Hc. unfold data_of in Hd.
  cbn [ic_name ic_lead ic_msg ic_data] in *.
  rewrite !andb_true_iff in Hc. destruct Hc as [[[[[H1 H2] H3] H4] H5] H6].
  replace (icons_call_text level
             {| ic_name := name; ic_lead := lead; ic_msg := msg;
                ic_data := data |} ++ post)
    with (CONSOLE ++ txt level ++ "("%char :: [] ++ "`"%char :: []
            ++ "$"%char :: [] ++ "{"%char :: (txt "ICONS." ++ name)
            ++ "}"%char :: lead ++ msg ++ "`"%char
            :: icons_data_text data ++ ")"%char :: ";"%char :: post)
    by (unfold icons_call_text, CONSOLE; cbn [ic_name ic_lead ic_msg ic_data];
        change (txt "(`${ICONS.")
          with ("("%char :: "`"%char :: "$"%char :: "{"%char :: txt "ICONS.");
        change (txt "}") with ["}"%char]; change (txt "`") with ["`"%char];
        change (txt ");") with [")"%char; ";"%char];
        repeat (rewrite <- app_assoc || rewrite <- app_comm_cons); reflexivity).
  apply console_tail.
  apply free_sep; [foreign | |].
  { destruct Hl as [<- | [<- | [<- | []]]]; reflexivity. }
  apply free_sep; [foreign | apply free_nil |].
  apply free_sep; [foreign | apply free_nil |].
  apply free_sep; [foreign | apply free_nil |].
  apply free_sep; [foreign | |].
  { cbn [txt list_ascii_of_string app].
    do 5 (apply free_cons; [foreign|]).
    apply free_dot_cons.
    rewrite <- (app_nil_r name).
    apply free_foreign_app; [apply upper_us_foreign, H2 | apply free_nil]. }
  apply free_spaces; [exact H3|].
  apply free_sep; [foreign | exact Hm |].
  apply free_icons_data_tail; assumption.
Qed.

Lemma free_info_data_tail data post :
  console_free data -> console_free post ->
  console_free ((match data with [] => [] | _ => txt ", " ++ data end)
                  ++ " "%char :: txt "}" ++ ")"%char :: ";"%char :: post).
Proof.
  intros Hd Hpost.
  assert (T : console_free (txt "}" ++ ")"%char :: ";"%char :: post)).
  { apply free_sep; [foreign | reflexivity |].
    apply free_cons; [foreign | exact Hpost]. }
  destruct data as [|d data].
  - cbn [app]. apply free_cons; [foreign | exact T].
  - change (txt ", ") with [","%char; " "%char]. cbn [app].
    apply free_cons; [foreign|]. apply free_cons; [foreign|].
    rewrite app_comm_cons.
    apply free_sep; [foreign | exact Hd | exact T].
Qed.

Lemma free_icons_info target pre msg data post :
  In target ["info"; "warn"]%string ->
  console_free pre -> console_free msg -> console_free data ->
  console_free post ->
  console_free (pre ++ icons_info target msg data ++ post).
Proof.
  intros Ht Hpre Hm Hd Hpost.
  replace (pre ++ icons_info target msg data ++ post)
    with ((pre ++ txt "lo") ++ "g"%char :: ("."%char :: txt target)
            ++ "("%char :: txt "{ msg: " ++ "'"%char :: msg ++ "'"%char
            :: txt ", component: " ++ "'"%char :: txt "todo" ++ "'"%char
            :: (match data with [] => [] | _ => txt ", " ++ data end)
            ++ " "%char :: txt "}" ++ ")"%char :: ";"%char :: post)
    by (unfold icons_info; cbn [txt list_ascii_of_string];
        repeat (rewrite <- app_assoc || rewrite <- app_comm_cons); reflexivity).
  apply free_sep; [foreign | apply free_app_dotless; [foreign | exact Hpre] |].
  apply free_sep; [foreign | |].
  { destruct Ht as [<- | [<- | []]]; reflexivity. }
  apply free_sep; [foreign | reflexivity |].
  apply free_sep; [foreign | exact Hm |].
  apply free_sep; [foreign | reflexivity |].
  apply free_sep; [foreign | reflexivity |].
  apply free_info_data_tail; assumption.
Qed.

Lemma free_icons_error pre msg data post :
  console_free pre -> console_free msg -> console_free data ->
  console_free post ->
  console_free (pre ++ icons_error msg data ++ post).
Proof.
  intros Hpre Hm Hd Hpost.
  pose proof (free_error_tail msg post Hm Hpost) as Ht.
  apply (free_sep_inv [] ","%char) in Ht; [destruct Ht as [_ Ht] | foreign].
  destruct data as [|d data].
  - replace (pre ++ icons_error msg [] ++ post)
      with ((pre ++ txt "logError") ++ "("%char :: txt "new Error"
              ++ "("%char :: [] ++ DQ :: msg ++ DQ :: [] ++ ")"%char :: []
              ++ ","%char :: " "%char :: "'"%char :: msg ++ "'"%char
              :: txt ", { component: " ++ "'"%char :: txt "todo"
              ++ "'"%char :: txt " }" ++ ")"%char :: ";"%char :: post)
      by (unfold icons_error; cbn [txt list_ascii_of_string];
          repeat (rewrite <- app_assoc || rewrite <- app_comm_cons);
          reflexivity).
    apply free_sep; [foreign | apply free_app_dotless; [foreign | exact Hpre] |].
    apply free_sep; [foreign | reflexivity |].
    apply free_sep; [foreign | apply free_nil |].
    apply free_sep; [foreign | exact Hm |].
    apply free_sep; [foreign | apply free_nil |].
    apply free_sep; [foreign | apply free_nil | exact Ht].
  - replace (pre ++ icons_error msg (d :: data) ++ post)
      with ((pre ++ txt "logError") ++ "("%char :: (d :: data)
              ++ ","%char :: " "%char :: "'"%char :: msg ++ "'"%char
              :: txt ", { component: " ++ "'"%char :: txt "todo"
              ++ "'"%char :: txt " }" ++ ")"%char :: ";"%char :: post)
      by (unfold icons_error; cbn [txt list_ascii_of_string];
          repeat (rewrite <- app_assoc || rewrite <- app_comm_cons);
          reflexivity).
    apply free_sep; [foreign | apply free_app_dotless; [foreign | exact Hpre] |].
    apply free_sep; [foreign | exact Hd | exact Ht].
Qed.

Ltac logs_unfold :=
  unfold Logs.refactor_text, Logs.passes, Logs.pattern1, Logs.pattern2,
    Logs.pattern3, Logs.pattern4, Logs.pattern5, Logs.icons_pattern,
    Logs.plain_pattern.

Ltac call_fails :=
  unfold plain_call_text, icons_call_text; rewrite <- ?app_assoc;
  change (txt "console.") with CONSOLE;
  first [ apply other_literal_fails; reflexivity
        | apply second_literal_fails; reflexivity ].

Ltac logs_miss Hpre Htail :=
  rewrite logs_pass_misses;
  [ | reflexivity | reflexivity | exact Hpre | exact Htail | call_fails ].

Lemma plain_call_log pre c post :
  plain_call_ok c = true ->
  console_free pre -> console_free post ->
  console_free (pc_msg c) -> console_free (pc_data c) ->
  Logs.refactor_text (pre ++ plain_call_text "log" c ++ post)
  = (1, Logs.add_import 1
          (pre ++ info_plain (pc_msg c) (pc_data c) ++ post)).
Proof.
  intros Hc Hpre Hpost Hm Hd.
  pose proof (free_plain_call_tail "log" c post
                (or_introl eq_refl) Hc Hm Hd Hpost) as Htail.
  logs_unfold.
  logs_miss Hpre Htail. logs_miss Hpre Htail. logs_miss Hpre Htail.
  rewrite (logs_pass_hits _ Logs.replace4 pre (plain_call_text "log" c) post
             [(2, pc_data c); (1, pc_msg c)] 0);
    [ | reflexivity | reflexivity | exact Hpre | exact Hpost
      | apply (plain_match "log" c post true Hc) ].
  change (Logs.replace4 [(2, pc_data c); (1, pc_msg c)])
    with (info_plain (pc_msg c) (pc_data c)).
  rewrite logs_pass_free
    by (apply free_info_plain; assumption).
  reflexivity.
Qed.

Lemma plain_call_error pre c post :
  plain_call_ok c = true ->
  console_free pre -> console_free post ->
  console_free (pc_msg c) -> console_free (pc_data c) ->
  Logs.refactor_text (pre ++ plain_call_text "error" c ++ post)
  = (1, Logs.add_import 1
          (pre ++ error_plain (pc_msg c) (pc_data c) ++ post)).
Proof.
  intros Hc Hpre Hpost Hm Hd.
  pose proof (free_plain_call_tail "error" c post
                (or_intror (or_intror (or_introl eq_refl))) Hc Hm Hd Hpost)
    as Htail.
  logs_unfold.
  logs_miss Hpre Htail. logs_miss Hpre Htail. logs_miss Hpre Htail.
  logs_miss Hpre Htail.
  rewrite (logs_pass_hits _ Logs.replace5 pre (plain_call_text "error" c) post
             [(2, pc_data c); (1, pc_msg c)] 0);
    [ | reflexivity | reflexivity | exact Hpre | exact Hpost
      | apply (plain_match "error" c post true Hc) ].
  reflexivity.
Qed.

Lemma plain_call_warn pre c post :
  plain_call_ok c = true ->
  console_free pre -> console_free post ->
  console_free (pc_msg c) -> console_free (pc_data c) ->
  Logs.refactor_text (pre ++ plain_call_text "warn" c ++ post)
  = (0, pre ++ plain_call_text "warn" c ++ post).
Proof.
  intros Hc Hpre Hpost Hm Hd.
  pose proof (free_plain_call_tail "warn" c post
                (or_intror (or_introl eq_refl)) Hc Hm Hd Hpost) as Htail.
  logs_unfold.
  logs_miss Hpre Htail. logs_miss Hpre Htail. logs_miss Hpre Htail.
  logs_miss Hpre Htail. logs_miss Hpre Htail.
  reflexivity.
Qed.

Lemma replace_icons_caps target c :
  Logs.replace_icons target (icons_caps c)
  = icons_info target (strip (ic_msg c)) (data_of c).
Proof. destruct c as [name lead msg [[gap data]|]]; reflexivity. Qed.

Lemma replace3_caps c :
  Logs.replace3 (icons_caps c) = icons_error (strip (ic_msg c)) (data_of c).
Proof. destruct c as [name lead msg [[gap data]|]]; reflexivity. Qed.

Ltac logs_free H := rewrite logs_pass_free by exact H.

Lemma icons_call_log pre c post :
  icons_call_ok c = true ->
  console_free pre -> console_free post ->
  console_free (ic_msg c) -> console_free (data_of c) ->
  Logs.refactor_text (pre ++ icons_call_text "log" c ++ post)
  = (1, Logs.add_import 1
          (pre ++ icons_info "info" (strip (ic_msg c)) (data_of c) ++ post)).
Proof.
  intros Hc Hpre Hpost Hm Hd.
  pose proof (free_icons_info "info" pre (strip (ic_msg c)) (data_of c) post
                (or_introl eq_refl) Hpre (free_strip _ Hm) Hd Hpost) as Hout.
  logs_unfold.
  rewrite (logs_pass_hits _ Logs.replace1 pre (icons_call_text "log" c) post
             (icons_caps c) 0);
    [ | reflexivity | reflexivity | exact Hpre | exact Hpost
      | apply (icons_match "log" c post true Hc) ].
  unfold Logs.replace1. rewrite replace_icons_caps.
  logs_free Hout. logs_free Hout. logs_free Hout. logs_free Hout.
  reflexivity.
Qed.

Lemma icons_call_warn pre c post :
  icons_call_ok c = true ->
  console_free pre -> console_free post ->
  console_free (ic_msg c) -> console_free (data_of c) ->
  Logs.refactor_text (pre ++ icons_call_text "warn" c ++ post)
  = (1, Logs.add_import 1
          (pre ++ icons_info "warn" (strip (ic_msg c)) (data_of c) ++ post)).
Proof.
  intros Hc Hpre Hpost Hm Hd.
  pose proof (free_icons_info "warn" pre (strip (ic_msg c)) (data_of c) post
                (or_intror (or_introl eq_refl)) Hpre (free_strip _ Hm) Hd Hpost)
    as Hout.
  pose proof (free_icons_call_tail "warn" c post
                (or_intror (or_introl eq_refl)) Hc Hm Hd Hpost) as Htail.
  logs_unfold.
  logs_miss Hpre Htail.
  rewrite (logs_pass_hits _ Logs.replace2 pre (icons_call_text "warn" c) post
             (icons_caps c) 0);
    [ | reflexivity | reflexivity | exact Hpre | exact Hpost
      | apply (icons_match "warn" c post true Hc) ].
  unfold Logs.replace2. rewrite replace_icons_caps.
  logs_free Hout. logs_free Hout. logs_free Hout.
  reflexivity.
Qed.

Lemma icons_call_error pre c post :
  icons_call_ok c = true ->
  console_free pre -> console_free post ->
  console_free (ic_msg c) -> console_free (data_of c) ->
  Logs.refactor_text (pre ++ icons_call_text "error" c ++ post)
  = (1, Logs.add_import 1
          (pre ++ icons_error (strip (ic_msg c)) (data_of c) ++ post)).
Proof.
  intros Hc Hpre Hpost Hm Hd.
  pose proof (free_icons_error pre (strip (ic_msg c)) (data_of c) post
                Hpre (free_strip _ Hm) Hd Hpost) as Hout.
  pose proof (free_icons_call_tail "error" c post
                (or_intror (or_intror (or_introl eq_refl))) Hc Hm Hd Hpost)
    as Htail.
  logs_unfold.
  logs_miss Hpre Htail. logs_miss Hpre Htail.
  rewrite (logs_pass_hits _ Logs.replace3 pre (icons_call_text "error" c) post
             (icons_caps c) 0);
    [ | reflexivity | reflexivity | exact Hpre | exact Hpost
      | apply (icons_match "error" c post true Hc) ].
  rewrite replace3_caps.
  logs_free Hout. logs_free Hout.
  reflexivity.
Qed.

(** ** Searching forward *)

Lemma search_go_skip r :
  forall skipped b pre_rev s,
    (forall a t b', skipped = a ++ t -> t <> [] ->
                    match_here r b' (t ++ s) = None) ->
    forall cs rest,
      (forall b', match_here r b' s = Some (cs, rest)) ->
      search_go r b pre_rev (skipped ++ s)
      = Some (rev pre_rev ++ skipped, cs, rest).
Proof.
  induction skipped as [|x skipped IH]; intros b pre_rev s Hno cs rest Hm.
  - cbn [app]. destruct s as [|y s]; cbn [search_go]; rewrite Hm, app_nil_r;
      reflexivity.
  - cbn [app search_go].
    pose proof (Hno [] (x :: skipped) b eq_refl ltac:(discriminate)) as H0.
    cbn [app] in H0. rewrite H0.
    rewrite (IH false (x :: pre_rev) s) with (cs := cs) (rest := rest);
      [| | exact Hm].
    + cbn [rev]. rewrite <- app_assoc. reflexivity.
    + intros a t b' E Ht. apply (Hno (x :: a) t b'); [|exact Ht].
      rewrite E. reflexivity.
Qed.

Lemma search_go_none r :
  forall s b pre_rev,
    (forall a t b', s = a ++ t -> match_here r b' t = None) ->
    search_go r b pre_rev s = None.
Proof.
  induction s as [|x s IH]; intros b pre_rev Hno; cbn [search_go].
  - rewrite (Hno [] [] b eq_refl). reflexivity.
  - rewrite (Hno [] (x :: s) b eq_refl). apply IH.
    intros a t b' ->. apply (Hno (x :: a) t b'). reflexivity.
Qed.

(** ** The word [import ] *)

Lemma import_border_check :
  forallb (fun j => negb (starts_with (skipn j IMPORT_WORD) IMPORT_WORD))
          (seq 1 6) = true.
Proof. vm_compute. reflexivity. Qed.

Lemma import_not_before (t' rest : text) :
  t' <> [] -> contains IMPORT_WORD t' = false ->
  starts_with IMPORT_WORD (t' ++ IMPORT_WORD ++ rest) = false.
Proof.
  intros Hne Hc.
  destruct (starts_with IMPORT_WORD (t' ++ IMPORT_WORD ++ rest)) eqn:E;
    [|reflexivity].
  exfalso. apply starts_with_iff in E. destruct E as [u E].
  apply list_app_eq_split in E. destruct E as [l [[E1 E2] | [E1 E2]]].
  - subst t'. pose proof (contains_intro IMPORT_WORD [] l) as Hi.
    cbn [app] in Hi. congruence.
  - assert (Hlen : length t' + length l = 7).
    { rewrite <- length_app, <- E1. reflexivity. }
    assert (Hl : l = skipn (length t') IMPORT_WORD).
    { assert (Hk : skipn (length t') (t' ++ l) = l)
        by (rewrite skipn_app, Nat.sub_diag, skipn_all; reflexivity).
      rewrite <- E1 in Hk. symmetry. exact Hk. }
    assert (Hs : starts_with l IMPORT_WORD = true).
    { apply (starts_with_shorter l IMPORT_WORD rest).
      - apply starts_with_iff. eauto.
      - change (length IMPORT_WORD) with 7. lia. }
    destruct l as [|x0 l0] eqn:El.
    { rewrite app_nil_r in E1. rewrite <- E1 in Hc.
      vm_compute in Hc. discriminate. }
    rewrite <- El in *.
    pose proof import_border_check as Hb. rewrite forallb_forall in Hb.
    assert (Hj : In (length t') (seq 1 6)).
    { apply in_seq. destruct t'; [congruence|]. rewrite El in Hlen.
      cbn [length] in *. lia. }
    specialize (Hb _ Hj). rewrite <- Hl, Hs in Hb. discriminate.
Qed.

Lemma import_stmt_fails b t :
  starts_with IMPORT_WORD t = false ->
  match_here Logs.import_stmt_pattern b t = None.
Proof.
  intros H. unfold match_here, Logs.import_stmt_pattern. cbn [rmatch].
  change (txt "import ") with IMPORT_WORD.
  rewrite (lit_go_none _ _ H). reflexivity.
Qed.

Lemma import_stmt_found b body post :
  nonempty body = true -> forallb (none_of ";") body = true ->
  match_here Logs.import_stmt_pattern b
    (IMPORT_WORD ++ body ++ txt ";" ++ post)
  = Some ([(1, IMPORT_WORD ++ body ++ txt ";")], post).
Proof.
  intros Hne Hb. unfold match_here, Logs.import_stmt_pattern.
  cbn [rmatch]. change (txt "import ") with IMPORT_WORD.
  rewrite lit_go_app.
  destruct body as [|c body]; [discriminate|].
  cbn [forallb] in Hb. apply andb_true_iff in Hb. destruct Hb as [Hc Hb].
  cbn [app]. rewrite Hc.
  apply star_go_run; [exact Hb | reflexivity |].
  intros _. rewrite lit_go_app.
  replace (IMPORT_WORD ++ c :: body ++ txt ";" ++ post)
    with ((IMPORT_WORD ++ c :: body ++ txt ";") ++ post)
    by (rewrite <- !app_assoc, <- app_comm_cons, <- app_assoc; reflexivity).
  rewrite firstn_matched. reflexivity.
Qed.

Lemma needle_false_import_line c :
  contains (txt "log, logError") c = false ->
  contains Logs.IMPORT_LINE c = false.
Proof. apply contains_false_trans. vm_compute. reflexivity. Qed.

Lemma logs_add_import_found n pre body post :
  0 < n ->
  contains (txt "log, logError") (pre ++ IMPORT_WORD ++ body ++ txt ";" ++ post)
  = false ->
  contains IMPORT_WORD pre = false ->
  nonempty body = true -> forallb (none_of ";") body = true ->
  Logs.add_import n (pre ++ IMPORT_WORD ++ body ++ txt ";" ++ post)
  = pre ++ IMPORT_WORD ++ body ++ txt ";" ++ LF :: Logs.IMPORT_LINE ++ post.
Proof.
  intros Hn Hneedle Hpre Hne Hb. unfold Logs.add_import.
  apply Nat.ltb_lt in Hn. rewrite Hn, Hneedle.
  rewrite (needle_false_import_line _ Hneedle). cbn [negb andb].
  unfold re_search.
  rewrite (search_go_skip Logs.import_stmt_pattern pre true []
             (IMPORT_WORD ++ body ++ txt ";" ++ post))
    with (cs := [(1, IMPORT_WORD ++ body ++ txt ";")]) (rest := post).
  - cbn [rev app].
    replace (pre ++ IMPORT_WORD ++ body ++ txt ";" ++ post)
      with ((pre ++ IMPORT_WORD ++ body ++ txt ";") ++ post)
      by (rewrite <- !app_assoc; reflexivity).
    rewrite firstn_matched, skipn_matched. rewrite <- !app_assoc. reflexivity.
  - intros a t b' E Ht. apply import_stmt_fails.
    apply import_not_before; [exact Ht|].
    rewrite E in Hpre. apply (contains_app_false_r _ _ _ Hpre).
  - intros b'. apply import_stmt_found; assumption.
Qed.

Lemma logs_add_import_absent n c :
  contains IMPORT_WORD c = false -> Logs.add_import n c = c.
Proof.
  intros H. unfold Logs.add_import.
  destruct ((0 <? n) && negb (contains (txt "log, logError") c));
    [|reflexivity].
  destruct (negb (contains Logs.IMPORT_LINE c)); [|reflexivity].
  unfold re_search. rewrite search_go_none; [reflexivity|].
  intros a t b' ->. apply import_stmt_fails.
  apply (contains_false_suffix _ a t H).
Qed.

(** Property X8.  The import step of refactor_logs.py leaves a
    text without the word [import ] as it is, however many replacements
    were made; after at least one replacement and on a text without
    [log, logError], a text whose first [import ] starts a statement
    that ends with a semicolon gets the import line right after that
    semicolon. *)
Theorem logs_import_step (n : nat) (pre body post : text) :
  (forall c, contains IMPORT_WORD c = false -> Logs.add_import n c = c)
  /\ (0 < n ->
      contains (txt "log, logError")
        (pre ++ IMPORT_WORD ++ body ++ txt ";" ++ post) = false ->
      contains IMPORT_WORD pre = false ->
      nonempty body = true -> forallb (none_of ";") body = true ->
      Logs.add_import n (pre ++ IMPORT_WORD ++ body ++ txt ";" ++ post)
      = pre ++ IMPORT_WORD ++ body ++ txt ";"
            ++ LF :: Logs.IMPORT_LINE ++ post).
Proof.
  split.
  - intros c. apply logs_add_import_absent.
  - apply logs_add_import_found.
Qed.

Lemma logs_import_step_witness :
  Logs.add_import 1 (txt "log.info({ msg: 'a', b });")
  = txt "log.info({ msg: 'a', b });"
  /\ Logs.add_import 1
       (txt "// x" ++ [LF] ++ IMPORT_WORD ++ txt "a from 'a'" ++ txt ";"
          ++ txt " f();")
     = txt "// x" ++ [LF] ++ IMPORT_WORD ++ txt "a from 'a'" ++ txt ";"
         ++ LF :: Logs.IMPORT_LINE ++ txt " f();".
Proof.
  split.
  - apply (proj1 (logs_import_step 1 [] [] [])). reflexivity.
  - apply (proj2 (logs_import_step 1 (txt "// x" ++ [LF]) (txt "a from 'a'")
                    (txt " f();"))); [lia | reflexivity ..].
Defined.

Lemma logs_pass_without_opening (a b c : string) r f s n :
  contains (txt a ++ txt b ++ txt c) s = false ->
  Logs.pass (Seq (Lit a) (Seq (Lit b) (Seq (Lit c) r))) f (s, n) = (s, n).
Proof.
  intros H. unfold Logs.pass.
  assert (Hc : re_count (Seq (Lit a) (Seq (Lit b) (Seq (Lit c) r))) s = 0).
  { apply scan_never_matches. intros x t b' ->.
    apply lit3_fails. apply (contains_false_suffix _ x t H). }
  rewrite Hc, (re_sub_no_hit _ _ _ Hc), Nat.add_0_r. reflexivity.
Qed.

(** Property X9.  refactor_logs.py returns a text
    unchanged, with count 0, when the text holds none of the five
    openings its patterns start with; so it never touches a
    console.warn call without the ICONS prefix, nor console.info or
    console.debug. *)
Theorem logs_keeps_to_its_openings (c : text) :
  contains (txt "console.log(`${ICONS.") c = false ->
  contains (txt "console.warn(`${ICONS.") c = false ->
  contains (txt "console.error(`${ICONS.") c = false ->
  contains (txt "console.log('") c = false ->
  contains (txt "console.error('") c = false ->
  Logs.refactor_text c = (0, c).
Proof.
  intros H1 H2 H3 H4 H5. logs_unfold.
  rewrite (logs_pass_without_opening "console." "log" "(`${ICONS." _ _ c 0 H1).
  rewrite (logs_pass_without_opening "console." "warn" "(`${ICONS." _ _ c 0 H2).
  rewrite (logs_pass_without_opening "console." "error" "(`${ICONS." _ _ c 0 H3).
  rewrite (logs_pass_without_opening "console." "log" "('" _ _ c 0 H4).
  rewrite (logs_pass_without_opening "console." "error" "('" _ _ c 0 H5).
  reflexivity.
Qed.

Lemma logs_keeps_to_its_openings_witness :
  Logs.refactor_text (txt "console.warn('low', disk); console.info('a', b);")
  = (0, txt "console.warn('low', disk); console.info('a', b);").
Proof.
  apply (logs_keeps_to_its_openings
           (txt "console.warn('low', disk); console.info('a', b);"));
    reflexivity.
Defined.

(** Property X10.  The count refactor_logs.py
    returns is 0 exactly when the text it returns is the text it was
    given. *)
Theorem logs_count_zero_iff_unchanged (c : text) :
  fst (Logs.refactor_text c) = 0 <-> snd (Logs.refactor_text c) = c.
Proof.
  split.
  - unfold Logs.refactor_text. destruct (Logs.passes c) as [content count].
    cbn [fst snd]. intros ->. reflexivity.
  - intros H. destruct (fst (Logs.refactor_text c)) as [|n] eqn:E;
      [reflexivity|].
    exfalso. apply (Logs_facts.logs_rewritten_differs c); [lia | exact H].
Qed.

(** Property X11.  refactor_logs.py, a call console.log or
    console.error with a message between single quotes and a second
    argument, in a text otherwise free of [console.]: the call becomes
    log.info of an object with the message and the argument, or
    logError of the argument, the message and a fixed component; one
    replacement is counted and the import step runs on the result. *)
Theorem logs_plain_call (pre : text) (c : plain_call) (post : text) :
  plain_call_ok c = true ->
  console_free pre -> console_free post ->
  console_free (pc_msg c) -> console_free (pc_data c) ->
  Logs.refactor_text (pre ++ plain_call_text "log" c ++ post)
  = (1, Logs.add_import 1
          (pre ++ info_plain (pc_msg c) (pc_data c) ++ post))
  /\ Logs.refactor_text (pre ++ plain_call_text "error" c ++ post)
     = (1, Logs.add_import 1
             (pre ++ error_plain (pc_msg c) (pc_data c) ++ post)).
Proof.
  intros Hc Hpre Hpost Hm Hd. split.
  - apply plain_call_log; assumption.
  - apply plain_call_error; assumption.
Qed.

Lemma logs_plain_call_witness :
  Logs.refactor_text
    (txt "f(); " ++ plain_call_text "log" (mkPlainCall (txt "Saved") (txt " ") (txt "id"))
       ++ txt " g();")
  = (1, Logs.add_import 1
          (txt "f(); " ++ info_plain (txt "Saved") (txt "id") ++ txt " g();"))
  /\ Logs.refactor_text
       (txt "f(); "
          ++ plain_call_text "error" (mkPlainCall (txt "Saved") (txt " ") (txt "id"))
          ++ txt " g();")
     = (1, Logs.add_import 1
             (txt "f(); " ++ error_plain (txt "Saved") (txt "id") ++ txt " g();")).
Proof.
  apply (logs_plain_call (txt "f(); ")
           (mkPlainCall (txt "Saved") (txt " ") (txt "id")) (txt " g();"));
    reflexivity.
Defined.

(** Property X12.  refactor_logs.py has no rule for
    console.warn with a message between single quotes: such a call
    comes back unchanged, with count 0. *)
Theorem logs_plain_warn_untouched (pre : text) (c : plain_call) (post : text) :
  plain_call_ok c = true ->
  console_free pre -> console_free post ->
  console_free (pc_msg c) -> console_free (pc_data c) ->
  Logs.refactor_text (pre ++ plain_call_text "warn" c ++ post)
  = (0, pre ++ plain_call_text "warn" c ++ post).
Proof. apply plain_call_warn. Qed.

Lemma logs_plain_warn_untouched_witness :
  Logs.refactor_text
    (txt "f(); " ++ plain_call_text "warn" (mkPlainCall (txt "Low") (txt " ") (txt "pct"))
       ++ txt " g();")
  = (0, txt "f(); "
          ++ plain_call_text "warn" (mkPlainCall (txt "Low") (txt " ") (txt "pct"))
          ++ txt " g();").
Proof.
  apply (logs_plain_warn_untouched (txt "f(); ")
           (mkPlainCall (txt "Low") (txt " ") (txt "pct")) (txt " g();"));
    reflexivity.
Defined.

(** Property X13.  refactor_logs.py, a call console.log or
    console.warn whose first argument is a template literal that starts
    with an ICONS marker: the call becomes log.info or log.warn of an
    object with the message, trimmed and without the marker, the
    component todo, and the second argument when there is a non-empty
    one. *)
Theorem logs_icons_call (pre : text) (c : icons_call) (post : text) :
  icons_call_ok c = true ->
  console_free pre -> console_free post ->
  console_free (ic_msg c) -> console_free (data_of c) ->
  Logs.refactor_text (pre ++ icons_call_text "log" c ++ post)
  = (1, Logs.add_import 1
          (pre ++ icons_info "info" (strip (ic_msg c)) (data_of c) ++ post))
  /\ Logs.refactor_text (pre ++ icons_call_text "warn" c ++ post)
     = (1, Logs.add_import 1
             (pre ++ icons_info "warn" (strip (ic_msg c)) (data_of c) ++ post)).
Proof.
  intros Hc Hpre Hpost Hm Hd. split.
  - apply icons_call_log; assumption.
  - apply icons_call_warn; assumption.
Qed.

Lemma logs_icons_call_witness :
  Logs.refactor_text
    (icons_call_text "log"
       (mkIconsCall (txt "SUCCESS") (txt " ") (txt "Done ")
          (Some (txt " ", txt "id"))) ++ [])
  = (1, Logs.add_import 1
          ([] ++ icons_info "info" (txt "Done") (txt "id") ++ []))
  /\ Logs.refactor_text
       (icons_call_text "warn"
          (mkIconsCall (txt "SUCCESS") (txt " ") (txt "Done ")
             (Some (txt " ", txt "id"))) ++ [])
     = (1, Logs.add_import 1
             ([] ++ icons_info "warn" (txt "Done") (txt "id") ++ [])).
Proof.
  apply (logs_icons_call []
           (mkIconsCall (txt "SUCCESS") (txt " ") (txt "Done ")
              (Some (txt " ", txt "id"))) []);
    reflexivity.
Defined.

(** Property X14.  refactor_logs.py, a call console.error
    whose first argument is a template literal that starts with an
    ICONS marker: the call becomes logError of the second argument, or
    of a new Error built from the trimmed message when there is none or
    an empty one, then the trimmed message and a fixed component. *)
Theorem logs_icons_error_call (pre : text) (c : icons_call) (post : text) :
  icons_call_ok c = true ->
  console_free pre -> console_free post ->
  console_free (ic_msg c) -> console_free (data_of c) ->
  Logs.refactor_text (pre ++ icons_call_text "error" c ++ post)
  = (1, Logs.add_import 1
          (pre ++ icons_error (strip (ic_msg c)) (data_of c) ++ post)).
Proof. apply icons_call_error. Qed.

Lemma logs_icons_error_call_witness :
  Logs.refactor_text
    (txt "f(); "
       ++ icons_call_text "error"
            (mkIconsCall (txt "ERROR") [] (txt "Failed") None)
       ++ txt " g();")
  = (1, Logs.add_import 1
          (txt "f(); " ++ icons_error (txt "Failed") [] ++ txt " g();")).
Proof.
  apply (logs_icons_error_call (txt "f(); ")
           (mkIconsCall (txt "ERROR") [] (txt "Failed") None) (txt " g();"));
    reflexivity.
Defined.

End Logs_call_facts.

(* ------------------------------------------------------------------ *)
(** ** A pass at a call, whatever follows *)

Lemma foreign_spec x : foreign x = true -> ~ In x CONSOLE.
Proof.
  unfold foreign. rewrite negb_true_iff. intros H Hin.
  assert (E : existsb (Ascii.eqb x) CONSOLE = true).
  { apply existsb_exists. exists x. split; [exact Hin | apply Ascii.eqb_refl]. }
  congruence.
Qed.

Lemma sealed_snoc t x : sealed (t ++ [x]) = foreign x.
Proof. unfold sealed. rewrite rev_app_distr. reflexivity. Qed.

Lemma sealed_cases t :
  sealed t = true -> t = [] \/ exists t0 x, t = t0 ++ [x] /\ foreign x = true.
Proof.
  destruct t as [|y t] using rev_ind; [auto|].
  rewrite sealed_snoc. intros H. right. eauto.
Qed.

Lemma sealed_app a b : b <> [] -> sealed (a ++ b) = sealed b.
Proof.
  intros Hb. destruct b as [|y b] using rev_ind; [congruence|].
  rewrite app_assoc, !sealed_snoc. reflexivity.
Qed.

Lemma sealed_suffix a t : sealed (a ++ t) = true -> sealed t = true.
Proof.
  destruct t as [|y t]; [reflexivity|].
  rewrite sealed_app by discriminate. auto.
Qed.

(** A free text that is sealed offers no start for the word, whatever
    follows it. *)
Lemma no_start_in_sealed P X :
  console_free P -> sealed P = true ->
  forall a t, P = a ++ t -> t <> [] -> starts_with CONSOLE (t ++ X) = false.
Proof.
  intros Hf Hs a t E Ht.
  assert (Hft : console_free t)
    by (rewrite E in Hf; apply (contains_app_false_r _ _ _ Hf)).
  assert (Hst : sealed t = true) by (rewrite E in Hs; apply (sealed_suffix a t Hs)).
  destruct (sealed_cases t Hst) as [-> | (t0 & x & -> & Hx)]; [congruence|].
  destruct (starts_with CONSOLE ((t0 ++ [x]) ++ X)) eqn:Es; [|reflexivity].
  exfalso. apply starts_with_iff in Es. destruct Es as [u Eu].
  rewrite <- app_assoc in Eu. cbn [app] in Eu.
  apply list_app_eq_split in Eu. destruct Eu as [l [[E1 E2] | [E1 E2]]].
  - (* t0 = CONSOLE ++ l *)
    subst t0. unfold console_free in Hft.
    rewrite <- app_assoc in Hft.
    pose proof (contains_intro CONSOLE [] (l ++ [x])) as Hi. cbn [app] in Hi.
    congruence.
  - (* CONSOLE = t0 ++ l, x :: X = l ++ u *)
    destruct l as [|y l].
    + rewrite app_nil_r in E1. subst t0. unfold console_free in Hft.
      pose proof (contains_intro CONSOLE [] [x]) as Hi. cbn [app] in Hi.
      congruence.
    + cbn [app] in E2. inversion E2; subst y.
      apply (foreign_spec x Hx). rewrite E1. apply in_or_app. right. left.
      reflexivity.
Qed.


Lemma sealed_end t : (exists a, t = a ++ txt ")") -> sealed t = true.
Proof. intros [a ->]. apply (sealed_snoc a ")"%char). Qed.

Ltac right_nest :=
  repeat (rewrite <- app_assoc || rewrite <- app_comm_cons); reflexivity.

Section Continue.
Variable r' : regex.
Variable f : caps -> text.
Hypothesis Hr : bol_free r' = true.

Let r := Seq (Lit "console.") r'.

(** A free, sealed stretch is copied, and the pass goes on behind it. *)
Lemma scan_past_free P X :
  console_free P -> sealed P = true ->
  re_scan r (P ++ X) = map Keep P ++ re_scan r X.
Proof.
  intros Hf Hs. apply re_scan_skip_prefix; [exact Hr|].
  intros a t E Ht. apply lit_seq_fails.
  apply (no_start_in_sealed P X Hf Hs a t E Ht).
Qed.

Lemma pass_past_free P X :
  console_free P -> sealed P = true ->
  re_sub r f (P ++ X) = P ++ re_sub r f X
  /\ re_count r (P ++ X) = re_count r X.
Proof.
  intros Hf Hs. unfold re_sub, re_count.
  rewrite (scan_past_free P X Hf Hs), render_keep, hits_keep. auto.
Qed.

(** A free stretch in front of an occurrence of the word. *)
Lemma scan_to_call pre call X :
  console_free pre -> starts_with CONSOLE call = true ->
  re_scan r (pre ++ call ++ X) = map Keep pre ++ re_scan r (call ++ X).
Proof.
  intros Hf Hc. apply starts_with_iff in Hc. destruct Hc as [body ->].
  rewrite <- app_assoc.
  apply re_scan_skip_prefix; [exact Hr|].
  apply (console_pattern_skips r' pre (body ++ X) Hf).
Qed.

(** The pass rewrites the call it matches and goes on behind it. *)
Lemma pass_hit_then pre call X cs :
  console_free pre -> starts_with CONSOLE call = true ->
  match_here r true (call ++ X) = Some (cs, X) ->
  re_sub r f (pre ++ call ++ X) = pre ++ f cs ++ re_sub r f X
  /\ re_count r (pre ++ call ++ X) = S (re_count r X).
Proof.
  intros Hf Hc Hm. unfold re_sub, re_count.
  rewrite (scan_to_call pre call X Hf Hc), render_keep, hits_keep.
  assert (Hne : call <> []).
  { intros ->. discriminate Hc. }
  rewrite (re_scan_hit r Hr call X cs Hne Hm). cbn [render hits]. auto.
Qed.

(** The pass keeps the call it fails on and goes on behind it. *)
Lemma pass_miss_then pre call X :
  console_free pre -> starts_with CONSOLE call = true ->
  console_free (skipn 1 call) -> sealed call = true ->
  match_here r true (call ++ X) = None ->
  re_sub r f (pre ++ call ++ X) = pre ++ call ++ re_sub r f X
  /\ re_count r (pre ++ call ++ X) = re_count r X.
Proof.
  intros Hf Hc Ht Hs Hm. unfold re_sub, re_count.
  rewrite (scan_to_call pre call X Hf Hc), render_keep, hits_keep.
  destruct call as [|c0 call']; [discriminate Hc|].
  cbn [app skipn] in *.
  rewrite (re_scan_keep r Hr c0 (call' ++ X) Hm).
  assert (Hs' : sealed call' = true).
  { destruct call' as [|y call'']; [reflexivity|].
    change (c0 :: y :: call'') with ([c0] ++ y :: call'') in Hs.
    rewrite sealed_app in Hs by discriminate. exact Hs. }
  rewrite (scan_past_free call' X Ht Hs').
  cbn [render hits]. rewrite render_keep, hits_keep. auto.
Qed.

End Continue.

(* ------------------------------------------------------------------ *)
(** ** The calls of refactor-logger.py *)

Section Logger_doc_facts.
Import Logger Logger_spec Logger_calls Logger_docs.

Lemma free_spec t : free t = true <-> console_free t.
Proof. unfold free, console_free. apply negb_true_iff. Qed.

Lemma is_level_spec l : is_level l = true -> In l levels.
Proof.
  unfold is_level. rewrite existsb_exists. intros (x & Hx & E).
  apply String.eqb_eq in E. subst x. exact Hx.
Qed.

Lemma var_call_facts level c :
  In level levels -> var_call_ok c = true -> console_free (vc_msg c) ->
  call_facts (var_call_text level c).
Proof.
  intros Hl Hc Hm. split; [reflexivity|]. split.
  - pose proof (free_var_call_tail level c [] Hl Hc Hm free_nil) as H.
    rewrite app_nil_r in H. exact H.
  - apply sealed_end.
    exists (txt "console." ++ txt level ++ txt "(" ++ vc_lead c
              ++ vc_open c :: vc_msg c ++ vc_close c :: vc_gap1 c
              ++ txt "," ++ vc_gap2 c ++ vc_var c ++ vc_trail c).
    unfold var_call_text. right_nest.
Qed.

Lemma template_call_facts level c :
  In level levels -> template_call_ok c = true -> console_free (tc_msg c) ->
  call_facts (template_call_text level c).
Proof.
  intros Hl Hc Hm. split; [reflexivity|]. split.
  - pose proof (free_template_call_tail level c [] Hl Hc Hm free_nil) as H.
    rewrite app_nil_r in H. exact H.
  - apply sealed_end.
    exists (txt "console." ++ txt level ++ txt "(" ++ tc_lead c
              ++ txt "`" ++ tc_msg c ++ txt "`" ++ tc_trail c).
    unfold template_call_text. right_nest.
Qed.

Lemma simple_call_facts level c :
  In level levels -> simple_call_ok c = true -> console_free (sc_msg c) ->
  call_facts (simple_call_text level c).
Proof.
  intros Hl Hc Hm. split; [reflexivity|]. split.
  - pose proof (free_simple_call_tail level c [] Hl Hc Hm free_nil) as H.
    rewrite app_nil_r in H. exact H.
  - apply sealed_end.
    exists (txt "console." ++ txt level ++ txt "(" ++ sc_lead c
              ++ sc_open c :: sc_msg c ++ sc_close c :: sc_trail c).
    unfold simple_call_text. right_nest.
Qed.

Lemma call_ok_level k : call_ok k = true -> In (call_level k) levels.
Proof.
  unfold call_ok. rewrite andb_true_iff. intros [H _].
  apply is_level_spec, H.
Qed.

Lemma call_ok_facts k : call_ok k = true -> call_facts (call_text k).
Proof.
  intros H. pose proof (call_ok_level k H) as Hl.
  unfold call_ok in H. rewrite andb_true_iff in H. destruct H as [_ H].
  destruct k as [l c | l c | l c]; cbn [call_text call_level] in *;
    rewrite !andb_true_iff in H.
  - destruct H as [[[H1 _] H3] _]. apply var_call_facts; auto.
    apply free_spec, H3.
  - destruct H as [[[H1 _] H3] _]. apply template_call_facts; auto.
    apply free_spec, H3.
  - destruct H as [[H1 _] H3]. apply simple_call_facts; auto.
    apply free_spec, H3.
Qed.

(** One pass at a call. *)
Lemma step_hit r' f pre call X cs :
  match_here (Seq (Lit "console.") r') true (call ++ X) = Some (cs, X) ->
  bol_free r' = true -> console_free pre -> call_facts call ->
  re_sub (Seq (Lit "console.") r') f (pre ++ call ++ X)
  = pre ++ f cs ++ re_sub (Seq (Lit "console.") r') f X.
Proof.
  intros Hm Hr Hpre (Hs & _ & _).
  apply (proj1 (pass_hit_then r' f Hr pre call X cs Hpre Hs Hm)).
Qed.

Lemma step_miss r' f pre call X :
  match_here (Seq (Lit "console.") r') true (call ++ X) = None ->
  bol_free r' = true -> console_free pre -> call_facts call ->
  re_sub (Seq (Lit "console.") r') f (pre ++ call ++ X)
  = pre ++ call ++ re_sub (Seq (Lit "console.") r') f X.
Proof.
  intros Hm Hr Hpre (Hs & Ht & Hl).
  apply (proj1 (pass_miss_then r' f Hr pre call X Hpre Hs Ht Hl Hm)).
Qed.

Lemma step_past r' f P X :
  bol_free r' = true -> console_free P -> sealed P = true ->
  re_sub (Seq (Lit "console.") r') f (P ++ X)
  = P ++ re_sub (Seq (Lit "console.") r') f X.
Proof.
  intros Hr Hf Hs. apply (proj1 (pass_past_free r' f Hr P X Hf Hs)).
Qed.

(** A pattern of one level fails on a call of another. *)
Lemma other_level_fails (L L' : string) r X b :
  In L levels -> In L' levels -> L <> L' ->
  match_here (Seq (Lit "console.") (Seq (Lit L) r)) b (CONSOLE ++ txt L' ++ X)
  = None.
Proof.
  intros HL HL' Hne. apply other_literal_fails.
  destruct HL as [<- | [<- | [<- | []]]];
    destruct HL' as [<- | [<- | [<- | []]]];
    try congruence; reflexivity.
Qed.

Lemma call_opening k X :
  exists Y, call_text k ++ X = CONSOLE ++ txt (call_level k) ++ Y.
Proof.
  destruct k as [l c | l c | l c]; cbn [call_text call_level].
  - apply var_call_opening.
  - apply template_call_opening.
  - apply simple_call_opening.
Qed.

Lemma other_level_miss (L : string) r f pre k X :
  In L levels -> call_ok k = true -> call_level k <> L ->
  bol_free r = true -> console_free pre ->
  re_sub (Seq (Lit "console.") (Seq (Lit L) r)) f (pre ++ call_text k ++ X)
  = pre ++ call_text k
        ++ re_sub (Seq (Lit "console.") (Seq (Lit L) r)) f X.
Proof.
  intros HL Hk Hne Hr Hpre.
  apply step_miss; [| exact Hr | exact Hpre | apply call_ok_facts, Hk].
  destruct (call_opening k X) as [Y ->].
  apply other_level_fails; [exact HL | apply call_ok_level, Hk | congruence].
Qed.

End Logger_doc_facts.

(* ------------------------------------------------------------------ *)
(** ** Each rewriting function at a call *)

Section Logger_function_facts.
Import Logger Logger_spec Logger_calls Logger_docs.

Lemma step_past_out r' f pre O Y :
  bol_free r' = true -> console_free (pre ++ O) -> sealed O = true ->
  O <> [] ->
  re_sub (Seq (Lit "console.") r') f (pre ++ O ++ Y)
  = pre ++ O ++ re_sub (Seq (Lit "console.") r') f Y.
Proof.
  intros Hr Hf Hs Hne. rewrite !app_assoc. apply step_past; [exact Hr | exact Hf|].
  rewrite sealed_app; assumption.
Qed.

Lemma log_error_call_sealed v m :
  sealed (log_error_call v m) = true /\ log_error_call v m <> [].
Proof.
  split; [|discriminate]. apply sealed_end.
  exists (txt "logError(" ++ v ++ txt ", " ++ DQ :: m
            ++ DQ :: txt ", { component: " ++ DQ :: txt "refactored"
            ++ DQ :: txt " }").
  unfold log_error_call. right_nest.
Qed.

Lemma emit_msg_sealed target m :
  sealed (emit_msg target m) = true /\ emit_msg target m <> [].
Proof.
  split; [|discriminate]. apply sealed_end.
  exists (txt "log." ++ txt target ++ txt "({ msg: " ++ DQ :: m
            ++ DQ :: txt " }").
  unfold emit_msg. right_nest.
Qed.

Lemma free_out_var pre c :
  var_call_ok c = true -> console_free pre ->
  console_free (clean_msg (vc_msg c)) ->
  console_free (pre ++ log_error_call (vc_var c) (clean_msg (vc_msg c))).
Proof.
  intros Hc Hpre Hm.
  assert (Hv : forallb is_word (vc_var c) = true).
  { unfold var_call_ok in Hc. rewrite !andb_true_iff in Hc. tauto. }
  pose proof (free_log_error_call pre (vc_var c) (clean_msg (vc_msg c)) []
                Hv Hpre Hm free_nil) as H.
  rewrite app_nil_r in H. exact H.
Qed.

Lemma free_out_msg pre level m :
  In level levels -> console_free pre -> console_free m ->
  console_free (pre ++ emit_msg (target_of level) m).
Proof.
  intros Hl Hpre Hm.
  pose proof (free_emit_msg pre (target_of level) m [] (target_in level Hl)
                Hpre Hm free_nil) as H.
  rewrite app_nil_r in H. exact H.
Qed.

Ltac past_out Hfree Hseal :=
  rewrite step_past_out;
  [ | reflexivity | exact Hfree | exact (proj1 Hseal) | exact (proj2 Hseal) ].

(** *** [refactor_console_error] *)

Lemma error_on_var pre c X :
  var_call_ok c = true -> console_free pre -> console_free (vc_msg c) ->
  console_free (clean_msg (vc_msg c)) ->
  refactor_console_error (pre ++ var_call_text "error" c ++ X)
  = pre ++ log_error_call (vc_var c) (clean_msg (vc_msg c))
        ++ refactor_console_error X.
Proof.
  intros Hc Hpre Hraw Hm.
  pose proof (free_out_var pre c Hc Hpre Hm) as Hfree.
  pose proof (log_error_call_sealed (vc_var c) (clean_msg (vc_msg c))) as Hseal.
  unfold refactor_console_error.
  unfold with_var_pattern at 1.
  rewrite (step_hit _ replace_with_var pre (var_call_text "error" c) _
             [(2, vc_var c); (1, vc_msg c)]
             (Logger_facts.with_var_match "error" c _ true Hc) eq_refl Hpre);
    [| apply var_call_facts; [right; right; left; reflexivity | exact Hc
                             | exact Hraw]].
  change (replace_with_var [(2, vc_var c); (1, vc_msg c)])
    with (log_error_call (vc_var c) (clean_msg (vc_msg c))).
  unfold template_pattern at 1. past_out Hfree Hseal.
  unfold simple_pattern at 1. past_out Hfree Hseal.
  reflexivity.
Qed.

Lemma error_on_template pre c X :
  template_call_ok c = true -> forallb not_quote (tc_msg c) = true ->
  console_free pre -> console_free (tc_msg c) ->
  console_free (template_message (tc_msg c)) ->
  refactor_console_error (pre ++ template_call_text "error" c ++ X)
  = pre ++ emit_msg "error" (template_message (tc_msg c))
        ++ refactor_console_error X.
Proof.
  intros Hc Hq Hpre Hraw Hm.
  pose proof (free_out_msg pre "error" _ (or_intror (or_intror (or_introl eq_refl)))
                Hpre Hm) as Hfree.
  pose proof (emit_msg_sealed "error" (template_message (tc_msg c))) as Hseal.
  assert (Hf : call_facts (template_call_text "error" c)).
  { apply template_call_facts; auto. right; right; left; reflexivity. }
  unfold refactor_console_error.
  unfold with_var_pattern at 1.
  rewrite (step_miss _ replace_with_var pre (template_call_text "error" c) _
             (with_var_fails_template "error" c _ true Hc Hq) eq_refl Hpre Hf).
  unfold template_pattern at 1.
  rewrite (step_hit _ (replace_template "error") pre
             (template_call_text "error" c) _ [(1, tc_msg c)]
             (Logger_facts.template_match "error" c _ true Hc) eq_refl Hpre Hf).
  rewrite replace_template_message.
  unfold simple_pattern at 1. past_out Hfree Hseal.
  reflexivity.
Qed.

Lemma error_on_simple pre c X :
  simple_call_ok c = true -> sc_open c <> BQ ->
  console_free pre -> console_free (sc_msg c) ->
  refactor_console_error (pre ++ simple_call_text "error" c ++ X)
  = pre ++ emit_msg "error" (sc_msg c) ++ refactor_console_error X.
Proof.
  intros Hc Hq Hpre Hm.
  assert (Hf : call_facts (simple_call_text "error" c)).
  { apply simple_call_facts; auto. right; right; left; reflexivity. }
  unfold refactor_console_error.
  unfold with_var_pattern at 1.
  rewrite (step_miss _ replace_with_var pre (simple_call_text "error" c) _
             (with_var_fails_simple "error" c _ true Hc) eq_refl Hpre Hf).
  unfold template_pattern at 1.
  rewrite (step_miss _ (replace_template "error") pre
             (simple_call_text "error" c) _
             (template_fails_simple "error" c _ true Hc Hq) eq_refl Hpre Hf).
  unfold simple_pattern at 1.
  rewrite (step_hit _ (replace_simple "error") pre
             (simple_call_text "error" c) _ [(1, sc_msg c)]
             (simple_match "error" c _ true Hc) eq_refl Hpre Hf).
  reflexivity.
Qed.

Lemma error_on_other pre k X :
  call_ok k = true -> call_level k <> "error"%string -> console_free pre ->
  refactor_console_error (pre ++ call_text k ++ X)
  = pre ++ call_text k ++ refactor_console_error X.
Proof.
  intros Hk Hne Hpre.
  assert (HL : In "error"%string levels) by (right; right; left; reflexivity).
  unfold refactor_console_error.
  unfold with_var_pattern at 1.
  rewrite (other_level_miss "error" _ _ pre k _ HL Hk Hne);
    [| reflexivity | exact Hpre].
  unfold template_pattern at 1.
  rewrite (other_level_miss "error" _ _ pre k _ HL Hk Hne);
    [| reflexivity | exact Hpre].
  unfold simple_pattern at 1.
  rewrite (other_level_miss "error" _ _ pre k _ HL Hk Hne);
    [| reflexivity | exact Hpre].
  reflexivity.
Qed.

(** *** [refactor_console_warn] *)

Lemma warn_on_template pre c X :
  template_call_ok c = true ->
  console_free pre -> console_free (tc_msg c) ->
  console_free (template_message (tc_msg c)) ->
  refactor_console_warn (pre ++ template_call_text "warn" c ++ X)
  = pre ++ emit_msg "warn" (template_message (tc_msg c))
        ++ refactor_console_warn X.
Proof.
  intros Hc Hpre Hraw Hm.
  pose proof (free_out_msg pre "warn" _ (or_intror (or_introl eq_refl))
                Hpre Hm) as Hfree.
  pose proof (emit_msg_sealed "warn" (template_message (tc_msg c))) as Hseal.
  assert (Hf : call_facts (template_call_text "warn" c)).
  { apply template_call_facts; auto. right; left; reflexivity. }
  unfold refactor_console_warn.
  unfold template_pattern at 1.
  rewrite (step_hit _ (replace_template "warn") pre
             (template_call_text "warn" c) _ [(1, tc_msg c)]
             (Logger_facts.template_match "warn" c _ true Hc) eq_refl Hpre Hf).
  rewrite replace_template_message.
  unfold with_var_pattern at 1. past_out Hfree Hseal.
  unfold simple_pattern at 1. past_out Hfree Hseal.
  reflexivity.
Qed.

Lemma warn_on_var pre c X :
  var_call_ok c = true -> (vc_open c = BQ -> vc_close c = BQ) ->
  console_free pre -> console_free (vc_msg c) ->
  console_free (clean_msg (vc_msg c)) ->
  refactor_console_warn (pre ++ var_call_text "warn" c ++ X)
  = pre ++ log_error_call (vc_var c) (clean_msg (vc_msg c))
        ++ refactor_console_warn X.
Proof.
  intros Hc Hq Hpre Hraw Hm.
  pose proof (free_out_var pre c Hc Hpre Hm) as Hfree.
  pose proof (log_error_call_sealed (vc_var c) (clean_msg (vc_msg c))) as Hseal.
  assert (Hf : call_facts (var_call_text "warn" c)).
  { apply var_call_facts; auto. right; left; reflexivity. }
  unfold refactor_console_warn.
  unfold template_pattern at 1.
  rewrite (step_miss _ (replace_template "warn") pre (var_call_text "warn" c) _
             (template_fails_var "warn" c _ true Hc Hq) eq_refl Hpre Hf).
  unfold with_var_pattern at 1.
  rewrite (step_hit _ replace_with_var pre (var_call_text "warn" c) _
             [(2, vc_var c); (1, vc_msg c)]
             (Logger_facts.with_var_match "warn" c _ true Hc) eq_refl Hpre Hf).
  change (replace_with_var [(2, vc_var c); (1, vc_msg c)])
    with (log_error_call (vc_var c) (clean_msg (vc_msg c))).
  unfold simple_pattern at 1. past_out Hfree Hseal.
  reflexivity.
Qed.

Lemma warn_on_simple pre c X :
  simple_call_ok c = true -> sc_open c <> BQ ->
  console_free pre -> console_free (sc_msg c) ->
  refactor_console_warn (pre ++ simple_call_text "warn" c ++ X)
  = pre ++ emit_msg "warn" (sc_msg c) ++ refactor_console_warn X.
Proof.
  intros Hc Hq Hpre Hm.
  assert (Hf : call_facts (simple_call_text "warn" c)).
  { apply simple_call_facts; auto. right; left; reflexivity. }
  unfold refactor_console_warn.
  unfold template_pattern at 1.
  rewrite (step_miss _ (replace_template "warn") pre
             (simple_call_text "warn" c) _
             (template_fails_simple "warn" c _ true Hc Hq) eq_refl Hpre Hf).
  unfold with_var_pattern at 1.
  rewrite (step_miss _ replace_with_var pre (simple_call_text "warn" c) _
             (with_var_fails_simple "warn" c _ true Hc) eq_refl Hpre Hf).
  unfold simple_pattern at 1.
  rewrite (step_hit _ (replace_simple "warn") pre
             (simple_call_text "warn" c) _ [(1, sc_msg c)]
             (simple_match "warn" c _ true Hc) eq_refl Hpre Hf).
  reflexivity.
Qed.

Lemma warn_on_other pre k X :
  call_ok k = true -> call_level k <> "warn"%string -> console_free pre ->
  refactor_console_warn (pre ++ call_text k ++ X)
  = pre ++ call_text k ++ refactor_console_warn X.
Proof.
  intros Hk Hne Hpre.
  assert (HL : In "warn"%string levels) by (right; left; reflexivity).
  unfold refactor_console_warn.
  unfold template_pattern at 1.
  rewrite (other_level_miss "warn" _ _ pre k _ HL Hk Hne);
    [| reflexivity | exact Hpre].
  unfold with_var_pattern at 1.
  rewrite (other_level_miss "warn" _ _ pre k _ HL Hk Hne);
    [| reflexivity | exact Hpre].
  unfold simple_pattern at 1.
  rewrite (other_level_miss "warn" _ _ pre k _ HL Hk Hne);
    [| reflexivity | exact Hpre].
  reflexivity.
Qed.

(** *** [refactor_console_log] *)

Lemma log_on_template pre c X :
  template_call_ok c = true ->
  console_free pre -> console_free (tc_msg c) ->
  console_free (template_message (tc_msg c)) ->
  refactor_console_log (pre ++ template_call_text "log" c ++ X)
  = pre ++ emit_msg "info" (template_message (tc_msg c))
        ++ refactor_console_log X.
Proof.
  intros Hc Hpre Hraw Hm.
  pose proof (free_out_msg pre "log" _ (or_introl eq_refl) Hpre Hm) as Hfree.
  pose proof (emit_msg_sealed "info" (template_message (tc_msg c))) as Hseal.
  assert (Hf : call_facts (template_call_text "log" c)).
  { apply template_call_facts; auto. left; reflexivity. }
  unfold refactor_console_log.
  unfold template_pattern at 1.
  rewrite (step_hit _ (replace_template "info") pre
             (template_call_text "log" c) _ [(1, tc_msg c)]
             (Logger_facts.template_match "log" c _ true Hc) eq_refl Hpre Hf).
  rewrite replace_template_message.
  unfold simple_pattern at 1. past_out Hfree Hseal.
  reflexivity.
Qed.

Lemma log_on_simple pre c X :
  simple_call_ok c = true -> sc_open c <> BQ ->
  console_free pre -> console_free (sc_msg c) ->
  refactor_console_log (pre ++ simple_call_text "log" c ++ X)
  = pre ++ emit_msg "info" (sc_msg c) ++ refactor_console_log X.
Proof.
  intros Hc Hq Hpre Hm.
  assert (Hf : call_facts (simple_call_text "log" c)).
  { apply simple_call_facts; auto. left; reflexivity. }
  unfold refactor_console_log.
  unfold template_pattern at 1.
  rewrite (step_miss _ (replace_template "info") pre
             (simple_call_text "log" c) _
             (template_fails_simple "log" c _ true Hc Hq) eq_refl Hpre Hf).
  unfold simple_pattern at 1.
  rewrite (step_hit _ (replace_simple "info") pre
             (simple_call_text "log" c) _ [(1, sc_msg c)]
             (simple_match "log" c _ true Hc) eq_refl Hpre Hf).
  reflexivity.
Qed.

Lemma log_on_var pre c X :
  var_call_ok c = true -> (vc_open c = BQ -> vc_close c = BQ) ->
  console_free pre -> console_free (vc_msg c) ->
  refactor_console_log (pre ++ var_call_text "log" c ++ X)
  = pre ++ var_call_text "log" c ++ refactor_console_log X.
Proof.
  intros Hc Hq Hpre Hraw.
  assert (Hf : call_facts (var_call_text "log" c)).
  { apply var_call_facts; auto. left; reflexivity. }
  unfold refactor_console_log.
  unfold template_pattern at 1.
  rewrite (step_miss _ (replace_template "info") pre (var_call_text "log" c) _
             (template_fails_var "log" c _ true Hc Hq) eq_refl Hpre Hf).
  unfold simple_pattern at 1.
  rewrite (step_miss _ (replace_simple "info") pre (var_call_text "log" c) _
             (simple_fails_var "log" c _ true Hc) eq_refl Hpre Hf).
  reflexivity.
Qed.

Lemma log_on_other pre k X :
  call_ok k = true -> call_level k <> "log"%string -> console_free pre ->
  refactor_console_log (pre ++ call_text k ++ X)
  = pre ++ call_text k ++ refactor_console_log X.
Proof.
  intros Hk Hne Hpre.
  assert (HL : In "log"%string levels) by (left; reflexivity).
  unfold refactor_console_log.
  unfold template_pattern at 1.
  rewrite (other_level_miss "log" _ _ pre k _ HL Hk Hne);
    [| reflexivity | exact Hpre].
  unfold simple_pattern at 1.
  rewrite (other_level_miss "log" _ _ pre k _ HL Hk Hne);
    [| reflexivity | exact Hpre].
  reflexivity.
Qed.

End Logger_function_facts.

(* ------------------------------------------------------------------ *)
(** ** The three functions on a text made of calls *)

Section Logger_call_in_text.
Import Logger Logger_spec Logger_calls Logger_docs.


Lemma call_ok_body k :
  call_ok k = true ->
  match k with
  | WithVar _ c =>
      var_call_ok c = true /\ (vc_open c = BQ -> vc_close c = BQ)
      /\ console_free (vc_msg c) /\ console_free (clean_msg (vc_msg c))
  | Template l c =>
      template_call_ok c = true
      /\ (l = "error"%string -> forallb not_quote (tc_msg c) = true)
      /\ console_free (tc_msg c)
      /\ console_free (template_message (tc_msg c))
  | Simple _ c =>
      simple_call_ok c = true /\ sc_open c <> BQ /\ console_free (sc_msg c)
  end.
Proof.
  unfold call_ok. rewrite andb_true_iff. intros [_ H].
  destruct k as [l c | l c | l c]; rewrite !andb_true_iff in H.
  - destruct H as [[[H1 H2] H3] H4]. repeat split; auto.
    + apply backticks_paired_spec, H2.
    + apply free_spec, H3.
    + apply free_spec, H4.
  - destruct H as [[[H1 H2] H3] H4]. repeat split; auto.
    + intros ->. exact H2.
    + apply free_spec, H3.
    + apply free_spec, H4.
  - destruct H as [[H1 H2] H3]. repeat split; auto.
    + intros E. rewrite E in H2. discriminate H2.
    + apply free_spec, H3.
Qed.


Lemma after_same k : after (call_level k) k = emitted k.
Proof. unfold after. rewrite String.eqb_refl. reflexivity. Qed.

Lemma after_other L k : call_level k <> L -> after L k = call_text k.
Proof.
  intros H. unfold after. apply String.eqb_neq in H. rewrite H. reflexivity.
Qed.

Lemma error_on_call pre k X :
  call_ok k = true -> console_free pre ->
  refactor_console_error (pre ++ call_text k ++ X)
  = pre ++ after "error" k ++ refactor_console_error X.
Proof.
  intros Hk Hpre. pose proof (call_ok_body k Hk) as Hb.
  destruct (String.eqb_spec (call_level k) "error") as [E | E].
  - replace (after "error" k) with (emitted k)
      by (rewrite <- E; symmetry; apply after_same).
    destruct k as [l c | l c | l c]; cbn [call_level call_text emitted] in *;
      subst l; cbn [String.eqb Ascii.eqb Bool.eqb target_of].
    + destruct Hb as (H1 & H2 & H3 & H4). apply error_on_var; assumption.
    + destruct Hb as (H1 & H2 & H3 & H4). apply error_on_template; auto.
    + destruct Hb as (H1 & H2 & H3). apply error_on_simple; assumption.
  - rewrite (after_other _ _ E). apply error_on_other; assumption.
Qed.

Lemma warn_on_call pre k X :
  call_ok k = true -> console_free pre ->
  refactor_console_warn (pre ++ call_text k ++ X)
  = pre ++ after "warn" k ++ refactor_console_warn X.
Proof.
  intros Hk Hpre. pose proof (call_ok_body k Hk) as Hb.
  destruct (String.eqb_spec (call_level k) "warn") as [E | E].
  - replace (after "warn" k) with (emitted k)
      by (rewrite <- E; symmetry; apply after_same).
    destruct k as [l c | l c | l c]; cbn [call_level call_text emitted] in *;
      subst l; cbn [String.eqb Ascii.eqb Bool.eqb target_of].
    + destruct Hb as (H1 & H2 & H3 & H4). apply warn_on_var; assumption.
    + destruct Hb as (H1 & H2 & H3 & H4). apply warn_on_template; auto.
    + destruct Hb as (H1 & H2 & H3). apply warn_on_simple; assumption.
  - rewrite (after_other _ _ E). apply warn_on_other; assumption.
Qed.

Lemma log_on_call pre k X :
  call_ok k = true -> console_free pre ->
  refactor_console_log (pre ++ call_text k ++ X)
  = pre ++ after "log" k ++ refactor_console_log X.
Proof.
  intros Hk Hpre. pose proof (call_ok_body k Hk) as Hb.
  destruct (String.eqb_spec (call_level k) "log") as [E | E].
  - replace (after "log" k) with (emitted k)
      by (rewrite <- E; symmetry; apply after_same).
    destruct k as [l c | l c | l c]; cbn [call_level call_text emitted] in *;
      subst l; cbn [String.eqb Ascii.eqb Bool.eqb target_of].
    + destruct Hb as (H1 & H2 & H3 & H4). apply log_on_var; assumption.
    + destruct Hb as (H1 & H2 & H3 & H4). apply log_on_template; auto.
    + destruct Hb as (H1 & H2 & H3). apply log_on_simple; assumption.
  - rewrite (after_other _ _ E). apply log_on_other; assumption.
Qed.

(** The functions copy a free, sealed stretch. *)
Lemma error_past P X :
  console_free P -> sealed P = true ->
  refactor_console_error (P ++ X) = P ++ refactor_console_error X.
Proof.
  intros Hf Hs. unfold refactor_console_error.
  unfold with_var_pattern at 1. rewrite step_past by auto.
  unfold template_pattern at 1. rewrite step_past by auto.
  unfold simple_pattern at 1. rewrite step_past by auto.
  reflexivity.
Qed.

Lemma warn_past P X :
  console_free P -> sealed P = true ->
  refactor_console_warn (P ++ X) = P ++ refactor_console_warn X.
Proof.
  intros Hf Hs. unfold refactor_console_warn.
  unfold template_pattern at 1. rewrite step_past by auto.
  unfold with_var_pattern at 1. rewrite step_past by auto.
  unfold simple_pattern at 1. rewrite step_past by auto.
  reflexivity.
Qed.

Lemma log_past P X :
  console_free P -> sealed P = true ->
  refactor_console_log (P ++ X) = P ++ refactor_console_log X.
Proof.
  intros Hf Hs. unfold refactor_console_log.
  unfold template_pattern at 1. rewrite step_past by auto.
  unfold simple_pattern at 1. rewrite step_past by auto.
  reflexivity.
Qed.

Lemma calls_past P X :
  console_free P -> sealed P = true ->
  refactor_calls (P ++ X) = P ++ refactor_calls X.
Proof.
  intros Hf Hs. unfold refactor_calls.
  rewrite error_past, warn_past, log_past by assumption. reflexivity.
Qed.





(** *** Texts with several calls *)

Lemma doc_ok_cons g k ps tail :
  doc_ok ((g, k) :: ps, tail) = true ->
  console_free g /\ call_ok k = true /\ doc_ok (ps, tail) = true.
Proof.
  unfold doc_ok. cbn [fst snd forallb]. rewrite !andb_true_iff.
  intros [[[Hg Hk] Hps] Ht]. split; [apply free_spec, Hg|]. auto.
Qed.

Lemma doc_ok_nil tail : doc_ok ([], tail) = true -> console_free tail.
Proof. unfold doc_ok. cbn [fst snd forallb andb]. apply free_spec. Qed.

Lemma error_on_doc d :
  doc_ok d = true ->
  refactor_console_error (doc_text d) = doc_after "error" d.
Proof.
  destruct d as [ps tail]. unfold doc_text, doc_after. cbn [fst snd].
  induction ps as [|[g k] ps IH]; intros H; cbn [pieces_text].
  - apply refactor_console_error_free, doc_ok_nil, H.
  - destruct (doc_ok_cons _ _ _ _ H) as (Hg & Hk & Hps).
    rewrite (error_on_call g k _ Hk Hg), (IH Hps). reflexivity.
Qed.

Lemma warn_on_doc d :
  doc_ok d = true ->
  refactor_console_warn (doc_text d) = doc_after "warn" d.
Proof.
  destruct d as [ps tail]. unfold doc_text, doc_after. cbn [fst snd].
  induction ps as [|[g k] ps IH]; intros H; cbn [pieces_text].
  - apply refactor_console_warn_free, doc_ok_nil, H.
  - destruct (doc_ok_cons _ _ _ _ H) as (Hg & Hk & Hps).
    rewrite (warn_on_call g k _ Hk Hg), (IH Hps). reflexivity.
Qed.

Lemma log_on_doc d :
  doc_ok d = true ->
  refactor_console_log (doc_text d) = doc_after "log" d.
Proof.
  destruct d as [ps tail]. unfold doc_text, doc_after. cbn [fst snd].
  induction ps as [|[g k] ps IH]; intros H; cbn [pieces_text].
  - apply refactor_console_log_free, doc_ok_nil, H.
  - destruct (doc_ok_cons _ _ _ _ H) as (Hg & Hk & Hps).
    rewrite (log_on_call g k _ Hk Hg), (IH Hps). reflexivity.
Qed.




End Logger_call_in_text.

(* ------------------------------------------------------------------ *)
(** ** A second run of refactor-logger.py *)

Section Logger_rerun.
Import Logger Logger_spec Logger_calls Logger_docs Logger_docs.

Lemma has_logger_import_suffix pre rest :
  has_logger_import rest = true -> has_logger_import (pre ++ rest) = true.
Proof.
  unfold has_logger_import. rewrite !orb_true_iff.
  intros [H | H]; [left | right];
    apply contains_iff in H; destruct H as (a & b & ->);
    apply contains_iff; exists (pre ++ a), b; rewrite <- !app_assoc; reflexivity.
Qed.










(** Where [add_logger_import] puts its line: on top, or before a line
    feed, or at the end. *)
Lemma add_logger_import_cases (c : text) :
  has_logger_import c = false ->
  add_logger_import c = IMPORT_LINE ++ LF :: LF :: c
  \/ exists a b, c = a ++ b /\ (b = [] \/ exists b', b = LF :: b')
                 /\ add_logger_import c = a ++ LF :: IMPORT_LINE ++ b.
Proof.
  intros H.
  destruct (Logger_facts.add_logger_import_place c H)
    as [[_ Htop] | (before & l & after & E & _ & _ & Ea)]; [left; exact Htop|].
  right. rewrite Ea.
  exists (join_lines (before ++ [l])),
         (match after with [] => [] | _ => LF :: join_lines after end).
  split; [|split].
  - rewrite <- (join_split c), E.
    replace (before ++ l :: after) with ((before ++ [l]) ++ after)
      by (rewrite <- app_assoc; reflexivity).
    destruct after as [|l2 after]; [rewrite !app_nil_r; reflexivity|].
    apply join_lines_app; [destruct before|]; discriminate.
  - destruct after; [left; reflexivity | right; eauto].
  - replace (before ++ l :: IMPORT_LINE :: after)
      with ((before ++ [l]) ++ IMPORT_LINE :: after)
      by (rewrite <- app_assoc; reflexivity).
    rewrite join_lines_app by (try discriminate; destruct before; discriminate).
    rewrite join_lines_cons. reflexivity.
Qed.



End Logger_rerun.

(* ------------------------------------------------------------------ *)
(** ** The count of occurrences, line by line *)

Section Count_lines.
Import Logger Logger_spec.

(** A match of the pattern of the count is the word [console.] and a
    level. *)
Lemma console_match_shape b s cs rest :
  match_here console_pattern b s = Some (cs, rest) ->
  exists level, In level levels /\ s = CONSOLE ++ txt level ++ rest.
Proof.
  unfold match_here, console_pattern. cbn [rmatch].
  destruct (lit_go (txt "console.") s) as [t|] eqn:E0; [|discriminate].
  apply lit_go_some in E0. subst s.
  destruct (lit_go (txt "log") t) as [t1|] eqn:E1.
  { intros H. inversion H; subst. apply lit_go_some in E1. subst t.
    exists "log"%string. split; [cbn; auto | reflexivity]. }
  destruct (lit_go (txt "warn") t) as [t2|] eqn:E2.
  { intros H. inversion H; subst. apply lit_go_some in E2. subst t.
    exists "warn"%string. split; [cbn; auto | reflexivity]. }
  destruct (lit_go (txt "error") t) as [t3|] eqn:E3; [|discriminate].
  intros H. inversion H; subst. apply lit_go_some in E3. subst t.
  exists "error"%string. split; [cbn; auto | reflexivity].
Qed.

Lemma level_word_no_lf level :
  In level levels -> ~ In LF (CONSOLE ++ txt level).
Proof.
  intros [<- | [<- | [<- | []]]]; cbv; intuition discriminate.
Qed.

Lemma scan_keep_first b c s :
  match_here console_pattern b (c :: s) = None ->
  hits (scan_go console_pattern b (c :: s) 0)
  = hits (scan_go console_pattern true s 0).
Proof.
  intros H. cbn [scan_go]. rewrite H. cbn [hits].
  rewrite (scan_go_flag console_pattern eq_refl s 0 false true). reflexivity.
Qed.

Lemma scan_hit_first level rest :
  In level levels ->
  hits (scan_go console_pattern true (CONSOLE ++ txt level ++ rest) 0)
  = S (hits (scan_go console_pattern true rest 0)).
Proof.
  intros Hl. destruct (console_pattern_at_level level rest true Hl) as [cs Hm].
  replace (CONSOLE ++ txt level ++ rest) with ((CONSOLE ++ txt level) ++ rest)
    in * by (rewrite <- app_assoc; reflexivity).
  pose proof (re_scan_hit console_pattern eq_refl (CONSOLE ++ txt level)
                rest cs) as H.
  unfold re_scan in H. rewrite H; [reflexivity | discriminate | exact Hm].
Qed.

(** Occurrences are counted line by line. *)
Lemma count_console_lf a :
  forall Y, count_console (a ++ LF :: Y) = count_console a + count_console Y.
Proof.
  unfold count_console, re_count, re_scan.
  remember (length a) as n eqn:En. revert a En.
  induction n as [n IH] using lt_wf_ind. intros a En Y.
  destruct a as [|c a].
  - cbn [app]. rewrite scan_keep_first by reflexivity. reflexivity.
  - destruct (match_here console_pattern true (c :: a)) as [[cs rest]|] eqn:Em.
    + destruct (console_match_shape _ _ _ _ Em) as (level & Hl & E).
      rewrite E, <- !app_assoc, !scan_hit_first by exact Hl.
      assert (Hlen : length rest < n).
      { subst n. rewrite E, !length_app. cbn. lia. }
      rewrite (IH (length rest) Hlen rest eq_refl Y). reflexivity.
    + assert (Em' : match_here console_pattern true ((c :: a) ++ LF :: Y)
                    = None).
      { destruct (match_here console_pattern true ((c :: a) ++ LF :: Y))
          as [[cs rest]|] eqn:Em'; [|reflexivity].
        exfalso. destruct (console_match_shape _ _ _ _ Em') as (level & Hl & E).
        assert (E' : (c :: a) ++ LF :: Y = (CONSOLE ++ txt level) ++ rest)
          by (rewrite E, <- app_assoc; reflexivity).
        destruct (list_app_eq_split _ _ _ _ E') as [l [[E1 E2] | [E1 E2]]].
        - destruct (console_pattern_at_level level l true Hl) as [cs' Hm].
          rewrite app_assoc, <- E1, Em in Hm. discriminate.
        - destruct l as [|x l].
          + rewrite app_nil_r in E1.
            destruct (console_pattern_at_level level [] true Hl) as [cs' Hm].
            rewrite app_assoc, app_nil_r, E1, Em in Hm. discriminate.
          + cbn [app] in E2. inversion E2; subst x.
            apply (level_word_no_lf level Hl). rewrite E1.
            apply in_or_app. right. left. reflexivity. }
      cbn [app] in *. rewrite !scan_keep_first by assumption.
      assert (Hlen : length a < n) by (subst n; cbn; lia).
      apply (IH (length a) Hlen a eq_refl Y).
Qed.

Lemma count_import_line : count_console IMPORT_LINE = 0.
Proof. reflexivity. Qed.

(** Putting the import line in does not change the count. *)
Lemma count_console_add_import c :
  count_console (add_logger_import c) = count_console c.
Proof.
  destruct (has_logger_import c) eqn:Hi.
  - unfold add_logger_import. rewrite Hi. reflexivity.
  - destruct (add_logger_import_cases c Hi)
      as [-> | (a & b & -> & Hb & ->)].
    + rewrite (count_console_lf IMPORT_LINE (LF :: c)), count_import_line.
      cbn [Nat.add]. apply (count_console_lf [] c).
    + rewrite (count_console_lf a).
      destruct Hb as [-> | [b' ->]].
      * rewrite !app_nil_r, count_import_line. lia.
      * rewrite (count_console_lf IMPORT_LINE), count_import_line.
        rewrite (count_console_lf a). reflexivity.
Qed.

Lemma add_logger_import_has c :
  has_logger_import (add_logger_import c) = true.
Proof.
  destruct (has_logger_import c) eqn:Hi.
  - unfold add_logger_import. rewrite Hi. exact Hi.
  - destruct (add_logger_import_cases c Hi)
      as [-> | (a & b & -> & Hb & ->)].
    + apply has_logger_import_prefix. reflexivity.
    + replace (a ++ LF :: IMPORT_LINE ++ b)
        with ((a ++ [LF]) ++ IMPORT_LINE ++ b)
        by (rewrite <- app_assoc; reflexivity).
      apply has_logger_import_suffix, has_logger_import_prefix. reflexivity.
Qed.

Lemma logger_import_no_match (c : text) :
  has_logger_import c = true -> no_rewrite_match c = true ->
  refactor_text c = (c, 0%Z).
Proof.
  intros Hi Hn. unfold refactor_text.
  destruct (count_console c =? 0); [reflexivity|].
  unfold add_logger_import. rewrite Hi.
  pose proof (Logger_facts.no_rewrite_calls c Hn) as E.
  unfold refactor_calls in E. rewrite E. f_equal. lia.
Qed.

(** A text with an occurrence and no logger import, when no rewrite
    pattern matches once the import line is in. *)
Lemma logger_import_added c :
  count_console c <> 0 -> has_logger_import c = false ->
  no_rewrite_match (add_logger_import c) = true ->
  refactor_text c = (add_logger_import c, 0%Z) /\ add_logger_import c <> c.
Proof.
  intros Hc Hi Hn. split.
  - unfold refactor_text. apply Nat.eqb_neq in Hc. rewrite Hc.
    pose proof (Logger_facts.no_rewrite_calls _ Hn) as E.
    unfold refactor_calls in E. rewrite E, count_console_add_import.
    f_equal. lia.
  - intros E. pose proof (add_logger_import_has c) as H.
    rewrite E in H. congruence.
Qed.

End Count_lines.

(* ------------------------------------------------------------------ *)
(** ** The calls of refactor_logs.py *)

Lemma run_pass_eq p s n :
  run_pass p (s, n)
  = (re_sub (Seq (Lit "console.") (fst p)) (snd p) s,
     n + re_count (Seq (Lit "console.") (fst p)) s).
Proof. reflexivity. Qed.



Lemma run_misses ps :
  steps_ok ps ->
  forall pre call X n,
    console_free pre -> call_facts call ->
    Forall (fun p => step_misses p call) ps ->
    run_steps ps (pre ++ call ++ X, n)
    = (pre ++ call ++ fst (run_steps ps (X, n)), snd (run_steps ps (X, n))).
Proof.
  induction 1 as [|p ps Hp Hps IH]; intros pre call X n Hpre Hc Hm;
    cbn [run_steps]; [reflexivity|].
  inversion Hm as [|? ? Hm1 Hm2]; subst.
  rewrite !run_pass_eq.
  destruct Hc as (Hc1 & Hc2 & Hc3).
  destruct (pass_miss_then (fst p) (snd p) Hp pre call X Hpre Hc1 Hc2 Hc3
              (Hm1 X)) as [E1 E2].
  rewrite E1, E2. apply IH; try assumption. repeat split; assumption.
Qed.


Section Logs_doc_facts.
Import Logs_calls Logs_outputs Logs_docs.











End Logs_doc_facts.

(* ------------------------------------------------------------------ *)
(** ** The five passes at a call *)

Section Logs_call_in_text.
Import Logs_calls Logs_outputs Logs_docs.




Ltac call_hit lem :=
  intros X; unfold step_pattern; cbn [fst]; apply lem; assumption.


End Logs_call_in_text.

(* ------------------------------------------------------------------ *)
(** ** A second run of refactor_logs.py *)

Section Logs_rerun.
Import Logs_calls Logs_outputs Logs_docs.














End Logs_rerun.

(* ------------------------------------------------------------------ *)
(** ** No rewrite pattern matches the output *)

Section Logger_no_match_left.
Import Logger Logger_spec Logger_calls Logger_docs Logger_docs.

Section OnePattern.
Variable r' : regex.
Hypothesis Hr : bol_free r' = true.
Hypothesis Hmiss :
  forall c X, var_call_ok c = true -> (vc_open c = BQ -> vc_close c = BQ) ->
              match_here (Seq (Lit "console.") r') true
                (var_call_text "log" c ++ X) = None.


End OnePattern.



End Logger_no_match_left.

(* ------------------------------------------------------------------ *)
(** ** Sequences of requests to the file system *)

Lemma update_same fs p e : update fs p e p = e.
Proof. unfold update. rewrite String.eqb_refl. reflexivity. Qed.

Lemma update_other fs p e q : q <> p -> update fs p e q = fs q.
Proof. unfold update. intros H. apply String.eqb_neq in H. rewrite H. reflexivity. Qed.

Lemma store_spec f t :
  store f t
  = (mkFile (if fits f t then t
             else match room f with Some k => firstn k t | None => t end)
            (readable f) (writable f) (room f), fits f t).
Proof.
  unfold store, fits. destruct (room f) as [k|]; [|reflexivity].
  destruct (length t <=? k); reflexivity.
Qed.

Lemma store_kind f t :
  same_kind (Present f) (Present (fst (store f t))).
Proof. rewrite store_spec. cbn. auto. Qed.

Lemma store_fits f t : fits f t = true -> data (fst (store f t)) = t.
Proof. intros H. rewrite store_spec, H. reflexivity. Qed.

Lemma same_kind_refl e : same_kind e e.
Proof. destruct e; cbn; auto. Qed.

Lemma same_kind_trans e1 e2 e3 :
  same_kind e1 e2 -> same_kind e2 e3 -> same_kind e1 e3.
Proof.
  destruct e1, e2, e3; cbn; try tauto; try congruence.
  intros (A & B & C) (A' & B' & C'). repeat split; congruence.
Qed.

Section Asks.
Variable out : text -> text.

Lemma asks_all_one fs tr fs' : asks out fs tr fs' -> asks_all out fs tr fs'.
Proof.
  intros H. rewrite <- (app_nil_r tr). eapply asks_more; [exact H | constructor].
Qed.

Lemma asks_all_app fs tr1 fs1 tr2 fs2 :
  asks_all out fs tr1 fs1 -> asks_all out fs1 tr2 fs2 ->
  asks_all out fs (tr1 ++ tr2) fs2.
Proof.
  induction 1 as [|fs ta fa tb fb Ha Hb IH]; intros H2; [exact H2|].
  rewrite <- app_assoc. eapply asks_more; [exact Ha | apply IH, H2].
Qed.

Lemma asks_kind fs tr fs' q : asks out fs tr fs' -> same_kind (fs q) (fs' q).
Proof.
  intros H. destruct H; try apply same_kind_refl.
  destruct (String.eqb_spec q p) as [-> | Hq].
  - rewrite update_same, H. apply store_kind.
  - rewrite update_other by exact Hq. apply same_kind_refl.
Qed.

Lemma asks_all_kind fs tr fs' q :
  asks_all out fs tr fs' -> same_kind (fs q) (fs' q).
Proof.
  induction 1 as [|fs ta fa tb fb Ha Hb IH]; [apply same_kind_refl|].
  eapply same_kind_trans; [eapply asks_kind; exact Ha | exact IH].
Qed.

Lemma asks_frame fs tr fs' q :
  asks out fs tr fs' -> never_written q tr -> fs' q = fs q.
Proof.
  intros H Hn. destruct H; try reflexivity.
  destruct (String.eqb_spec q p) as [-> | Hq].
  - exfalso. apply (Hn (out (data f))). right. left. reflexivity.
  - apply update_other, Hq.
Qed.

Lemma never_written_app q tr1 tr2 :
  never_written q (tr1 ++ tr2) <-> never_written q tr1 /\ never_written q tr2.
Proof.
  unfold never_written. split.
  - intros H. split; intros t Hin; apply (H t), in_or_app; auto.
  - intros [H1 H2] t Hin. apply in_app_or in Hin.
    destruct Hin; [eapply H1 | eapply H2]; eauto.
Qed.

Lemma asks_all_frame fs tr fs' q :
  asks_all out fs tr fs' -> never_written q tr -> fs' q = fs q.
Proof.
  induction 1 as [|fs ta fa tb fb Ha Hb IH]; intros Hn; [reflexivity|].
  apply never_written_app in Hn. destruct Hn as [Hn1 Hn2].
  rewrite (IH Hn2). eapply asks_frame; eauto.
Qed.

Lemma asks_fixed fs tr fs' q f :
  asks out fs tr fs' -> fs q = Present f -> out (data f) = data f ->
  never_written q tr.
Proof.
  intros H Hq Hf t Hin. destruct H; cbn in Hin;
    repeat (destruct Hin as [Hin | Hin]; try discriminate Hin);
    try contradiction;
    inversion Hin; subst; rewrite Hq in H; inversion H; subst; contradiction.
Qed.

Lemma asks_all_fixed fs tr fs' q f :
  asks_all out fs tr fs' -> fs q = Present f -> out (data f) = data f ->
  never_written q tr /\ fs' q = Present f.
Proof.
  induction 1 as [|fs ta fa tb fb Ha Hb IH]; intros Hq Hf.
  - split; [intros t []| exact Hq].
  - pose proof (asks_fixed _ _ _ _ _ Ha Hq Hf) as Hn1.
    assert (Hq1 : fa q = Present f)
      by (rewrite (asks_frame _ _ _ _ Ha Hn1); exact Hq).
    destruct (IH Hq1 Hf) as [Hn2 Hq2].
    split; [apply never_written_app; auto | exact Hq2].
Qed.

Lemma writes_follow_reads_nil : writes_follow_reads out [].
Proof. intros [|? ?] p t l2 H; discriminate. Qed.

Lemma asks_guarded fs tr fs' : asks out fs tr fs' -> writes_follow_reads out tr.
Proof.
  intros H l1 p0 t l2 E. destruct H.
  - destruct l1; discriminate.
  - destruct l1 as [|? [|? ?]]; discriminate.
  - destruct l1 as [|? [|? ?]]; discriminate.
  - destruct l1 as [|x [|y l1]]; try discriminate.
    + inversion E; subst. exists [], (data f). auto.
    + inversion E. destruct l1; discriminate.
  - destruct l1 as [|x [|y l1]]; try discriminate.
    + inversion E; subst. exists [], (data f). auto.
    + inversion E. destruct l1; discriminate.
Qed.

Lemma writes_follow_reads_app tr1 tr2 :
  writes_follow_reads out tr1 -> writes_follow_reads out tr2 ->
  writes_follow_reads out (tr1 ++ tr2).
Proof.
  intros H1 H2 l1 p t l2 E.
  assert (Hcases : (exists l2', tr1 = l1 ++ Write p t :: l2')
                   \/ (exists l1', l1 = tr1 ++ l1'
                                   /\ tr2 = l1' ++ Write p t :: l2)).
  { clear H1 H2. revert l1 E. induction tr1 as [|x tr1 IH]; intros l1 E.
    - right. exists l1. auto.
    - destruct l1 as [|y l1]; cbn [app] in E; inversion E; subst.
      + left. exists tr1. reflexivity.
      + destruct (IH l1 H1) as [[l2' ->] | (l1' & -> & ->)].
        * left. exists l2'. reflexivity.
        * right. exists l1'. auto. }
  destruct Hcases as [[l2' E1] | (l1' & -> & E2)].
  - apply (H1 _ _ _ _ E1).
  - destruct (H2 _ _ _ _ E2) as (l0 & c & -> & Ht & Hne).
    exists (tr1 ++ l0), c. rewrite app_assoc. auto.
Qed.

Lemma asks_all_guarded fs tr fs' :
  asks_all out fs tr fs' -> writes_follow_reads out tr.
Proof.
  induction 1 as [|fs ta fa tb fb Ha Hb IH]; [apply writes_follow_reads_nil|].
  apply writes_follow_reads_app; [eapply asks_guarded; exact Ha | exact IH].
Qed.

Lemma within_nil ps : within ps [].
Proof. intros o []. Qed.

Lemma within_app ps tr1 tr2 :
  within ps tr1 -> within ps tr2 -> within ps (tr1 ++ tr2).
Proof.
  intros H1 H2 o Hin. apply in_app_or in Hin. destruct Hin; auto.
Qed.

Lemma history_refl ps w : history out ps w w.
Proof.
  split; [split; reflexivity|]. split.
  - exists []. unfold printed_since. rewrite app_nil_r. reflexivity.
  - exists []. split; [|split; [constructor | apply within_nil]].
    unfold asked_since. rewrite app_nil_r. reflexivity.
Qed.

Lemma history_trans ps w1 w2 w3 :
  history out ps w1 w2 -> history out ps w2 w3 -> history out ps w1 w3.
Proof.
  intros ((C1 & F1) & (e1 & P1) & t1 & T1 & A1 & W1)
         ((C2 & F2) & (e2 & P2) & t2 & T2 & A2 & W2).
  unfold history, printed_since, asked_since in *.
  split; [split; congruence|]. split.
  - exists (e1 ++ e2). rewrite P2, P1, app_assoc. reflexivity.
  - exists (t1 ++ t2). split; [rewrite T2, T1, app_assoc; reflexivity|].
    split; [eapply asks_all_app; eauto | apply within_app; assumption].
Qed.

Lemma history_weaken ps ps' w w' :
  incl ps ps' -> history out ps w w' -> history out ps' w w'.
Proof.
  intros Hi (C & P & tr & T & A & W). split; [exact C|]. split; [exact P|].
  exists tr. split; [exact T|]. split; [exact A|].
  intros o Ho. apply Hi, W, Ho.
Qed.

End Asks.

(* ------------------------------------------------------------------ *)
(** ** The history of a run *)

Section History.
Variable out : text -> text.
Variable ps : list path.

Lemma history_printed w w' :
  console w' = console w -> closing w' = closing w ->
  disk w' = disk w -> trace w' = trace w ->
  (exists evs, printed w' = printed w ++ evs) ->
  history out ps w w'.
Proof.
  intros C F D T P. split; [split; assumption|]. split; [exact P|].
  exists []. split; [|split].
  - unfold asked_since. rewrite app_nil_r. exact T.
  - rewrite D. constructor.
  - apply within_nil.
Qed.

Lemma history_asked w tr fs' :
  asks out (disk w) tr fs' -> within ps tr ->
  history out ps w (mkWorld fs' (console w) (closing w) (printed w) (trace w ++ tr)).
Proof.
  intros H Hw. split; [split; reflexivity|]. split.
  - exists []. unfold printed_since. cbn. rewrite app_nil_r. reflexivity.
  - exists tr. split; [reflexivity|]. split; [apply asks_all_one, H | exact Hw].
Qed.

Lemma ret_history {A} (a : A) w : history out ps w (snd (ret a w)).
Proof. apply history_refl. Qed.

Lemma sys_exit_history {A} z w : history out ps w (snd (@sys_exit A z w)).
Proof. apply history_refl. Qed.

Lemma print_history e w : history out ps w (snd (print e w)).
Proof.
  unfold print. destruct (console w (printed w) e); cbn [snd].
  - apply history_printed; cbn; eauto.
  - apply history_refl.
Qed.

Lemma path_exists_history p w : history out ps w (snd (path_exists p w)).
Proof.
  unfold path_exists. destruct (disk w p); apply history_refl.
Qed.

Lemma bind_history {A B} (m : io A) (k : A -> io B) :
  (forall w, history out ps w (snd (m w))) ->
  (forall a w, history out ps w (snd (k a w))) ->
  forall w, history out ps w (snd (bind m k w)).
Proof.
  intros Hm Hk w. unfold bind. pose proof (Hm w) as H.
  destruct (m w) as [[a | | z] w1]; cbn [snd] in *; [|exact H|exact H].
  eapply history_trans; [exact H | apply Hk].
Qed.

Lemma try_except_history {A} (body handler : io A) :
  (forall w, history out ps w (snd (body w))) ->
  (forall w, history out ps w (snd (handler w))) ->
  forall w, history out ps w (snd (try_except body handler w)).
Proof.
  intros Hb Hh w. unfold try_except. pose proof (Hb w) as H.
  destruct (body w) as [[a | | z] w1]; cbn [snd] in *; [exact H| |exact H].
  eapply history_trans; [exact H | apply Hh].
Qed.

End History.

Lemma text_eqb_neq a b : text_eqb a b = false -> a <> b.
Proof.
  intros H E. subst b. rewrite text_eqb_refl in H. discriminate.
Qed.

Section Logger_history.
Import Logger Logger_spec.

Lemma logger_failure_history ps p w :
  history output ps w
    (snd ((print (ErrorRefactoring p) ;; ret (false, 0%Z))%io w)).
Proof.
  apply bind_history; intros; [apply print_history | apply ret_history].
Qed.

Lemma logger_refactor_file_history ps p w :
  In p ps -> history output ps w (snd (refactor_file p w)).
Proof.
  intros Hp.
  assert (H1 : forall got, within ps [Read p got]).
  { intros got o [<- | []]. exact Hp. }
  assert (H2 : forall got t, within ps [Read p got; Write p t]).
  { intros got t o [<- | [<- | []]]; exact Hp. }
  unfold refactor_file, try_except.
  unfold bind at 1. unfold read_text.
  destruct (disk w p) as [c| |f] eqn:E.
  - eapply history_trans; [|apply logger_failure_history].
    apply (history_asked output ps w [Read p None]); [constructor | apply H1].
  - eapply history_trans; [|apply logger_failure_history].
    apply (history_asked output ps w [Read p None]); [constructor | apply H1].
  - destruct (readable f) eqn:Er.
    2:{ eapply history_trans; [|apply logger_failure_history].
        apply (history_asked output ps w [Read p None]);
          [constructor | apply H1]. }
    pose proof (eq_refl : output (data f) = fst (refactor_text (data f))) as Eo.
    destruct (refactor_text (data f)) as [content n] eqn:Et. cbn [fst] in Eo.
    subst content.
    destruct (text_eqb (output (data f)) (data f)) eqn:Eq; cbn [negb].
    + apply text_eqb_eq in Eq. cbn [ret snd].
      apply (history_asked output ps w [Read p (Some (data f))]);
        [apply asks_read; assumption | apply H1].
    + apply text_eqb_neq in Eq.
      unfold bind, write_text. cbn [disk asked trace console closing printed].
      rewrite E. destruct (writable f) eqn:Ew.
      * rewrite store_spec.
        assert (Hw : history output ps w
                  (mkWorld (update (disk w) p
                              (Present (fst (store f (output (data f))))))
                           (console w) (closing w) (printed w)
                           (trace w ++ [Read p (Some (data f));
                                        Write p (output (data f))]))).
        { apply history_asked; [apply asks_write; assumption | apply H2]. }
        rewrite store_spec in Hw. cbn [fst] in Hw.
        rewrite <- app_assoc. cbn [app].
        destruct (fits f (output (data f))); cbn [ret snd]; [exact Hw|].
        eapply history_trans; [exact Hw | apply logger_failure_history].
      * eapply history_trans; [|apply logger_failure_history].
        unfold asked. cbn [disk console closing printed trace].
        rewrite <- app_assoc. cbn [app].
        apply (history_asked output ps w
                 [Read p (Some (data f)); Write p (output (data f))]);
          [apply asks_write_refused; assumption | apply H2].
Qed.

Lemma logger_process_history ps args :
  incl args ps ->
  forall results w, history output ps w (snd (process args results w)).
Proof.
  induction args as [|a args IH]; intros Hi results w; cbn [process].
  - apply ret_history.
  - assert (Ha : In a ps) by (apply Hi; left; reflexivity).
    assert (Hi' : incl args ps) by (intros x Hx; apply Hi; right; exact Hx).
    revert w. apply bind_history; [apply path_exists_history|].
    intros found. destruct found; cbn [negb].
    + apply bind_history; [intros; apply logger_refactor_file_history, Ha|].
      intros [success count]. destruct success;
        (apply bind_history; [apply print_history | intros; apply IH, Hi']).
    + apply bind_history; [apply print_history | intros; apply IH, Hi'].
Qed.

Lemma logger_print_results_history ps results :
  forall w, history output ps w (snd (print_results results w)).
Proof.
  induction results as [|[name count] results IH]; cbn [print_results].
  - apply ret_history.
  - apply bind_history; [apply print_history | intros; apply IH].
Qed.

Lemma logger_main_history args w :
  history output args w (snd (main args w)).
Proof.
  unfold main. destruct args as [|a args].
  - revert w. apply bind_history; [apply print_history|].
    intros; apply sys_exit_history.
  - revert w. apply bind_history;
      [apply logger_process_history, incl_refl|].
    intros results. apply bind_history; [apply print_history|].
    intros _. apply bind_history; [apply logger_print_results_history|].
    intros _. apply bind_history; [apply print_history|].
    intros _. apply print_history.
Qed.

(** With an argument, [main] never ends in [sys.exit]. *)
Lemma print_no_exit e w z : fst (print e w) <> Exit z.
Proof. unfold print. destruct (console w (printed w) e); discriminate. Qed.

Lemma logger_refactor_file_no_exit p w z : fst (refactor_file p w) <> Exit z.
Proof.
  unfold refactor_file, try_except, bind, read_text.
  assert (Hh : forall w', fst (match print (ErrorRefactoring p) w' with
                               | (Ok _, w1) => ret (false, 0%Z) w1
                               | (Raise, w1) => (Raise, w1)
                               | (Exit z0, w1) => (Exit z0, w1)
                               end) <> Exit z).
  { intros w'. unfold print.
    destruct (console w' (printed w') (ErrorRefactoring p)); discriminate. }
  destruct (disk w p) as [c| |f]; try apply Hh.
  destruct (readable f); [|apply Hh].
  destruct (refactor_text (data f)) as [content n].
  destruct (negb (text_eqb content (data f))); [|discriminate].
  unfold write_text. cbn [disk asked].
  destruct (disk w p) as [[|]| |g]; try apply Hh; try discriminate.
  destruct (writable g); [|apply Hh].
  destruct (store g content) as [g' [|]]; [discriminate | apply Hh].
Qed.

Lemma logger_process_no_exit args :
  forall results w z, fst (process args results w) <> Exit z.
Proof.
  induction args as [|a args IH]; intros results w z; cbn [process].
  - discriminate.
  - unfold bind at 1. unfold path_exists.
    destruct (disk w a) as [c| |f]; cbn [negb]; try discriminate.
    + unfold bind. pose proof (print_no_exit (FileNotFound a) w) as Hp.
      destruct (print (FileNotFound a) w) as [[[]| |z1] w1]; cbn [fst] in *;
        [apply IH | discriminate | exfalso; eapply Hp; reflexivity].
    + unfold bind at 1.
      pose proof (logger_refactor_file_no_exit a w) as Hr.
      destruct (refactor_file a w) as [[[success count]| |z1] w1];
        cbn [fst] in *; [|discriminate|exfalso; eapply Hr; reflexivity].
      destruct success; unfold bind;
        match goal with
        | |- context [print ?e ?w0] =>
            pose proof (print_no_exit e w0) as Hp;
            destruct (print e w0) as [[[]| |z2] w2]; cbn [fst] in *;
            [apply IH | discriminate | exfalso; eapply Hp; reflexivity]
        end.
Qed.

Lemma logger_print_results_no_exit results :
  forall w z, fst (print_results results w) <> Exit z.
Proof.
  induction results as [|[name count] results IH]; intros w z;
    cbn [print_results]; [discriminate|].
  unfold bind. pose proof (print_no_exit (SummaryLine name count) w) as Hp.
  destruct (print (SummaryLine name count) w) as [[[]| |z1] w1];
    cbn [fst] in *; [apply IH | discriminate | exfalso; eapply Hp; reflexivity].
Qed.

Lemma logger_main_no_exit args w z :
  args <> [] -> fst (main args w) <> Exit z.
Proof.
  intros Hne. unfold main. destruct args as [|a args]; [contradiction|].
  unfold bind at 1.
  pose proof (logger_process_no_exit (a :: args) [] w) as H1.
  destruct (process (a :: args) [] w) as [[results| |z1] w1]; cbn [fst] in *;
    [|discriminate|exfalso; eapply H1; reflexivity].
  unfold bind at 1. pose proof (print_no_exit SummaryHeader w1) as H2.
  destruct (print SummaryHeader w1) as [[[]| |z2] w2]; cbn [fst] in *;
    [|discriminate|exfalso; eapply H2; reflexivity].
  unfold bind at 1. pose proof (logger_print_results_no_exit results w2) as H3.
  destruct (print_results results w2) as [[[]| |z3] w3]; cbn [fst] in *;
    [|discriminate|exfalso; eapply H3; reflexivity].
  unfold bind. pose proof (print_no_exit (TotalFiles (length results)) w3) as H4.
  destruct (print (TotalFiles (length results)) w3) as [[[]| |z4] w4];
    cbn [fst] in *; [|discriminate|exfalso; eapply H4; reflexivity].
  apply print_no_exit.
Qed.

End Logger_history.

Section Logs_history.
Import Logs.

Lemma logs_count_zero_text c :
  fst (refactor_text c) = 0 -> snd (refactor_text c) = c.
Proof.
  unfold refactor_text. destruct (passes c) as [content count]. cbn [fst snd].
  intros ->. reflexivity.
Qed.

Lemma logs_main_history args w :
  history Logs_spec.output (firstn 1 args) w (snd (main args w)).
Proof.
  unfold main. destruct args as [|p rest].
  - revert w. apply bind_history; [apply print_history|].
    intros; apply sys_exit_history.
  - cbn [firstn].
    assert (H1 : forall got, within [p] [Read p got]).
    { intros got o [<- | []]. left. reflexivity. }
    assert (H2 : forall got t, within [p] [Read p got; Write p t]).
    { intros got t o [<- | [<- | []]]; left; reflexivity. }
    unfold bind at 1. unfold path_exists.
    destruct (disk w p) as [c| |f] eqn:E; cbn [negb snd];
      [|apply history_refl|].
    + revert w E. intros w _. revert w.
      apply bind_history; [apply print_history|].
      intros; apply sys_exit_history.
    + unfold bind at 1. unfold refactor_file, bind, read_text. rewrite E.
      destruct (readable f) eqn:Er; cbn [ret snd].
      2:{ apply (history_asked Logs_spec.output [p] w [Read p None]);
            [constructor | apply H1]. }
      pose proof (eq_refl : Logs_spec.output (data f)
                            = snd (refactor_text (data f))) as Eo.
      pose proof (Logs_facts.logs_rewritten_differs (data f)) as Hd.
      pose proof (logs_count_zero_text (data f)) as H0.
      destruct (refactor_text (data f)) as [count content] eqn:Et.
      cbn [fst snd] in *. subst content.
      destruct (count =? 0) eqn:Ec.
      * apply Nat.eqb_eq in Ec.
        eapply history_trans; [|apply print_history].
        apply (history_asked Logs_spec.output [p] w [Read p (Some (data f))]);
          [apply asks_read; auto | apply H1].
      * apply Nat.eqb_neq in Ec.
        assert (Hne : Logs_spec.output (data f) <> data f) by (apply Hd; lia).
        unfold write_text. cbn [disk asked trace console closing printed].
        rewrite E. destruct (writable f) eqn:Ew.
        -- rewrite store_spec.
           assert (Hw : history Logs_spec.output [p] w
                     (mkWorld (update (disk w) p
                                 (Present (fst (store f (Logs_spec.output (data f))))))
                              (console w) (closing w) (printed w)
                              (trace w ++ [Read p (Some (data f));
                                           Write p (Logs_spec.output (data f))]))).
           { apply history_asked; [apply asks_write; assumption | apply H2]. }
           rewrite store_spec in Hw. cbn [fst] in Hw.
           rewrite <- app_assoc. cbn [app].
           destruct (fits f (Logs_spec.output (data f))); cbn [snd];
             [|exact Hw].
           eapply history_trans; [exact Hw | apply print_history].
        -- cbn [snd]. unfold asked. cbn [disk console closing printed trace].
           rewrite <- app_assoc. cbn [app].
           apply (history_asked Logs_spec.output [p] w
                    [Read p (Some (data f));
                     Write p (Logs_spec.output (data f))]);
             [apply asks_write_refused; assumption | apply H2].
Qed.

End Logs_history.

(* ------------------------------------------------------------------ *)
(** ** Runs in which every line can be printed *)

Lemma print_accepting e w :
  accepting w ->
  print e w
  = (Ok tt, mkWorld (disk w) (console w) (closing w) (printed w ++ [e]) (trace w)).
Proof. intros H. unfold print. rewrite H. reflexivity. Qed.

Lemma accepting_same w w' : console w' = console w -> accepting w -> accepting w'.
Proof. intros E H l e. rewrite E. apply H. Qed.

Section Logger_calm.
Import Logger Logger_spec Logger_runs.

Lemma visited_frame fs a evs new fs1 q :
  visited fs a evs new fs1 -> q <> a -> fs1 q = fs q.
Proof.
  intros H Hq. destruct H; try reflexivity; apply update_other, Hq.
Qed.

Lemma visited_kind fs a evs new fs1 q :
  visited fs a evs new fs1 -> same_kind (fs q) (fs1 q).
Proof.
  intros H. destruct H; try apply same_kind_refl;
    (destruct (String.eqb_spec q a) as [-> | Hq];
     [rewrite update_same, H; apply store_kind
     |rewrite update_other by exact Hq; apply same_kind_refl]).
Qed.

Lemma reachable_kind fs fs1 args :
  (forall q, same_kind (fs q) (fs1 q)) -> reachable fs args ->
  reachable fs1 args.
Proof.
  intros Hk Hr p Hp E. specialize (Hk p). specialize (Hr p Hp).
  rewrite E in Hk. destruct (fs p); cbn in Hk; contradiction.
Qed.

(** One turn of the loop. *)
Lemma logger_visit a w :
  accepting w -> disk w a <> Unreachable ->
  exists evs new w1,
    visited (disk w) a evs new (disk w1)
    /\ console w1 = console w /\ closing w1 = closing w
    /\ printed w1 = printed w ++ evs
    /\ forall rest results,
         process (a :: rest) results w = process rest (results ++ new) w1.
Proof.
  intros Ha Hr.
  assert (Hfail : forall w0, console w0 = console w ->
            (print (ErrorRefactoring a) ;; ret (false, 0%Z))%io w0
            = (Ok (false, 0%Z),
               mkWorld (disk w0) (console w0) (closing w0)
                       (printed w0 ++ [ErrorRefactoring a]) (trace w0))).
  { intros w0 E. unfold bind.
    rewrite (print_accepting _ _ (accepting_same _ _ E Ha)). reflexivity. }
  destruct (disk w a) as [c| |f] eqn:E; [|contradiction|].
  - exists [FileNotFound a], [],
      (mkWorld (disk w) (console w) (closing w) (printed w ++ [FileNotFound a]) (trace w)).
    cbn [disk console closing printed]. split; [eapply visit_missing; eauto|].
    split; [reflexivity|]. split; [reflexivity|]. split; [reflexivity|].
    intros rest results. cbn [process]. unfold bind at 1. unfold path_exists.
    rewrite E. cbn [negb]. unfold bind at 1.
    rewrite (print_accepting _ _ Ha), app_nil_r. reflexivity.
  - destruct (readable f) eqn:Er.
    2:{ exists [ErrorRefactoring a; Failed (path_name a)], [],
          (mkWorld (disk w) (console w) (closing w)
             (printed w ++ [ErrorRefactoring a; Failed (path_name a)])
             (trace w ++ [Read a None])).
        cbn [disk console closing printed]. split; [eapply visit_unreadable; eauto|].
        split; [reflexivity|]. split; [reflexivity|]. split; [reflexivity|].
        intros rest results. cbn [process]. unfold bind at 1.
        unfold path_exists. rewrite E. cbn [negb]. unfold bind at 1.
        unfold refactor_file, try_except. unfold bind at 1. unfold read_text.
        rewrite E, Er. rewrite Hfail by reflexivity.
        unfold bind at 1. rewrite print_accepting by exact Ha.
        cbn [asked disk console closing printed trace].
        rewrite app_nil_r, <- app_assoc. reflexivity. }
    pose proof (eq_refl : output (data f) = fst (refactor_text (data f))) as Eo.
    destruct (refactor_text (data f)) as [content n] eqn:Et.
    cbn [fst] in Eo. subst content.
    destruct (text_eqb (output (data f)) (data f)) eqn:Eq.
    + pose proof (proj1 (text_eqb_eq _ _) Eq) as Eq'.
      exists [Converted (path_name a) 0], [(path_name a, 0%Z)],
        (mkWorld (disk w) (console w) (closing w)
           (printed w ++ [Converted (path_name a) 0])
           (trace w ++ [Read a (Some (data f))])).
      cbn [disk console closing printed]. split; [eapply visit_unchanged; eauto|].
      split; [reflexivity|]. split; [reflexivity|]. split; [reflexivity|].
      intros rest results. cbn [process]. unfold bind at 1.
      unfold path_exists. rewrite E. cbn [negb]. unfold bind at 1.
      unfold refactor_file, try_except. unfold bind at 1. unfold read_text.
      rewrite E, Er, Et, Eq. cbn [negb ret].
      unfold bind at 1. rewrite print_accepting by exact Ha. reflexivity.
    + pose proof (text_eqb_neq _ _ Eq) as Hne.
      destruct (writable f) eqn:Ew.
      * destruct (fits f (output (data f))) eqn:Ef.
        -- exists [Converted (path_name a) n], [(path_name a, n)],
             (mkWorld (update (disk w) a
                         (Present (fst (store f (output (data f))))))
                (console w) (closing w) (printed w ++ [Converted (path_name a) n])
                (trace w ++ [Read a (Some (data f));
                             Write a (output (data f))])).
           cbn [disk console closing printed]. split.
           { replace n with (snd (refactor_text (data f)))
               by (rewrite Et; reflexivity).
             eapply visit_written; eauto. }
           split; [reflexivity|]. split; [reflexivity|]. split; [reflexivity|].
           intros rest results. cbn [process]. unfold bind at 1.
           unfold path_exists. rewrite E. cbn [negb]. unfold bind at 1.
           unfold refactor_file, try_except. unfold bind at 1.
           unfold read_text. rewrite E, Er, Et, Eq. cbn [negb].
           unfold bind at 1. unfold write_text.
           cbn [asked disk console closing printed trace].
           rewrite E, Ew, store_spec, Ef. cbn [ret fst].
           unfold bind at 1. rewrite print_accepting by exact Ha.
           unfold asked; cbn [disk console closing printed trace].
           rewrite <- app_assoc. reflexivity.
        -- exists [ErrorRefactoring a; Failed (path_name a)], [],
             (mkWorld (update (disk w) a
                         (Present (fst (store f (output (data f))))))
                (console w) (closing w)
                (printed w ++ [ErrorRefactoring a; Failed (path_name a)])
                (trace w ++ [Read a (Some (data f));
                             Write a (output (data f))])).
           cbn [disk console closing printed]. split; [eapply visit_short; eauto|].
           split; [reflexivity|]. split; [reflexivity|]. split; [reflexivity|].
           intros rest results. cbn [process]. unfold bind at 1.
           unfold path_exists. rewrite E. cbn [negb]. unfold bind at 1.
           unfold refactor_file, try_except. unfold bind at 1.
           unfold read_text. rewrite E, Er, Et, Eq. cbn [negb].
           unfold bind at 1. unfold write_text.
           cbn [asked disk console closing printed trace].
           rewrite E, Ew, store_spec, Ef. cbn [fst].
           rewrite Hfail by reflexivity.
           unfold bind at 1. rewrite print_accepting by exact Ha.
           unfold asked; cbn [disk console closing printed trace].
           rewrite app_nil_r, <- !app_assoc. reflexivity.
      * exists [ErrorRefactoring a; Failed (path_name a)], [],
          (mkWorld (disk w) (console w) (closing w)
             (printed w ++ [ErrorRefactoring a; Failed (path_name a)])
             (trace w ++ [Read a (Some (data f));
                          Write a (output (data f))])).
        cbn [disk console closing printed]. split; [eapply visit_refused; eauto|].
        split; [reflexivity|]. split; [reflexivity|]. split; [reflexivity|].
        intros rest results. cbn [process]. unfold bind at 1.
        unfold path_exists. rewrite E. cbn [negb]. unfold bind at 1.
        unfold refactor_file, try_except. unfold bind at 1.
        unfold read_text. rewrite E, Er, Et, Eq. cbn [negb].
        unfold bind at 1. unfold write_text.
        cbn [asked disk console closing printed trace].
        rewrite E, Ew. rewrite Hfail by reflexivity.
        unfold bind at 1. rewrite print_accepting by exact Ha.
        unfold asked; cbn [disk console closing printed trace].
        rewrite app_nil_r, <- !app_assoc. reflexivity.
Qed.

Lemma logger_process_calm args :
  forall results w,
    accepting w -> reachable (disk w) args ->
    exists evs new w',
      process args results w = (Ok (results ++ new), w')
      /\ visits (disk w) args evs new (disk w')
      /\ console w' = console w /\ closing w' = closing w
      /\ printed w' = printed w ++ evs.
Proof.
  induction args as [|a args IH]; intros results w Ha Hr.
  - exists [], [], w. cbn [process ret]. rewrite !app_nil_r.
    repeat split. constructor.
  - destruct (logger_visit a w Ha (Hr a (or_introl eq_refl)))
      as (evs1 & new1 & w1 & Hv & Hc & Hf & Hp & Hstep).
    assert (Ha1 : accepting w1) by (eapply accepting_same; eauto).
    assert (Hr1 : reachable (disk w1) args).
    { apply (reachable_kind (disk w)).
      - intros q. eapply visited_kind; eauto.
      - intros p Hin. apply Hr. right. exact Hin. }
    destruct (IH (results ++ new1) w1 Ha1 Hr1)
      as (evs2 & new2 & w' & Hrun & Hvs & Hc' & Hf' & Hp').
    exists (evs1 ++ evs2), (new1 ++ new2), w'.
    rewrite Hstep, Hrun, <- app_assoc. split; [reflexivity|].
    split; [econstructor; eauto|]. split; [congruence|].
    split; [congruence|].
    rewrite Hp', Hp, <- app_assoc. reflexivity.
Qed.

Lemma logger_print_results_calm results :
  forall w, accepting w ->
    print_results results w
    = (Ok tt,
       mkWorld (disk w) (console w) (closing w)
         (printed w ++ map (fun nc => SummaryLine (fst nc) (snd nc)) results)
         (trace w)).
Proof.
  induction results as [|[name count] results IH]; intros w Ha;
    cbn [print_results map fst snd].
  - unfold ret. rewrite app_nil_r. destruct w; reflexivity.
  - unfold bind. rewrite print_accepting by exact Ha.
    rewrite IH by (eapply accepting_same; [|exact Ha]; reflexivity).
    cbn [disk console closing printed trace]. rewrite <- app_assoc. reflexivity.
Qed.

Lemma logger_main_calm args w :
  args <> [] -> accepting w -> reachable (disk w) args ->
  exists evs results w',
    main args w = (Ok tt, w')
    /\ visits (disk w) args evs results (disk w')
    /\ closing w' = closing w
    /\ printed w' = printed w ++ evs ++ summary results.
Proof.
  intros Hne Ha Hr. destruct args as [|a args]; [contradiction|].
  destruct (logger_process_calm (a :: args) [] w Ha Hr)
    as (evs & new & w1 & Hrun & Hvs & Hc & Hf & Hp).
  cbn [app] in Hrun.
  assert (Ha1 : accepting w1) by (eapply accepting_same; eauto).
  eexists evs, new, _. split; [|split; [|split]].
  - unfold main. unfold bind at 1. rewrite Hrun.
    unfold bind at 1. rewrite print_accepting by exact Ha1.
    unfold bind at 1. rewrite logger_print_results_calm
      by (eapply accepting_same; [|exact Ha1]; reflexivity).
    unfold bind at 1. rewrite print_accepting
      by (eapply accepting_same; [|exact Ha1]; reflexivity).
    rewrite print_accepting
      by (eapply accepting_same; [|exact Ha1]; reflexivity).
    cbn [disk console closing printed trace]. reflexivity.
  - cbn [disk]. exact Hvs.
  - cbn [closing]. exact Hf.
  - cbn [printed]. rewrite Hp. unfold summary.
    rewrite <- !app_assoc. cbn [app]. reflexivity.
Qed.

(** What the visits print. *)
Lemma visited_converted fs a evs new fs1 :
  visited fs a evs new fs1 ->
  converted_of evs = new /\ length (filter closes evs) = 1
  /\ forall nc, In nc new -> fst nc = path_name a.
Proof.
  intros H. destruct H; cbn; repeat split; auto;
    intros nc Hin; try contradiction; destruct Hin as [<- | []]; reflexivity.
Qed.

Lemma converted_of_app a b :
  converted_of (a ++ b) = converted_of a ++ converted_of b.
Proof.
  induction a as [|e a IH]; [reflexivity|].
  destruct e; cbn [app converted_of]; rewrite IH; reflexivity.
Qed.

Lemma visits_converted fs args evs new fs' :
  visits fs args evs new fs' ->
  converted_of evs = new /\ length (filter closes evs) = length args
  /\ forall nc, In nc new -> exists p, In p args /\ fst nc = path_name p.
Proof.
  induction 1 as [|fs a rest evs1 new1 fs1 evs2 new2 fs2 Hv Hvs IH].
  - repeat split; auto. intros nc [].
  - destruct (visited_converted _ _ _ _ _ Hv) as (C1 & L1 & N1).
    destruct IH as (C2 & L2 & N2).
    rewrite converted_of_app, filter_app, length_app, C1, C2, L1, L2.
    repeat split; auto.
    intros nc Hin. apply in_app_or in Hin. destruct Hin as [Hin | Hin].
    + exists a. split; [left; reflexivity | apply N1, Hin].
    + destruct (N2 nc Hin) as (p & Hp & E). exists p. split; [right|]; auto.
Qed.

(** What is reported on an argument, by the files found at the start. *)
Lemma visits_report fs args evs new fs' p :
  visits fs args evs new fs' -> In p args ->
  match fs p with
  | Absent _ => In (FileNotFound p) evs
  | Unreachable => False
  | Present f =>
      if readable f
      then if text_eqb (output (data f)) (data f)
           then In (Converted (path_name p) 0) evs
           else if writable f && fits f (output (data f))
                then In (Converted (path_name p)
                           (snd (refactor_text (data f)))) evs
                else In (ErrorRefactoring p) evs
                     /\ In (Failed (path_name p)) evs
      else In (ErrorRefactoring p) evs /\ In (Failed (path_name p)) evs
  end.
Proof.
  induction 1 as [|fs a rest evs1 new1 fs1 evs2 new2 fs2 Hv Hvs IH];
    intros Hin; [destruct Hin|].
  destruct (String.eqb_spec p a) as [-> | Hpa].
  - clear IH Hin. destruct Hv as [c E | f E Er | f E Er Eo | f E Er Eo Ew
                                  | f E Er Eo Ew Ef | f E Er Eo Ew Ef];
      rewrite E; try rewrite Er.
    + apply in_or_app. left. left. reflexivity.
    + split; apply in_or_app; left; cbn; auto.
    + rewrite Eo, text_eqb_refl. apply in_or_app. left. left. reflexivity.
    + destruct (text_eqb (output (data f)) (data f)) eqn:Eq;
        [apply text_eqb_eq in Eq; contradiction|].
      rewrite Ew. cbn [andb]. split; apply in_or_app; left; cbn; auto.
    + destruct (text_eqb (output (data f)) (data f)) eqn:Eq;
        [apply text_eqb_eq in Eq; contradiction|].
      rewrite Ew, Ef. cbn [andb]. split; apply in_or_app; left; cbn; auto.
    + destruct (text_eqb (output (data f)) (data f)) eqn:Eq;
        [apply text_eqb_eq in Eq; contradiction|].
      rewrite Ew, Ef. cbn [andb]. apply in_or_app. left. left. reflexivity.
  - destruct Hin as [<- | Hin]; [contradiction|].
    specialize (IH Hin). rewrite (visited_frame _ _ _ _ _ p Hv Hpa) in IH.
    destruct (fs p) as [c| |f]; [apply in_or_app; auto | exact IH |].
    destruct (readable f);
      [|destruct IH; split; apply in_or_app; auto].
    destruct (text_eqb (output (data f)) (data f)); [apply in_or_app; auto|].
    destruct (writable f && fits f (output (data f)));
      [apply in_or_app; auto | destruct IH; split; apply in_or_app; auto].
Qed.

End Logger_calm.

Section Logs_calm.
Import Logs.

(** The run of refactor_logs.py on its first argument, case by
    case. *)
Lemma logs_main_missing p rest w c :
  disk w p = Absent c ->
  main (p :: rest) w
  = (if console w (printed w) (ErrorFileNotFound p) then Exit 1%Z else Raise,
     if console w (printed w) (ErrorFileNotFound p)
     then mkWorld (disk w) (console w) (closing w) (printed w ++ [ErrorFileNotFound p])
                  (trace w)
     else w).
Proof.
  intros E. unfold main, bind, path_exists, print, sys_exit. rewrite E.
  cbn [negb]. destruct (console w (printed w) (ErrorFileNotFound p));
    reflexivity.
Qed.

Lemma logs_main_unreachable p rest w :
  disk w p = Unreachable -> main (p :: rest) w = (Raise, w).
Proof.
  intros E. unfold main, bind, path_exists. rewrite E. reflexivity.
Qed.

Lemma logs_main_unreadable p rest w f :
  disk w p = Present f -> readable f = false ->
  main (p :: rest) w = (Raise, asked (Read p None) w).
Proof.
  intros E Er. unfold main, bind, path_exists, refactor_file, bind, read_text.
  rewrite E. cbn [negb]. rewrite E, Er. reflexivity.
Qed.

Lemma logs_main_nothing p rest w f :
  disk w p = Present f -> readable f = true ->
  fst (refactor_text (data f)) = 0 ->
  main (p :: rest) w
  = print (NoConsoleStatements p) (asked (Read p (Some (data f))) w).
Proof.
  intros E Er Ec. unfold main, bind, path_exists, refactor_file, bind, read_text.
  rewrite E. cbn [negb]. rewrite E, Er. cbn [ret].
  destruct (refactor_text (data f)) as [count content]. cbn [fst] in Ec.
  subst count. reflexivity.
Qed.

Lemma logs_main_refused p rest w f :
  disk w p = Present f -> readable f = true ->
  fst (refactor_text (data f)) <> 0 -> writable f = false ->
  main (p :: rest) w
  = (Raise, asked (Write p (Logs_spec.output (data f)))
              (asked (Read p (Some (data f))) w)).
Proof.
  intros E Er Ec Ew.
  unfold main, bind, path_exists, refactor_file, bind, read_text.
  rewrite E. cbn [negb]. rewrite E, Er. cbn [ret].
  unfold Logs_spec.output.
  destruct (refactor_text (data f)) as [count content]. cbn [fst snd] in *.
  apply Nat.eqb_neq in Ec. rewrite Ec.
  unfold write_text. cbn [asked disk]. rewrite E, Ew. reflexivity.
Qed.

Lemma logs_main_short p rest w f :
  disk w p = Present f -> readable f = true ->
  fst (refactor_text (data f)) <> 0 -> writable f = true ->
  fits f (Logs_spec.output (data f)) = false ->
  main (p :: rest) w
  = (Raise,
     mkWorld (update (disk w) p
                (Present (fst (store f (Logs_spec.output (data f))))))
             (console w) (closing w) (printed w)
             (trace w ++ [Read p (Some (data f));
                          Write p (Logs_spec.output (data f))])).
Proof.
  intros E Er Ec Ew Ef.
  unfold main, bind, path_exists, refactor_file, bind, read_text.
  rewrite E. cbn [negb]. rewrite E, Er. cbn [ret].
  unfold Logs_spec.output in *.
  destruct (refactor_text (data f)) as [count content]. cbn [fst snd] in *.
  apply Nat.eqb_neq in Ec. rewrite Ec.
  unfold write_text. cbn [asked disk console closing printed trace].
  rewrite E, Ew, store_spec, Ef. cbn [fst]. rewrite <- app_assoc. reflexivity.
Qed.

Lemma logs_main_written p rest w f :
  disk w p = Present f -> readable f = true ->
  fst (refactor_text (data f)) <> 0 -> writable f = true ->
  fits f (Logs_spec.output (data f)) = true ->
  main (p :: rest) w
  = print (Refactored (fst (refactor_text (data f))) p)
      (mkWorld (update (disk w) p
                  (Present (fst (store f (Logs_spec.output (data f))))))
               (console w) (closing w) (printed w)
               (trace w ++ [Read p (Some (data f));
                            Write p (Logs_spec.output (data f))])).
Proof.
  intros E Er Ec Ew Ef.
  unfold main, bind, path_exists, refactor_file, bind, read_text.
  rewrite E. cbn [negb]. rewrite E, Er. cbn [ret].
  unfold Logs_spec.output in *.
  destruct (refactor_text (data f)) as [count content]. cbn [fst snd] in *.
  apply Nat.eqb_neq in Ec. rewrite Ec.
  unfold write_text. cbn [asked disk console closing printed trace].
  rewrite E, Ew, store_spec, Ef. cbn [fst]. rewrite <- app_assoc.
  unfold print. cbn [disk console closing printed trace].
  destruct (console w (printed w) (Refactored count p)); reflexivity.
Qed.

(** [main] ends normally, with an exception or with [sys.exit(1)]. *)
Lemma logs_main_ending args w :
  ending (main args w) = Ok tt \/ ending (main args w) = Raise
  \/ ending (main args w) = Exit 1%Z.
Proof.
  unfold ending. destruct args as [|p rest].
  { unfold main, bind, print, sys_exit.
    destruct (console w (printed w) Usage); cbn [fst]; auto. }
  destruct (disk w p) as [c| |f] eqn:E.
  { rewrite (logs_main_missing p rest w c E).
    destruct (console w (printed w) (ErrorFileNotFound p)); cbn [fst]; auto. }
  { rewrite (logs_main_unreachable p rest w E). cbn [fst]. auto. }
  destruct (readable f) eqn:Er.
  2:{ rewrite (logs_main_unreadable p rest w f E Er). cbn [fst]. auto. }
  destruct (Nat.eq_dec (fst (refactor_text (data f))) 0) as [Ec | Ec].
  { rewrite (logs_main_nothing p rest w f E Er Ec). unfold print.
    match goal with |- context [if ?b then _ else _] => destruct b end;
      cbn [fst]; auto. }
  destruct (writable f) eqn:Ew.
  2:{ rewrite (logs_main_refused p rest w f E Er Ec Ew). cbn [fst]. auto. }
  destruct (fits f (Logs_spec.output (data f))) eqn:Ef.
  2:{ rewrite (logs_main_short p rest w f E Er Ec Ew Ef). cbn [fst]. auto. }
  rewrite (logs_main_written p rest w f E Er Ec Ew Ef). unfold print.
  match goal with |- context [if ?b then _ else _] => destruct b end;
    cbn [fst]; auto.
Qed.

End Logs_calm.

(* ------------------------------------------------------------------ *)
(** ** Properties of the texts *)

Section Claims.
Import Logger_spec Logger_calls.



(** Claim C5, the code at the failing input.  A template literal
    followed by a variable is rewritten by the pass for a message and a
    variable, of [refactor_console_error] as of
    [refactor_console_warn], which keeps the marker; the pass for a
    template literal alone takes it out. *)
Theorem marker_kept_with_variable :
  Logger.refactor_console_error Samples.template_with_var
  = log_error_call (txt "err") (txt "Failed ${id}:")
  /\ Logger.refactor_console_warn Texts.warn_template_with_var
     = log_error_call (txt "err") (txt "Failed ${id}:")
  /\ Logger.refactor_text Samples.template_with_var
     = (Logger.IMPORT_LINE ++ LF :: LF
          :: log_error_call (txt "err") (txt "Failed ${id}:"), 1%Z)
  /\ Logger.refactor_console_error Texts.template_only
     = Logger.emit_msg "error" (txt "Failed :").
Proof. repeat split; vm_compute; reflexivity. Qed.

(** Claim C6, refuted as stated.  No rewrite pattern of
    refactor-logger.py matches a comment that names [console.log], and
    the text comes back with the import line in front. *)
Lemma unrecognised_text_gains_import :
  no_rewrite_match Texts.commented_call = true
  /\ Logger.refactor_text Texts.commented_call
     = (Logger.IMPORT_LINE ++ LF :: LF :: Texts.commented_call, 0%Z)
  /\ fst (Logger.refactor_text Texts.commented_call)
     <> Texts.commented_call.
Proof. repeat split; vm_compute; [reflexivity .. | discriminate]. Qed.

(** Claim C6, as amended.  refactor-logger.py returns the text it was
    given, with count 0, when the text has no occurrence of
    console.log, console.warn or console.error, and when it holds a
    logger import and no rewrite pattern matches it.  When it has an
    occurrence and no logger import, and no rewrite pattern matches
    once the import line is in, the text comes back with the import
    line added and nothing else changed, with count 0.  refactor_logs.py
    returns the text it was given, with count 0, when none of its five
    patterns matches. *)
Theorem no_logging_call_no_change (c : text) :
  (Logger.count_console c = 0 -> Logger.refactor_text c = (c, 0%Z))
  /\ (Logger.has_logger_import c = true ->
      Logger_spec.no_rewrite_match c = true ->
      Logger.refactor_text c = (c, 0%Z))
  /\ (Logger.count_console c <> 0 -> Logger.has_logger_import c = false ->
      Logger_spec.no_rewrite_match (Logger.add_logger_import c) = true ->
      Logger.refactor_text c = (Logger.add_logger_import c, 0%Z)
      /\ Logger.add_logger_import c <> c)
  /\ (Logs_spec.no_rewrite_match c = true -> Logs.refactor_text c = (0, c)).
Proof.
  split; [|split; [|split]].
  - apply Logger_facts.logger_no_console_text.
  - apply logger_import_no_match.
  - apply logger_import_added.
  - apply Logs_facts.logs_no_rewrite_text.
Qed.

Lemma no_logging_call_no_change_witness :
  Logger.refactor_text Samples.plain_js = (Samples.plain_js, 0%Z)
  /\ Logger.refactor_text
       (Logger.IMPORT_LINE ++ LF :: Samples.unmatched_call)
     = (Logger.IMPORT_LINE ++ LF :: Samples.unmatched_call, 0%Z)
  /\ (Logger.refactor_text Texts.commented_call
      = (Logger.add_logger_import Texts.commented_call, 0%Z)
      /\ Logger.add_logger_import Texts.commented_call
         <> Texts.commented_call)
  /\ Logs.refactor_text Samples.unmatched_call = (0, Samples.unmatched_call).
Proof.
  split; [|split; [|split]].
  - apply (proj1 (no_logging_call_no_change Samples.plain_js)). reflexivity.
  - apply (proj1 (proj2 (no_logging_call_no_change
                           (Logger.IMPORT_LINE ++ LF :: Samples.unmatched_call))));
      vm_compute; reflexivity.
  - apply (proj1 (proj2 (proj2 (no_logging_call_no_change
                                  Texts.commented_call))));
      vm_compute; [discriminate | reflexivity | reflexivity].
  - apply (proj2 (proj2 (proj2 (no_logging_call_no_change
                                  Samples.unmatched_call)))).
    vm_compute. reflexivity.
Defined.





End Claims.

(* ------------------------------------------------------------------ *)
(** ** Properties of the runs *)

Lemma filter_closes_summary results :
  filter closes (Logger_runs.summary results) = [].
Proof.
  unfold Logger_runs.summary. cbn [filter closes].
  rewrite filter_app. cbn [filter closes]. rewrite app_nil_r.
  induction results as [|nc results IH]; [reflexivity | exact IH].
Qed.

(** Claim C3, refuted as stated.  Given one argument,
    refactor_logs.py exits with status 1 when the file is missing and
    when it cannot be read; refactor-logger.py exits with status 1 when
    the check mark cannot be printed, and with status 120 when the
    streams cannot be flushed at the end. *)
Lemma exit_one_with_argument :
  exit_status (Logs.main ["missing.ts"%string] (Samples.calm Samples.no_files))
  = 1%Z
  /\ printed (final (Logs.main ["missing.ts"%string]
                       (Samples.calm Samples.no_files)))
     = [ErrorFileNotFound "missing.ts"%string]
  /\ exit_status (Logs.main ["secret.ts"%string]
                    (Samples.calm Samples.three_files)) = 1%Z
  /\ exit_status (Logger.main ["a.ts"%string]
                    (Samples.ascii_only
                       (Samples.one_file "a.ts"%string Samples.plain_js)))
     = 1%Z
  /\ exit_status (Logger.main ["a.ts"%string]
                    (Samples.full_device
                       (Samples.one_file "a.ts"%string Samples.plain_js)))
     = 120%Z.
Proof. repeat split; vm_compute; reflexivity. Qed.

(** Claim C3, as amended.  refactor-logger.py exits with a status
    other than 0 without argument.  With arguments it never calls
    [sys.exit]: [main] ends normally or with an exception that [exists]
    or [print] raised, and the status is 0 exactly when it ends
    normally and the streams can be flushed.  When every line can be
    printed, the streams can be flushed and every argument can be
    examined, it exits with status 0 and closes the report on each
    argument with one line: a missing file is reported as not found, a
    file that cannot be read or cannot be written in full as an error
    and as failed, every other file as converted.  refactor_logs.py
    looks at its first argument only and exits with a status other
    than 0 without argument and for a missing file; when every line
    can be printed and the streams can be flushed it exits with status
    0 exactly when the file can be read and, if a replacement was made,
    written in full. *)
Theorem exit_status_and_reports (args : list path) (w : world) :
  exit_status (Logger.main [] w) <> 0%Z
  /\ (args <> [] ->
      (ending (Logger.main args w) = Ok tt
       \/ ending (Logger.main args w) = Raise)
      /\ (exit_status (Logger.main args w) = 0%Z
          <-> ending (Logger.main args w) = Ok tt
              /\ closing (final (Logger.main args w))
                    (printed (final (Logger.main args w))) = true))
  /\ (args <> [] -> accepting w -> flushing w -> reachable (disk w) args ->
      exit_status (Logger.main args w) = 0%Z
      /\ length (filter closes (printed (final (Logger.main args w))))
         = length (filter closes (printed w)) + length args
      /\ forall p, In p args ->
           (forall c, disk w p = Absent c ->
              In (FileNotFound p) (printed (final (Logger.main args w))))
           /\ (forall f, disk w p = Present f -> readable f = false ->
                 In (ErrorRefactoring p) (printed (final (Logger.main args w)))
                 /\ In (Failed (path_name p))
                       (printed (final (Logger.main args w))))
           /\ (forall f, disk w p = Present f -> readable f = true ->
                 Logger_spec.output (data f) <> data f ->
                 writable f && fits f (Logger_spec.output (data f)) = false ->
                 In (ErrorRefactoring p) (printed (final (Logger.main args w)))
                 /\ In (Failed (path_name p))
                       (printed (final (Logger.main args w))))
           /\ (forall f, disk w p = Present f -> readable f = true ->
                 Logger_spec.output (data f) = data f ->
                 In (Converted (path_name p) 0)
                    (printed (final (Logger.main args w))))
           /\ (forall f, disk w p = Present f -> readable f = true ->
                 Logger_spec.output (data f) <> data f ->
                 writable f && fits f (Logger_spec.output (data f)) = true ->
                 In (Converted (path_name p)
                       (snd (Logger.refactor_text (data f))))
                    (printed (final (Logger.main args w)))))
  /\ exit_status (Logs.main [] w) <> 0%Z
  /\ (forall filepath rest,
        Logs.main (filepath :: rest) w = Logs.main [filepath] w
        /\ (forall c, disk w filepath = Absent c ->
              exit_status (Logs.main (filepath :: rest) w) <> 0%Z)
        /\ (accepting w -> flushing w ->
            (exit_status (Logs.main (filepath :: rest) w) = 0%Z
             <-> exists f,
                   disk w filepath = Present f /\ readable f = true
                   /\ (fst (Logs.refactor_text (data f)) = 0
                       \/ (writable f = true
                           /\ fits f (Logs_spec.output (data f)) = true))))).
Proof.
  assert (Hflush : forall w', flushing w -> closing w' = closing w ->
                              forall l, closing w' l = true).
  { intros w' Hf E l. rewrite E. apply Hf. }
  split; [|split; [|split; [|split]]].
  - unfold Logger.main, bind, print, sys_exit, exit_status, ending, final.
    destruct (console w (printed w) Usage); cbn [fst snd];
      match goal with |- context [closing ?a ?b] => destruct (closing a b) end;
      discriminate.
  - intros Hne. pose proof (logger_main_no_exit args w) as H.
    unfold exit_status, ending.
    destruct (closing (final (Logger.main args w))
                (printed (final (Logger.main args w))));
      destruct (fst (Logger.main args w)) as [[]| |z] eqn:E;
      try (exfalso; apply (H z Hne); reflexivity);
      (split; [auto|]); split; try discriminate; try tauto;
      intros [? ?]; discriminate.
  - intros Hne Ha Hf Hr.
    destruct (logger_main_calm args w Hne Ha Hr)
      as (evs & results & w' & Hrun & Hvs & Hcl & Hp).
    destruct (visits_converted _ _ _ _ _ Hvs) as (_ & Hlen & _).
    unfold exit_status, ending, final. rewrite Hrun. cbn [fst snd].
    rewrite (Hflush w' Hf Hcl).
    assert (Hin : forall e, In e evs -> In e (printed w')).
    { intros e He. rewrite Hp. apply in_or_app. right.
      apply in_or_app. left. exact He. }
    split; [reflexivity|].
    split.
    { rewrite Hp, !filter_app, !length_app, filter_closes_summary, Hlen.
      cbn [length]. lia. }
    intros p Hpin. pose proof (visits_report _ _ _ _ _ p Hvs Hpin) as Hrep.
    split; [|split; [|split; [|split]]].
    + intros c E. rewrite E in Hrep. apply Hin, Hrep.
    + intros f E Er. rewrite E, Er in Hrep.
      destruct Hrep; split; apply Hin; assumption.
    + intros f E Er Hne' Hw. rewrite E, Er in Hrep.
      destruct (text_eqb (Logger_spec.output (data f)) (data f)) eqn:Eq;
        [apply text_eqb_eq in Eq; contradiction|].
      rewrite Hw in Hrep. destruct Hrep; split; apply Hin; assumption.
    + intros f E Er Heq. rewrite E, Er in Hrep.
      rewrite (proj2 (text_eqb_eq _ _) Heq) in Hrep. apply Hin, Hrep.
    + intros f E Er Hne' Hw. rewrite E, Er in Hrep.
      destruct (text_eqb (Logger_spec.output (data f)) (data f)) eqn:Eq;
        [apply text_eqb_eq in Eq; contradiction|].
      rewrite Hw in Hrep. apply Hin, Hrep.
  - unfold Logs.main, bind, print, sys_exit, exit_status, ending, final.
    destruct (console w (printed w) Usage); cbn [fst snd];
      match goal with |- context [closing ?a ?b] => destruct (closing a b) end;
      discriminate.
  - intros p rest. split; [reflexivity|]. split.
    + intros c E. rewrite (logs_main_missing p rest w c E).
      unfold exit_status, ending, final. cbn [fst snd].
      destruct (console w (printed w) (ErrorFileNotFound p));
        match goal with |- context [closing ?a ?b] => destruct (closing a b) end;
        discriminate.
    + intros Ha Hf. destruct (disk w p) as [c| |f] eqn:E.
      * rewrite (logs_main_missing p rest w c E), Ha.
        unfold exit_status, ending, final. cbn [fst snd closing printed].
        rewrite Hf.
        split; [discriminate | intros (f & Hf' & _); discriminate].
      * rewrite (logs_main_unreachable p rest w E).
        unfold exit_status, ending, final. cbn [fst snd]. rewrite Hf.
        split; [discriminate | intros (f & Hf' & _); discriminate].
      * destruct (readable f) eqn:Er.
        2:{ rewrite (logs_main_unreadable p rest w f E Er).
            unfold exit_status, ending, final, asked.
            cbn [fst snd closing printed]. rewrite Hf.
            split; [discriminate|].
            intros (g & Hg & Hr & _). inversion Hg; subst. congruence. }
        destruct (Nat.eq_dec (fst (Logs.refactor_text (data f))) 0)
          as [Ec | Ec].
        { rewrite (logs_main_nothing p rest w f E Er Ec).
          rewrite print_accepting
            by (eapply accepting_same; [|exact Ha]; reflexivity).
          unfold exit_status, ending, final, asked.
          cbn [fst snd closing printed]. rewrite Hf.
          split; [|reflexivity]. intros _. exists f. auto. }
        destruct (writable f) eqn:Ew.
        2:{ rewrite (logs_main_refused p rest w f E Er Ec Ew).
            unfold exit_status, ending, final, asked.
            cbn [fst snd closing printed]. rewrite Hf.
            split; [discriminate|].
            intros (g & Hg & _ & [H0 | [Hw _]]); inversion Hg; subst;
              congruence. }
        destruct (fits f (Logs_spec.output (data f))) eqn:Ef.
        2:{ rewrite (logs_main_short p rest w f E Er Ec Ew Ef).
            unfold exit_status, ending, final.
            cbn [fst snd closing printed]. rewrite Hf.
            split; [discriminate|].
            intros (g & Hg & _ & [H0 | [_ Hf']]); inversion Hg; subst;
              congruence. }
        rewrite (logs_main_written p rest w f E Er Ec Ew Ef).
        rewrite print_accepting
          by (eapply accepting_same; [|exact Ha]; reflexivity).
        unfold exit_status, ending, final.
        cbn [fst snd closing printed]. rewrite Hf.
        split; [|reflexivity]. intros _. exists f. auto.
Qed.

Lemma exit_status_and_reports_witness :
  exit_status (Logger.main
                 ["missing.ts"; "secret.ts"; "locked.ts"; "a.ts"]%string
                 (Samples.calm Samples.three_files)) = 0%Z
  /\ In (FileNotFound "missing.ts"%string)
        (printed (final (Logger.main
                 ["missing.ts"; "secret.ts"; "locked.ts"; "a.ts"]%string
                 (Samples.calm Samples.three_files))))
  /\ In (ErrorRefactoring "secret.ts"%string)
        (printed (final (Logger.main
                 ["missing.ts"; "secret.ts"; "locked.ts"; "a.ts"]%string
                 (Samples.calm Samples.three_files))))
  /\ In (Failed "locked.ts"%string)
        (printed (final (Logger.main
                 ["missing.ts"; "secret.ts"; "locked.ts"; "a.ts"]%string
                 (Samples.calm Samples.three_files))))
  /\ In (Converted "a.ts"%string
           (snd (Logger.refactor_text Samples.failed_call)))
        (printed (final (Logger.main
                 ["missing.ts"; "secret.ts"; "locked.ts"; "a.ts"]%string
                 (Samples.calm Samples.three_files)))).
Proof.
  pose proof (proj1 (proj2 (proj2
    (exit_status_and_reports
       ["missing.ts"; "secret.ts"; "locked.ts"; "a.ts"]%string
       (Samples.calm Samples.three_files))))) as H.
  assert (Hne : ["missing.ts"; "secret.ts"; "locked.ts"; "a.ts"]%string <> [])
    by discriminate.
  assert (Ha : accepting (Samples.calm Samples.three_files))
    by (intros l e; reflexivity).
  assert (Hfl : flushing (Samples.calm Samples.three_files))
    by (intros l; reflexivity).
  assert (Hr : reachable (disk (Samples.calm Samples.three_files))
                 ["missing.ts"; "secret.ts"; "locked.ts"; "a.ts"]%string).
  { intros p [<- | [<- | [<- | [<- | []]]]]; vm_compute; discriminate. }
  destruct (H Hne Ha Hfl Hr) as (Hs & _ & Hrep).
  split; [exact Hs|].
  pose proof (Hrep "missing.ts"%string (or_introl eq_refl)) as (R1 & _).
  pose proof (Hrep "secret.ts"%string (or_intror (or_introl eq_refl)))
    as (_ & R2 & _).
  pose proof (Hrep "locked.ts"%string
                (or_intror (or_intror (or_introl eq_refl))))
    as (_ & _ & R3 & _).
  pose proof (Hrep "a.ts"%string
                (or_intror (or_intror (or_intror (or_introl eq_refl)))))
    as (_ & _ & _ & _ & R4).
  assert (Hl : Logger_spec.output Samples.unmatched_call
               <> Samples.unmatched_call) by (vm_compute; discriminate).
  assert (Hf : Logger_spec.output Samples.failed_call
               <> Samples.failed_call) by (vm_compute; discriminate).
  split; [exact (R1 true eq_refl)|].
  split; [exact (proj1 (R2 (mkFile Samples.plain_js false true None)
                          eq_refl eq_refl))|].
  split; [exact (proj2 (R3 (mkFile Samples.unmatched_call true false None)
                          eq_refl eq_refl Hl eq_refl))|].
  exact (R4 (Samples.plain_file Samples.failed_call)
            eq_refl eq_refl Hf eq_refl).
Defined.

(** The run of the example above, line by line. *)
Lemma logger_run_example :
  Logger.main ["missing.ts"; "secret.ts"; "locked.ts"; "a.ts"]%string
    (Samples.calm Samples.three_files)
  = (Ok tt,
     mkWorld
       (update Samples.three_files "a.ts"%string
          (Present (Samples.plain_file
                      (Logger_spec.output Samples.failed_call))))
       (fun _ _ => true) (fun _ => true)
       [FileNotFound "missing.ts"%string;
        ErrorRefactoring "secret.ts"%string; Failed "secret.ts"%string;
        ErrorRefactoring "locked.ts"%string; Failed "locked.ts"%string;
        Converted "a.ts"%string 1;
        SummaryHeader; SummaryLine "a.ts"%string 1;
        TotalFiles 1; TotalStatements 1]
       [Read "secret.ts"%string None;
        Read "locked.ts"%string (Some Samples.unmatched_call);
        Write "locked.ts"%string
          (Logger_spec.output Samples.unmatched_call);
        Read "a.ts"%string (Some Samples.failed_call);
        Write "a.ts"%string (Logger_spec.output Samples.failed_call)]).
Proof. vm_compute. reflexivity. Qed.

(** What a history says of the files. *)
Lemma history_files out ps w w' :
  history out ps w w' ->
  exists tr,
    trace w' = trace w ++ tr
    /\ writes_follow_reads out tr
    /\ within ps tr
    /\ (forall q, never_written q tr -> disk w' q = disk w q)
    /\ (forall q f, disk w q = Present f -> out (data f) = data f ->
          never_written q tr /\ disk w' q = Present f)
    /\ forall q, same_kind (disk w q) (disk w' q).
Proof.
  intros (_ & _ & tr & T & A & W). exists tr.
  split; [exact T|]. split; [eapply asks_all_guarded; exact A|].
  split; [exact W|]. split; [intros q; eapply asks_all_frame; exact A|].
  split; [intros q f; eapply asks_all_fixed; exact A|].
  intros q. eapply asks_all_kind; exact A.
Qed.

(** Claim C9, refuted as stated.  No rewrite pattern matches a file
    that holds [console.log(x)], and refactor-logger.py writes it back
    with the import line in front. *)
Lemma unmatched_file_overwritten :
  Logger_spec.no_rewrite_match Samples.unmatched_call = true
  /\ trace (final (Logger.main ["a.ts"%string]
                     (Samples.calm
                        (Samples.one_file "a.ts"%string
                           Samples.unmatched_call))))
     = [Read "a.ts"%string (Some Samples.unmatched_call);
        Write "a.ts"%string
          (Logger.IMPORT_LINE ++ LF :: LF :: Samples.unmatched_call)]
  /\ disk (final (Logger.main ["a.ts"%string]
                    (Samples.calm
                       (Samples.one_file "a.ts"%string
                          Samples.unmatched_call)))) "a.ts"%string
     = Present (Samples.plain_file
                  (Logger.IMPORT_LINE ++ LF :: LF :: Samples.unmatched_call)).
Proof. repeat split; vm_compute; reflexivity. Qed.

(** Claim C9, as amended.  Either script opens a file for writing only
    at once after reading it, and only to write what the Rewriter
    makes of the text read, which is another text; it asks nothing of
    a file that is not among its arguments (refactor_logs.py: not its
    first argument), and a file it never opens for writing is left as
    it was.  A file whose text the Rewriter leaves as it is, as every
    file without an occurrence of console.log, console.warn or
    console.error, every file with a logger import in which no rewrite
    pattern matches (refactor-logger.py) and every file in which none
    of the five patterns matches (refactor_logs.py), is never opened
    for writing and is left as it was. *)
Theorem overwrite_only_on_change (args : list path) (w : world) :
  (exists tr,
     trace (final (Logger.main args w)) = trace w ++ tr
     /\ writes_follow_reads Logger_spec.output tr
     /\ within args tr
     /\ (forall q, never_written q tr ->
           disk (final (Logger.main args w)) q = disk w q)
     /\ (forall q f,
           disk w q = Present f ->
           Logger_spec.output (data f) = data f
           \/ Logger.count_console (data f) = 0
           \/ (Logger.has_logger_import (data f) = true
               /\ Logger_spec.no_rewrite_match (data f) = true) ->
           never_written q tr
           /\ disk (final (Logger.main args w)) q = Present f))
  /\ (exists tr,
        trace (final (Logs.main args w)) = trace w ++ tr
        /\ writes_follow_reads Logs_spec.output tr
        /\ within (firstn 1 args) tr
        /\ (forall q, never_written q tr ->
              disk (final (Logs.main args w)) q = disk w q)
        /\ (forall q f,
              disk w q = Present f ->
              Logs_spec.output (data f) = data f
              \/ Logs_spec.no_rewrite_match (data f) = true ->
              never_written q tr
              /\ disk (final (Logs.main args w)) q = Present f)).
Proof.
  split.
  - destruct (history_files _ _ _ _ (logger_main_history args w))
      as (tr & T & G & W & Fr & Fx & _).
    exists tr. unfold final. repeat (split; [assumption|]).
    intros q f E H. apply (Fx q f E).
    destruct H as [H | [H | [Hi Hn]]]; [exact H | |].
    + apply logger_output_no_console, H.
    + unfold Logger_spec.output. rewrite logger_import_no_match by assumption.
      reflexivity.
  - destruct (history_files _ _ _ _ (logs_main_history args w))
      as (tr & T & G & W & Fr & Fx & _).
    exists tr. unfold final. repeat (split; [assumption|]).
    intros q f E H. apply (Fx q f E).
    destruct H as [H | H]; [exact H | apply logs_output_no_match, H].
Qed.

Lemma overwrite_only_on_change_witness :
  disk (final (Logger.main ["locked.ts"; "a.ts"]%string
                 (Samples.calm
                    (update Samples.three_files "locked.ts"%string
                       (Present (mkFile Samples.plain_js true false None))))))
       "locked.ts"%string
  = Present (mkFile Samples.plain_js true false None)
  /\ disk (final (Logs.main ["a.ts"]%string
                    (Samples.calm
                       (Samples.one_file "a.ts"%string
                          Samples.unmatched_call)))) "a.ts"%string
     = Present (Samples.plain_file Samples.unmatched_call).
Proof.
  split.
  - pose proof (proj1 (overwrite_only_on_change ["locked.ts"; "a.ts"]%string
                 (Samples.calm
                    (update Samples.three_files "locked.ts"%string
                       (Present (mkFile Samples.plain_js true false None))))))
      as (tr & _ & _ & _ & _ & Fx).
    apply (proj2 (Fx "locked.ts"%string
                    (mkFile Samples.plain_js true false None) eq_refl
                    (or_intror (or_introl eq_refl)))).
  - pose proof (proj2 (overwrite_only_on_change ["a.ts"]%string
                    (Samples.calm
                       (Samples.one_file "a.ts"%string
                          Samples.unmatched_call))))
      as (tr & _ & _ & _ & _ & Fx).
    apply (proj2 (Fx "a.ts"%string
                    (Samples.plain_file Samples.unmatched_call) eq_refl
                    (or_intror eq_refl))).
Defined.

Lemma visited_present fs a evs new fs1 nc :
  Logger_runs.visited fs a evs new fs1 -> In nc new ->
  fst nc = path_name a /\ exists f, fs a = Present f.
Proof.
  intros H Hin. destruct H; cbn in Hin; try contradiction;
    destruct Hin as [<- | []]; split; eauto.
Qed.

Lemma visits_names fs args evs new fs' :
  Logger_runs.visits fs args evs new fs' ->
  forall nc, In nc new ->
    exists p f, In p args /\ fst nc = path_name p /\ fs p = Present f.
Proof.
  induction 1 as [|fs a rest evs1 new1 fs1 evs2 new2 fs2 Hv Hvs IH];
    intros nc Hin; [destruct Hin|].
  apply in_app_or in Hin. destruct Hin as [Hin | Hin].
  - destruct (visited_present _ _ _ _ _ _ Hv Hin) as (E & f & Hf).
    exists a, f. split; [left; reflexivity | auto].
  - destruct (IH nc Hin) as (p & f1 & Hp & E & Hf1).
    pose proof (visited_kind _ _ _ _ _ p Hv) as Hk. rewrite Hf1 in Hk.
    destruct (fs p) as [c| |f] eqn:Ef; cbn in Hk; try contradiction.
    exists p, f. split; [right; exact Hp | auto].
Qed.

(** Property X15.  With at least one argument, when every line can be
    printed and every argument can be examined, refactor-logger.py ends
    its output with the summary: the header, one line for each line
    [converted] printed before it, in that order and with the same name
    and count, the number of those lines and the sum of their counts.
    One line per argument closes its report, and every name listed is
    the last component of an argument that leads to a file. *)
Theorem logger_summary_lists_converted (args : list path) (w : world) :
  args <> [] -> accepting w -> reachable (disk w) args ->
  exists evs,
    printed (final (Logger.main args w))
    = printed w ++ evs
        ++ SummaryHeader
        :: map (fun nc => SummaryLine (fst nc) (snd nc)) (converted_of evs)
        ++ [TotalFiles (length (converted_of evs));
            TotalStatements (fold_left Z.add (map snd (converted_of evs)) 0%Z)]
    /\ length (filter closes evs) = length args
    /\ forall name count,
         In (name, count) (converted_of evs) ->
         exists p f, In p args /\ name = path_name p
                     /\ disk w p = Present f.
Proof.
  intros Hne Ha Hr.
  destruct (logger_main_calm args w Hne Ha Hr)
    as (evs & results & w' & Hrun & Hvs & _ & Hp).
  destruct (visits_converted _ _ _ _ _ Hvs) as (Hc & Hl & _).
  exists evs. unfold final. rewrite Hrun. cbn [snd].
  rewrite Hp, Hc. split; [reflexivity|]. split; [exact Hl|].
  intros name count Hin.
  destruct (visits_names _ _ _ _ _ Hvs (name, count) Hin) as (p & f & H).
  exists p, f. exact H.
Qed.

Lemma logger_summary_lists_converted_witness :
  exists evs,
    printed (final (Logger.main
                      ["missing.ts"; "src/a.ts"; "locked.ts"]%string
                      (Samples.calm
                         (update Samples.three_files "src/a.ts"%string
                            (Present (Samples.plain_file
                                        Samples.failed_call))))))
    = [] ++ evs
        ++ SummaryHeader
        :: map (fun nc => SummaryLine (fst nc) (snd nc)) (converted_of evs)
        ++ [TotalFiles (length (converted_of evs));
            TotalStatements (fold_left Z.add (map snd (converted_of evs)) 0%Z)]
    /\ length (filter closes evs) = 3
    /\ forall name count,
         In (name, count) (converted_of evs) ->
         exists p f,
           In p ["missing.ts"; "src/a.ts"; "locked.ts"]%string
           /\ name = path_name p
           /\ update Samples.three_files "src/a.ts"%string
                (Present (Samples.plain_file Samples.failed_call)) p
              = Present f.
Proof.
  apply (logger_summary_lists_converted
           ["missing.ts"; "src/a.ts"; "locked.ts"]%string
           (Samples.calm
              (update Samples.three_files "src/a.ts"%string
                 (Present (Samples.plain_file Samples.failed_call))))).
  - discriminate.
  - intros l e. reflexivity.
  - intros p [<- | [<- | [<- | []]]]; vm_compute; discriminate.
Defined.

(** Property X16.  Neither script creates or removes a file, whatever
    the arguments: what a path leads to after a run is of the kind it
    was before, a file with the same permissions and room where it was
    a file. *)
Theorem files_neither_created_nor_removed
        (args : list path) (w : world) (q : path) :
  same_kind (disk w q) (disk (final (Logger.main args w)) q)
  /\ same_kind (disk w q) (disk (final (Logs.main args w)) q).
Proof.
  split.
  - destruct (history_files _ _ _ _ (logger_main_history args w))
      as (tr & _ & _ & _ & _ & _ & K). apply K.
  - destruct (history_files _ _ _ _ (logs_main_history args w))
      as (tr & _ & _ & _ & _ & _ & K). apply K.
Qed.

(** Property X17.  refactor_logs.py prints at most one line.  When the
    line is [Refactored n console statements in p], [main] has ended
    normally, [p] is the first argument, [n] is the positive count
    [refactor_file] returned for the file and the file holds the text
    [refactor_file] returned, in full.  When it is [No console
    statements found in p], [main] has ended normally, the count is 0
    and the files are as they were.  When [main] ends normally it has
    printed one of the two, and the exit status is 0 exactly when
    [main] ends normally and the streams can be flushed. *)
Theorem logs_main_report (args : list path) (w : world) :
  (exists evs, printed (final (Logs.main args w)) = printed w ++ evs
               /\ length evs <= 1)
  /\ (forall n p,
        printed (final (Logs.main args w)) = printed w ++ [Refactored n p] ->
        ending (Logs.main args w) = Ok tt
        /\ exists rest f,
             args = p :: rest /\ disk w p = Present f
             /\ n = fst (Logs.refactor_text (data f)) /\ 0 < n
             /\ disk (final (Logs.main args w)) p
                = Present (mkFile (snd (Logs.refactor_text (data f)))
                             (readable f) (writable f) (room f)))
  /\ (forall p,
        printed (final (Logs.main args w))
        = printed w ++ [NoConsoleStatements p] ->
        ending (Logs.main args w) = Ok tt
        /\ disk (final (Logs.main args w)) = disk w
        /\ exists rest f,
             args = p :: rest /\ disk w p = Present f
             /\ fst (Logs.refactor_text (data f)) = 0)
  /\ (ending (Logs.main args w) = Ok tt ->
      exists e, printed (final (Logs.main args w)) = printed w ++ [e]
                /\ ((exists n p, e = Refactored n p)
                    \/ exists p, e = NoConsoleStatements p))
  /\ (exit_status (Logs.main args w) = 0%Z
      <-> ending (Logs.main args w) = Ok tt
          /\ closing (final (Logs.main args w))
                (printed (final (Logs.main args w))) = true).
Proof.
  assert (H5 : exit_status (Logs.main args w) = 0%Z
               <-> ending (Logs.main args w) = Ok tt
                   /\ closing (final (Logs.main args w))
                         (printed (final (Logs.main args w))) = true).
  { unfold exit_status.
    destruct (closing (final (Logs.main args w))
                (printed (final (Logs.main args w))));
      destruct (logs_main_ending args w) as [-> | [-> | ->]];
      split; try discriminate; try tauto; intros [? ?]; discriminate. }
  revert H5.
  match goal with
  | |- ?H -> ?A /\ ?B /\ ?C /\ ?D /\ ?E =>
      intros H5; cut (A /\ B /\ C /\ D); [tauto|]; clear H5
  end.
  assert (Hnil : forall e : event, printed w ++ [e] <> printed w).
  { intros e H. rewrite <- (app_nil_r (printed w)) in H at 2.
    apply app_inv_head in H. discriminate. }
  assert (Hone : forall e e' : event,
             printed w ++ [e] = printed w ++ [e'] -> e = e').
  { intros e e' H. apply app_inv_head in H. inversion H. reflexivity. }
  destruct args as [|a rest].
  { unfold Logs.main, bind, print, sys_exit, final, ending.
    destruct (console w (printed w) Usage); cbn [fst snd printed].
    - split; [exists [Usage]; auto|].
      split; [intros n p H; apply Hone in H; discriminate|].
      split; [intros p H; apply Hone in H; discriminate | discriminate].
    - split; [exists []; rewrite app_nil_r; auto|].
      split; [intros n p H; symmetry in H; apply Hnil in H; contradiction|].
      split; [intros p H; symmetry in H; apply Hnil in H; contradiction
             | discriminate]. }
  destruct (disk w a) as [c| |f] eqn:E.
  { rewrite (logs_main_missing a rest w c E).
    unfold final, ending.
    destruct (console w (printed w) (ErrorFileNotFound a));
      cbn [fst snd printed].
    - split; [exists [ErrorFileNotFound a]; auto|].
      split; [intros n p H; apply Hone in H; discriminate|].
      split; [intros p H; apply Hone in H; discriminate | discriminate].
    - split; [exists []; rewrite app_nil_r; auto|].
      split; [intros n p H; symmetry in H; apply Hnil in H; contradiction|].
      split; [intros p H; symmetry in H; apply Hnil in H; contradiction
             | discriminate]. }
  { rewrite (logs_main_unreachable a rest w E).
    unfold final, ending. cbn [fst snd].
    split; [exists []; rewrite app_nil_r; auto|].
    split; [intros n p H; symmetry in H; apply Hnil in H; contradiction|].
    split; [intros p H; symmetry in H; apply Hnil in H; contradiction
           | discriminate]. }
  destruct (readable f) eqn:Er.
  2:{ rewrite (logs_main_unreadable a rest w f E Er).
      unfold final, ending. cbn [fst snd asked printed].
      split; [exists []; rewrite app_nil_r; auto|].
      split; [intros n p H; symmetry in H; apply Hnil in H; contradiction|].
      split; [intros p H; symmetry in H; apply Hnil in H; contradiction
             | discriminate]. }
  destruct (Nat.eq_dec (fst (Logs.refactor_text (data f))) 0) as [Ec | Ec].
  { rewrite (logs_main_nothing a rest w f E Er Ec).
    unfold print, final, ending.
    cbn [asked disk console closing printed trace].
    destruct (console w (printed w) (NoConsoleStatements a));
      cbn [fst snd printed disk asked].
    - split; [exists [NoConsoleStatements a]; auto|].
      split; [intros n p H; apply Hone in H; discriminate|].
      split.
      + intros p H. apply Hone in H. injection H as Hp. subst p.
        split; [reflexivity|]. split; [reflexivity|]. eauto.
      + intros _. exists (NoConsoleStatements a). split; [reflexivity|].
        right. eauto.
    - split; [exists []; rewrite app_nil_r; auto|].
      split; [intros n p H; symmetry in H; apply Hnil in H; contradiction|].
      split; [intros p H; symmetry in H; apply Hnil in H; contradiction
             | discriminate]. }
  destruct (writable f) eqn:Ew.
  2:{ rewrite (logs_main_refused a rest w f E Er Ec Ew).
      unfold final, ending. cbn [fst snd asked printed].
      split; [exists []; rewrite app_nil_r; auto|].
      split; [intros n p H; symmetry in H; apply Hnil in H; contradiction|].
      split; [intros p H; symmetry in H; apply Hnil in H; contradiction
             | discriminate]. }
  destruct (fits f (Logs_spec.output (data f))) eqn:Ef.
  2:{ rewrite (logs_main_short a rest w f E Er Ec Ew Ef).
      unfold final, ending. cbn [fst snd printed].
      split; [exists []; rewrite app_nil_r; auto|].
      split; [intros n p H; symmetry in H; apply Hnil in H; contradiction|].
      split; [intros p H; symmetry in H; apply Hnil in H; contradiction
             | discriminate]. }
  rewrite (logs_main_written a rest w f E Er Ec Ew Ef).
  unfold print, final, ending. cbn [disk console closing printed trace].
  destruct (console w (printed w)
              (Refactored (fst (Logs.refactor_text (data f))) a));
    cbn [fst snd printed disk].
  - split; [eexists [_]; auto|].
    split.
    + intros n p H. apply Hone in H.
      assert (Hpos : 0 < fst (Logs.refactor_text (data f))) by lia.
      injection H as Hn Hp. subst n p.
      split; [reflexivity|]. exists rest, f.
      split; [reflexivity|]. split; [exact E|]. split; [reflexivity|].
      split; [exact Hpos|]. rewrite update_same, store_spec, Ef. reflexivity.
    + split; [intros p H; apply Hone in H; discriminate|].
      intros _. eexists. split; [reflexivity|]. left. eauto.
  - split; [exists []; rewrite app_nil_r; auto|].
    split; [intros n p H; symmetry in H; apply Hnil in H; contradiction|].
    split; [intros p H; symmetry in H; apply Hnil in H; contradiction
           | discriminate].
Qed.

Lemma logs_main_report_witness :
  ending (Logs.main ["a.ts"%string]
            (Samples.calm
               (Samples.one_file "a.ts"%string
                  (txt "console.log('Saved', id);")))) = Ok tt
  /\ exists rest f,
       ["a.ts"%string] = "a.ts"%string :: rest
       /\ Samples.one_file "a.ts"%string (txt "console.log('Saved', id);")
            "a.ts"%string = Present f
       /\ 1 = fst (Logs.refactor_text (data f)) /\ 0 < 1
       /\ disk (final (Logs.main ["a.ts"%string]
                         (Samples.calm
                            (Samples.one_file "a.ts"%string
                               (txt "console.log('Saved', id);")))))
              "a.ts"%string
          = Present (mkFile (snd (Logs.refactor_text (data f)))
                       (readable f) (writable f) (room f)).
Proof.
  pose proof (proj1 (proj2 (logs_main_report ["a.ts"%string]
                 (Samples.calm
                    (Samples.one_file "a.ts"%string
                       (txt "console.log('Saved', id);"))))))
    as H.
  apply (H 1 "a.ts"%string). vm_compute. reflexivity.
Defined.

